(* ===================================================================== *)
(* Site monitor (monitor.py): the text normaliser, the pattern matcher,  *)
(* the discovery ledger (found_items / notification_sent), the check     *)
(* cycle and the monitor loop, embedded as Rocq functions.               *)
(*                                                                       *)
(* Conventions of the embedding                                          *)
(*  - a Python str is a [string]; its characters are the code points     *)
(*    below 256 (the Latin-1 range);                                     *)
(*  - a dict is a [gmap]; [d[k]] on a missing key raises KeyError, which *)
(*    is [None] in the [option] result of the function that reads it;    *)
(*    the ValueError that [urljoin] raises on some hrefs is [None] too;  *)
(*  - [datetime.now()], the HTTP responses to the fetches and to the     *)
(*    Pushover posts come from the environment: they are arguments       *)
(*    (oracles) of the functions that consume them;                      *)
(*  - the monitor carries a journal, a ghost field that records every    *)
(*    write of a found timestamp and every Pushover post in order, so    *)
(*    that statements about commits and dispatches can be made;          *)
(*  - a check cycle runs its checks one after the other, in the order    *)
(*    in which the futures complete (see run_check);                     *)
(*  - the constructor reads [os.getenv] through an argument of type      *)
(*    Environ; [urlparse], [int] and [json.loads] are variables of the   *)
(*    section Configuration, None standing for the exception they raise. *)
(* ===================================================================== *)

From Stdlib Require Import NArith ZArith Ascii String List Bool Lia.
From Stdlib Require Import DecimalString DecimalNat.
From stdpp Require Import gmap strings list fin_maps.

Local Open Scope string_scope.

(* --------------------------------------------------------------------- *)
(* Class constants of SiteMonitor                                        *)
(* --------------------------------------------------------------------- *)

Definition MAX_CONTENT_SIZE : N := 1024 * 1024 * 20.
Definition MAX_RETRIES : nat := 3.
Definition TEXT_LIMIT : N := 100000.

(* --------------------------------------------------------------------- *)
(* Strings: slices, lower(), strip(), the two regular expressions        *)
(* --------------------------------------------------------------------- *)

Module Str.

(** [s[:n]] *)
Fixpoint slice_to (n : N) (s : string) : string :=
  match s with
  | EmptyString => EmptyString
  | String c r =>
      if (n =? 0)%N then EmptyString else String c (slice_to (N.pred n) r)
  end.

Definition code (c : ascii) : N := N_of_ascii c.

Definition between (lo hi : N) (c : ascii) : bool :=
  ((lo <=? code c)%N && (code c <=? hi)%N)%bool.

(** [c.isupper()] on the Latin-1 range: A-Z, and U+00C0..U+00DE but the
    multiplication sign U+00D7. *)
Definition is_upper (c : ascii) : bool :=
  (between 65 90 c
   || (between 192 222 c && negb (code c =? 215)%N))%bool.

(** [c.lower()]: every upper-case letter of the range is 32 below its
    lower-case form. *)
Definition lower_char (c : ascii) : ascii :=
  if is_upper c then ascii_of_N (code c + 32) else c.

(** [s.lower()] *)
Fixpoint lower (s : string) : string :=
  match s with
  | EmptyString => EmptyString
  | String c r => String (lower_char c) (lower r)
  end.

(** The class [\s] of [re] on str patterns, which is [str.isspace]:
    TAB..CR, FS..US, SPACE, NEL (U+0085) and NBSP (U+00A0). *)
Definition is_space (c : ascii) : bool :=
  (between 9 13 c || between 28 32 c
   || (code c =? 133)%N || (code c =? 160)%N)%bool.

(** The class [a-z0-9]. *)
Definition is_lower_alnum (c : ascii) : bool :=
  (between 97 122 c || between 48 57 c)%bool.

(** [re.sub(r'[^a-z0-9\s]', ' ', s)] *)
Fixpoint sub_delimiters (s : string) : string :=
  match s with
  | EmptyString => EmptyString
  | String c r =>
      String (if (is_lower_alnum c || is_space c)%bool then c else " "%char)
             (sub_delimiters r)
  end.

(** [re.sub(r'\s+', ' ', s)]: every maximal run of white space becomes one
    space. [in_run] tells that the character before was white space, ie
    that the run's space has been written already. *)
Fixpoint sub_space_runs_from (in_run : bool) (s : string) : string :=
  match s with
  | EmptyString => EmptyString
  | String c r =>
      if is_space c
      then (if in_run then sub_space_runs_from true r
            else String " "%char (sub_space_runs_from true r))
      else String c (sub_space_runs_from false r)
  end.

Definition sub_space_runs (s : string) : string :=
  sub_space_runs_from false s.

(** [s.lstrip()] *)
Fixpoint lstrip (s : string) : string :=
  match s with
  | EmptyString => EmptyString
  | String c r => if is_space c then lstrip r else s
  end.

(** [s.rstrip()] *)
Fixpoint rstrip (s : string) : string :=
  match s with
  | EmptyString => EmptyString
  | String c r =>
      match rstrip r with
      | EmptyString => if is_space c then EmptyString else String c EmptyString
      | r' => String c r'
      end
  end.

(** [s.strip()] *)
Definition strip (s : string) : string := rstrip (lstrip s).

(** [p] is a prefix of [s] *)
Fixpoint starts_with (p s : string) : bool :=
  match p, s with
  | EmptyString, _ => true
  | String _ _, EmptyString => false
  | String a p', String b s' => (Ascii.eqb a b && starts_with p' s')%bool
  end.

(** [needle in hay] *)
Fixpoint contains (needle hay : string) : bool :=
  (starts_with needle hay
   || match hay with
      | EmptyString => false
      | String _ r => contains needle r
      end)%bool.

(** [sep.join(parts)] *)
Fixpoint join (sep : string) (parts : list string) : string :=
  match parts with
  | [] => EmptyString
  | [p] => p
  | p :: rest => p ++ sep ++ join sep rest
  end.

(** Truth value of a str: the empty string is false. *)
Definition truthy (s : string) : bool :=
  match s with EmptyString => false | _ => true end.

(** Truth value of an attribute read with [.get]: None and "" are false. *)
Definition truthy_opt (o : option string) : bool :=
  match o with Some s => truthy s | None => false end.

End Str.

(* --------------------------------------------------------------------- *)
(* SiteMonitor._normalize_text                                           *)
(* --------------------------------------------------------------------- *)

Definition _normalize_text (text : string) : string :=
  if negb (Str.truthy text) then ""
  else
    let text := Str.slice_to TEXT_LIMIT text in
    let text := Str.lower text in
    let normalized := Str.sub_delimiters text in
    let normalized := Str.strip (Str.sub_space_runs normalized) in
    normalized.

(** The normaliser as section 4.1 of the specification words it: truncate,
    lowercase, replace every character outside [a-z0-9] with a space,
    collapse consecutive white space to single spaces, trim both ends. *)
Module NormalizeSpec.

Fixpoint replace_outside_alnum (s : string) : string :=
  match s with
  | EmptyString => EmptyString
  | String c r =>
      String (if Str.is_lower_alnum c then c else " "%char)
             (replace_outside_alnum r)
  end.

Definition normalize (s : string) : string :=
  let truncated := Str.slice_to 100000 s in
  let lowered := Str.lower truncated in
  let replaced := replace_outside_alnum lowered in
  let collapsed := Str.sub_space_runs replaced in
  Str.strip collapsed.

End NormalizeSpec.

(* --------------------------------------------------------------------- *)
(* SiteMonitor._normalize_text on every str                              *)
(*                                                                       *)
(* The same function with a str as the list of its code points, for the  *)
(* statements that bear on texts outside Latin-1: there [str.lower()]    *)
(* may lengthen a text (U+0130 becomes "i" and U+0307).                  *)
(* --------------------------------------------------------------------- *)

Module Unicode.

(** A str, one code point for each character. *)
Definition str := list N.

Definition between (lo hi c : N) : bool := ((lo <=? c) && (c <=? hi))%N.

(** [c.isspace()], which is also the class [\s] of [re] on str patterns
    and what [strip()] removes: TAB..CR, FS..US, SPACE, NEL, NBSP, U+1680,
    U+2000..U+200A, U+2028, U+2029, U+202F, U+205F and U+3000. *)
Definition is_space (c : N) : bool :=
  (between 9 13 c || between 28 32 c || (c =? 133)%N || (c =? 160)%N
   || (c =? 5760)%N || between 8192 8202 c || (c =? 8232)%N
   || (c =? 8233)%N || (c =? 8239)%N || (c =? 8287)%N
   || (c =? 12288)%N)%bool.

(** The class [a-z0-9]. *)
Definition is_lower_alnum (c : N) : bool :=
  (between 97 122 c || between 48 57 c)%bool.

(** [s[:n]] *)
Fixpoint slice_to (n : N) (s : str) : str :=
  match s with
  | [] => []
  | c :: r => if (n =? 0)%N then [] else c :: slice_to (N.pred n) r
  end.

(** [re.sub(r'[^a-z0-9\s]', ' ', s)] *)
Fixpoint sub_delimiters (s : str) : str :=
  match s with
  | [] => []
  | c :: r =>
      (if (is_lower_alnum c || is_space c)%bool then c else 32%N)
      :: sub_delimiters r
  end.

(** [re.sub(r'\s+', ' ', s)]; [in_run] tells that the character before was
    white space. *)
Fixpoint sub_space_runs_from (in_run : bool) (s : str) : str :=
  match s with
  | [] => []
  | c :: r =>
      if is_space c
      then (if in_run then sub_space_runs_from true r
            else 32%N :: sub_space_runs_from true r)
      else c :: sub_space_runs_from false r
  end.

Definition sub_space_runs (s : str) : str := sub_space_runs_from false s.

(** [s.lstrip()] *)
Fixpoint lstrip (s : str) : str :=
  match s with
  | [] => []
  | c :: r => if is_space c then lstrip r else s
  end.

(** [s.rstrip()] *)
Fixpoint rstrip (s : str) : str :=
  match s with
  | [] => []
  | c :: r =>
      match rstrip r with
      | [] => if is_space c then [] else [c]
      | r' => c :: r'
      end
  end.

(** [s.strip()] *)
Definition strip (s : str) : str := rstrip (lstrip s).

(** [p] is a prefix of [s] *)
Fixpoint starts_with (p s : str) : bool :=
  match p, s with
  | [], _ => true
  | _ :: _, [] => false
  | a :: p', b :: s' => ((a =? b)%N && starts_with p' s')%bool
  end.

(** [needle in hay] *)
Fixpoint contains (needle hay : str) : bool :=
  (starts_with needle hay
   || match hay with
      | [] => false
      | _ :: r => contains needle r
      end)%bool.

(** The characters a normalised text is made of: a-z, 0-9 and the space. *)
Definition is_normal_char (c : N) : bool :=
  (is_lower_alnum c || (c =? 32)%N)%bool.

(** Normal characters without two spaces in a row; [after_space] tells that
    a space stands before [s], so that [s] may not begin with one. *)
Fixpoint spaced (after_space : bool) (s : str) : bool :=
  match s with
  | [] => true
  | c :: r =>
      if is_lower_alnum c then spaced false r
      else ((c =? 32)%N && negb after_space && spaced true r)%bool
  end.

Section Normalize.

(** [str.lower]. It is a function of the whole text: the lower case of a
    character may be two characters, and may depend on its neighbours. *)
Variable lower : str -> str.

Definition _normalize_text (text : str) : str :=
  match text with
  | [] => []
  | _ :: _ =>
      let text := slice_to TEXT_LIMIT text in
      let text := lower text in
      let normalized := sub_delimiters text in
      strip (sub_space_runs normalized)
  end.

End Normalize.

(** The code points of a Latin-1 text. *)
Fixpoint of_string (s : string) : str :=
  match s with
  | EmptyString => []
  | String c r => N_of_ascii c :: of_string r
  end.

(** [lower] on the texts of Latin-1, as [Str.lower] has it; a code point
    above 255 is left as it is. *)
Definition latin1_lower (s : str) : str :=
  map (fun c => if (c <? 256)%N
                then N_of_ascii (Str.lower_char (ascii_of_N c))
                else c) s.

End Unicode.

(* --------------------------------------------------------------------- *)
(* The parsed page, as far as monitor.py queries it                      *)
(* --------------------------------------------------------------------- *)

(** [<meta>]: [meta.get('name')], [meta.get('content')] *)
Record Meta := { meta_name : option string; meta_content : option string }.

(** [<img>]: [img.get('alt')], [img.get('title')] *)
Record Img := { img_alt : option string; img_title : option string }.

(** [<a>]: [link.get_text()], [link.get('title')], [link.get('href')] *)
Record Anchor := {
  a_text : string; a_title : option string; a_href : option string }.

(** [<input>], [<textarea>] *)
Record Input := { in_placeholder : option string; in_value : option string }.

(** [<h1>]..[<h4>]: [heading.name], [heading.get_text()] *)
Record Heading := { h_name : string; h_text : string }.

(** A div, article or section whose class mentions "product":
    [container.get_text()], the text node [container.find(string=...)] finds
    (the first one with a currency sign and a digit), and the href of
    [container.find('a')]. *)
Record Container := {
  c_text : string; c_price_elem : option string; c_link_href : option string }.

(** What BeautifulSoup answers to the queries of the monitor, each list in
    document order. *)
Record Soup := {
  soup_text : string;                    (* soup.get_text() *)
  soup_title : option string;            (* soup.title.string, if any *)
  soup_metas : list Meta;                (* soup.find_all('meta') *)
  soup_imgs : list Img;                  (* soup.find_all('img') *)
  soup_anchors : list Anchor;            (* soup.find_all('a') *)
  soup_product_names : list string;      (* values of data-product-name *)
  soup_data_titles : list string;        (* values of data-title *)
  soup_inputs : list Input;              (* find_all(['input','textarea']) *)
  soup_headings : list Heading;          (* find_all(['h1','h2','h3','h4']) *)
  soup_containers : list Container
}.

Definition PRODUCT_TEXT_LIMIT : N := 200.

(** The dict a discovery is described by. *)
Record ProductInfo := {
  info_type : string;
  info_text : string;
  info_url : option string;
  info_full_url : option string;
  info_tag : option string;
  info_price : option string;
  info_search_term : string;
  info_found_at : string
}.

(* --------------------------------------------------------------------- *)
(* The monitor object, the Pushover service and the journal              *)
(* --------------------------------------------------------------------- *)

(** [datetime.now()] as a number; every datetime is true as a condition. *)
Abbreviation datetime := Z (only parsing).

(** The text of a Pushover message, by what it is built from. *)
Inductive Message :=
| MsgStartup
| MsgFound (info : ProductInfo)
| MsgMissionComplete (total_expected : nat)
    (sites : list (string * list (string * option datetime))).

(** What the journal records: the write of a found timestamp, and a post to
    Pushover with its title, its message and how it ended. *)
Inductive Event :=
| Committed (url term : string) (stamp : datetime)
| Posted (title : string) (msg : Message) (success : bool).

(** The answer to one post: an HTTP status, or an exception of [requests]. *)
Inductive PushResult := PushStatus (code : Z) | PushError.

Record SiteMonitor := {
  urls : list string;
  search_texts : list string;
  check_interval : Z;
  auto_stop_on_found : bool;
  found_items : gmap string (gmap string (option Z));
  notification_sent : gmap string (gmap string bool);
  journal : list Event                   (* ghost: oldest event first *)
}.

Definition set_found_items (fi : gmap string (gmap string (option Z)))
    (self : SiteMonitor) : SiteMonitor :=
  {| urls := urls self; search_texts := search_texts self;
     check_interval := check_interval self;
     auto_stop_on_found := auto_stop_on_found self;
     found_items := fi; notification_sent := notification_sent self;
     journal := journal self |}.

Definition set_notification_sent (ns : gmap string (gmap string bool))
    (self : SiteMonitor) : SiteMonitor :=
  {| urls := urls self; search_texts := search_texts self;
     check_interval := check_interval self;
     auto_stop_on_found := auto_stop_on_found self;
     found_items := found_items self; notification_sent := ns;
     journal := journal self |}.

Definition record_event (e : Event) (self : SiteMonitor) : SiteMonitor :=
  {| urls := urls self; search_texts := search_texts self;
     check_interval := check_interval self;
     auto_stop_on_found := auto_stop_on_found self;
     found_items := found_items self;
     notification_sent := notification_sent self;
     journal := journal self ++ [e] |}.

(** Lines 85-92 of [__init__]: one row per url, in each row every search
    text at None, respectively False. *)
Definition empty_row {V} (v : V) (terms : list string) : gmap string V :=
  fold_left (fun row search_text => <[search_text := v]> row) terms ∅.

Definition init_tables (us ts : list string)
    : gmap string (gmap string (option Z)) * gmap string (gmap string bool) :=
  fold_left
    (fun '(fi, ns) url =>
       (<[url := empty_row None ts]> fi, <[url := empty_row false ts]> ns))
    us (∅, ∅).

Definition __init__ (us ts : list string) (interval : Z) (auto_stop : bool)
    : SiteMonitor :=
  {| urls := us; search_texts := ts; check_interval := interval;
     auto_stop_on_found := auto_stop;
     found_items := fst (init_tables us ts);
     notification_sent := snd (init_tables us ts);
     journal := [] |}.

Local Open Scope list_scope.

(* --------------------------------------------------------------------- *)
(* Configuration: _validate_url, __init__ from the environment,          *)
(* _validate_config, the request headers of fetch_page                   *)
(* --------------------------------------------------------------------- *)

Section Configuration.

Definition MAX_URLS : nat := 10.
Definition MAX_SEARCH_TERMS : nat := 20.

(** What the code reads of [urlparse(url)]. *)
Record ParsedUrl := {
  scheme : string;
  netloc : string;
  hostname : option string
}.

(** [urllib.parse.urlparse]; None when it raises. *)
Variable urlparse : string -> option ParsedUrl.

(** [int(text)]; None when it raises ValueError. *)
Variable int_of_str : string -> option Z.

(** [str(i)] of a natural number. *)
Definition decimal (i : nat) : string :=
  NilEmpty.string_of_uint (Nat.to_uint i).

(** [hostname.startswith('172.') and
     any(hostname.startswith(f'172.{i}.') for i in range(16, 32))] *)
Definition private_172 (host : string) : bool :=
  (Str.starts_with "172." host
   && existsb (fun i => Str.starts_with ("172." +:+ decimal i +:+ ".") host)
              (seq 16 16))%bool.

(** The condition of lines 117-122. *)
Definition blocked_host (host : string) : bool :=
  (String.eqb host "localhost"
   || Str.starts_with "127." host
   || Str.starts_with "192.168." host
   || Str.starts_with "10." host
   || private_172 host)%bool.

Definition _validate_url (url : string) : bool :=
  match urlparse url with
  | None => false
  | Some parsed =>
      if (negb (Str.truthy (scheme parsed))
          || negb (Str.truthy (netloc parsed)))%bool then false
      else if negb (String.eqb (scheme parsed) "http"
                    || String.eqb (scheme parsed) "https")%bool then false
      else if (Str.truthy_opt (hostname parsed)
               && match hostname parsed with
                  | Some host => blocked_host host
                  | None => false
                  end)%bool then false
      else true
  end.

(** [s.split(sep)] for a separator of one character. *)
Fixpoint str_split (sep : ascii) (s : string) : list string :=
  match s with
  | EmptyString => [EmptyString]
  | String c r =>
      if Ascii.eqb c sep then EmptyString :: str_split sep r
      else match str_split sep r with
           | [] => [String c EmptyString]
           | piece :: pieces => String c piece :: pieces
           end
  end.

(** [[x.strip() for x in value.split(',') if x.strip()]] *)
Definition entries (value : string) : list string :=
  List.filter Str.truthy (map Str.strip (str_split ","%char value)).

(** [os.environ] as [os.getenv] reads it. *)
Definition Environ := string -> option string.

(** [os.getenv(key, fallback)] *)
Definition getenv_or (environ : Environ) (key fallback : string) : string :=
  match environ key with Some value => value | None => fallback end.

(** The exceptions that leave [__init__]. *)
Inductive InitError :=
| AttributeError
| ValueError (message : string)
| IntValueError (literal : string).

(** The attributes of the monitor that the ledger does not need. *)
Record Settings := {
  pushover_token : option string;
  pushover_user : option string;
  user_agent : string;
  notification_title : string;
  notification_priority : Z;
  notification_sound : string
}.

Definition default_user_agent : string :=
  "Mozilla/5.0 (Windows NT 10.0; Win64; x64) AppleWebKit/537.36 (KHTML, like Gecko) Chrome/91.0.4472.124 Safari/537.36".

Definition default_search_text : string := "DJI Mini 5 Pro".

(** The list [errors] of [_validate_config]. *)
Definition config_errors (token user : option string) (us ts : list string)
    (interval : Z) : list string :=
  (if Str.truthy_opt token then []
   else ["PUSHOVER_TOKEN environment variable is required"])
  ++ (if Str.truthy_opt user then []
      else ["PUSHOVER_USER environment variable is required"])
  ++ (match us with
      | [] => ["MONITOR_URL environment variable cannot be empty"]
      | _ => []
      end)
  ++ (match ts with
      | [] => ["SEARCH_TEXT cannot be empty"]
      | _ => []
      end)
  ++ (if (interval <? 10)%Z
      then ["CHECK_INTERVAL must be at least 10 seconds"] else []).

(** None when the configuration passes. *)
Definition _validate_config (token user : option string) (us ts : list string)
    (interval : Z) : option InitError :=
  match config_errors token user us ts interval with
  | [] => None
  | errors =>
      Some (ValueError ("Configuration validation failed: "
                        +:+ Str.join "; " errors))
  end.

(** [self.search_texts] of lines 75-81. *)
Definition load_search_texts (environ : Environ) : list string :=
  match environ "SEARCH_TEXT" with
  | Some search_text_env =>
      if Str.truthy search_text_env
      then firstn MAX_SEARCH_TERMS (entries search_text_env)
      else [default_search_text]
  | None => [default_search_text]
  end.

(** [SiteMonitor()]: lines 45-98, the attributes read from the environment,
    the tables of [__init__] above, then [_validate_config]. *)
Definition new_monitor (environ : Environ)
    : InitError + SiteMonitor * Settings :=
  match environ "MONITOR_URL" with
  | None => inl AttributeError
  | Some urls_env =>
      let raw_urls := entries urls_env in
      let us := List.filter _validate_url (firstn MAX_URLS raw_urls) in
      match us with
      | [] => inl (ValueError "No valid URLs provided")
      | _ =>
          let token := environ "PUSHOVER_TOKEN" in
          let user := environ "PUSHOVER_USER" in
          let interval_text := getenv_or environ "CHECK_INTERVAL" "300" in
          match int_of_str interval_text with
          | None => inl (IntValueError interval_text)
          | Some interval =>
              let priority_text :=
                getenv_or environ "NOTIFICATION_PRIORITY" "1" in
              match int_of_str priority_text with
              | None => inl (IntValueError priority_text)
              | Some priority =>
                  let auto_stop :=
                    String.eqb
                      (Str.lower (getenv_or environ "AUTO_STOP_ON_FOUND" "true"))
                      "true" in
                  let ts := load_search_texts environ in
                  match _validate_config token user us ts interval with
                  | Some error => inl error
                  | None =>
                      inr (__init__ us ts interval auto_stop,
                           {| pushover_token := token;
                              pushover_user := user;
                              user_agent :=
                                getenv_or environ "USER_AGENT"
                                          default_user_agent;
                              notification_title :=
                                getenv_or environ "NOTIFICATION_TITLE"
                                          "Content Found!";
                              notification_priority := priority;
                              notification_sound :=
                                getenv_or environ "NOTIFICATION_SOUND"
                                          "magic" |})
                  end
              end
          end
      end
  end.

(* ---- fetch_page: the request headers (lines 203-233) --------------------- *)

(** A value of the JSON object in CUSTOM_HEADERS: a str or something else. *)
Inductive JsonValue :=
| JString (text : string)
| JNotString.

(** What [json.loads] returns: a dict, whose keys are str, in the order of
    [items()], or something else. *)
Inductive Json :=
| JDict (items : list (string * JsonValue))
| JNotDict.

(** [json.loads]; None when it raises JSONDecodeError. *)
Variable json_loads : string -> option Json.

Definition default_headers (environ : Environ) (agent : string)
    : gmap string string :=
  <["Upgrade-Insecure-Requests" := getenv_or environ "HTTP_UPGRADE_INSECURE" "1"]>
  (<["Connection" := getenv_or environ "HTTP_CONNECTION" "keep-alive"]>
  (<["Accept-Encoding" := getenv_or environ "HTTP_ACCEPT_ENCODING" "gzip, deflate"]>
  (<["Accept-Language" := getenv_or environ "HTTP_ACCEPT_LANGUAGE" "en-US,en;q=0.5"]>
  (<["Accept" := getenv_or environ "HTTP_ACCEPT" "text/html,application/xhtml+xml,application/xml;q=0.9,image/webp,*/*;q=0.8"]>
  (<["User-Agent" := agent]> ∅))))).

(** The characters a header name may not hold: LF, CR and NUL. *)
Definition forbidden_in_name : list ascii :=
  ["010"%char; "013"%char; "000"%char].

(** [key and not any(c in key for c in ['\n', '\r', '\0'])] *)
Definition header_name_ok (key : string) : bool :=
  (Str.truthy key
   && negb (existsb (fun c => Str.contains (String c EmptyString) key)
                    forbidden_in_name))%bool.

(** One turn of the loop of lines 221-227. *)
Definition add_safe_header (safe : gmap string string)
    (item : string * JsonValue) : gmap string string :=
  match snd item with
  | JString value =>
      let key := Str.slice_to 100 (Str.strip (fst item)) in
      let value := Str.slice_to 500 (Str.strip value) in
      if header_name_ok key then <[key := value]> safe else safe
  | JNotString => safe
  end.

Definition safe_headers (items : list (string * JsonValue))
    : gmap string string :=
  fold_left add_safe_header items ∅.

(** The dict [headers] that [fetch_page] passes to [requests.get]. *)
Definition request_headers (environ : Environ) (agent : string)
    : gmap string string :=
  let headers := default_headers environ agent in
  match environ "CUSTOM_HEADERS" with
  | Some custom_headers =>
      if Str.truthy custom_headers
      then match json_loads custom_headers with
           | Some (JDict items) => safe_headers items ∪ headers
           | Some JNotDict => headers
           | None => headers
           end
      else headers
  | None => headers
  end.

(** [name: value] is what the loop of lines 221-227 makes of an item of
    [items] that it accepts. *)
Definition custom_header (items : list (string * JsonValue))
    (name value : string) : Prop :=
  exists key text,
    In (key, JString text) items
    /\ name = Str.slice_to 100 (Str.strip key)
    /\ value = Str.slice_to 500 (Str.strip text)
    /\ header_name_ok name = true.

End Configuration.

(* ---- Library functions used in the examples --------------------------- *)

(** [s] up to the first [stop], and the rest from [stop] on. *)
Fixpoint cut_at (stop : ascii) (s : string) : string * string :=
  match s with
  | EmptyString => (EmptyString, EmptyString)
  | String c r =>
      if Ascii.eqb c stop then (EmptyString, s)
      else (String c (fst (cut_at stop r)), snd (cut_at stop r))
  end.

(** A urlparse for urls of the form scheme://host[:port][/path]. *)
Definition plain_urlparse (url : string) : option ParsedUrl :=
  match snd (cut_at ":"%char url) with
  | String _ (String "/"%char (String "/"%char location)) =>
      let host := fst (cut_at ":"%char (fst (cut_at "/"%char location))) in
      Some {| scheme := Str.lower (fst (cut_at ":"%char url));
              netloc := fst (cut_at "/"%char location);
              hostname := if Str.truthy host then Some (Str.lower host)
                          else None |}
  | _ => Some {| scheme := EmptyString; netloc := EmptyString;
                 hostname := None |}
  end.

(** An int() for an optional sign followed by decimal digits. *)
Definition decimal_int (text : string) : option Z :=
  option_map Z.of_int (NilZero.int_of_string text).

(** An environment with two urls, one of them private, and two search
    texts. *)
Definition shop_environ : Environ :=
  fun key =>
    if String.eqb key "MONITOR_URL"
    then Some "https://shop.example/drones, http://192.168.1.1/admin"
    else if String.eqb key "PUSHOVER_TOKEN" then Some "token"
    else if String.eqb key "PUSHOVER_USER" then Some "user"
    else if String.eqb key "SEARCH_TEXT" then Some "DJI Mini 5 Pro, Mavic"
    else None.

(* --------------------------------------------------------------------- *)
(* The code that needs the two library functions                         *)
(* --------------------------------------------------------------------- *)

Section Monitor.

(** [BeautifulSoup(html_content, 'html.parser')] *)
Variable parse : string -> Soup.

(** [urllib.parse.urljoin]; None when it raises ValueError, as it does for
    an href like "//[". *)
Variable urljoin : string -> string -> option string.

(* ---- _collect_searchable_content -------------------------------- *)

Definition collect_title (soup : Soup) : list string :=
  match soup_title soup with
  | Some t => if Str.truthy t then [t] else []
  | None => []
  end.

Definition collect_meta (meta : Meta) : list string :=
  match meta_name meta, meta_content meta with
  | Some name, Some content =>
      if ((String.eqb name "description" || String.eqb name "keywords")
          && Str.truthy content)%bool
      then [content] else []
  | _, _ => []
  end.

(** [if x.get(k): searchable_content.append(x[k])] *)
Definition collect_attr (o : option string) : list string :=
  match o with
  | Some v => if Str.truthy v then [v] else []
  | None => []
  end.

Definition _collect_searchable_content (soup : Soup) : list string :=
  [soup_text soup]
  ++ collect_title soup
  ++ concat (map collect_meta (soup_metas soup))
  ++ concat (map (fun img => collect_attr (img_alt img)
                             ++ collect_attr (img_title img))
                 (soup_imgs soup))
  ++ concat (map (fun link => collect_attr (a_title link)
                              ++ collect_attr (a_href link))
                 (soup_anchors soup))
  ++ soup_product_names soup
  ++ soup_data_titles soup
  ++ concat (map (fun input_elem => collect_attr (in_placeholder input_elem)
                                    ++ collect_attr (in_value input_elem))
                 (soup_inputs soup)).

(* ---- _extract_product_details ----------------------------------- *)

(** The test of the link and heading searches:
    [search_text.lower() in text.lower()
     or normalize(search_text) in normalize(text)] *)
Definition mentions (search_text text : string) : bool :=
  (Str.contains (Str.lower search_text) (Str.lower text)
   || Str.contains (_normalize_text search_text) (_normalize_text text))%bool.

(** [urljoin(url, href) if href else None]; the outer None is the
    ValueError of [urljoin]. *)
Definition full_url_of (url : string) (href : option string)
    : option (option string) :=
  match href with
  | Some href =>
      if Str.truthy href
      then match urljoin url href with
           | Some full_url => Some (Some full_url)
           | None => None
           end
      else Some None
  | None => Some None
  end.

(** The record of a link; None when [urljoin] raises. *)
Definition link_info (search_text url : string) (link : Anchor)
    : option ProductInfo :=
  let link_text := Str.strip (a_text link) in
  match full_url_of url (a_href link) with
  | None => None
  | Some full_url =>
      Some {| info_type := "link"; info_text := link_text;
              info_url := a_href link;
              info_full_url := full_url;
              info_tag := None; info_price := None;
              info_search_term := search_text; info_found_at := url |}
  end.

Definition heading_info (search_text url : string) (heading : Heading)
    : ProductInfo :=
  {| info_type := "heading"; info_text := Str.strip (h_text heading);
     info_url := None; info_full_url := None;
     info_tag := Some (h_name heading); info_price := None;
     info_search_term := search_text; info_found_at := url |}.

Definition container_info (search_text url : string) (container : Container)
    : ProductInfo :=
  let container_text := c_text container in
  {| info_type := "product_container";
     info_text :=
       if (PRODUCT_TEXT_LIMIT <? N.of_nat (String.length container_text))%N
       then Str.slice_to PRODUCT_TEXT_LIMIT (Str.strip container_text) +:+ "..."
       else Str.strip container_text;
     info_url := c_link_href container;
     info_full_url := None; info_tag := None;
     info_price :=
       Some match c_price_elem container with
            | Some price => Str.strip price
            | None => "Price not found"
            end;
     info_search_term := search_text; info_found_at := url |}.

(** The first element of [l] that passes [test], as a list of at most one
    record: a [for] loop that appends and breaks at the first hit. *)
Definition first_hit {A} (test : A -> bool) (mk : A -> ProductInfo)
    (l : list A) : list ProductInfo :=
  match List.find test l with
  | Some x => [mk x]
  | None => []
  end.

(** The loop over the links: the record of the first link that mentions
    the text, if there is one; None when [urljoin] raises on its href. *)
Definition first_link (soup : Soup) (url search_text : string)
    : option (list ProductInfo) :=
  match List.find (fun link => mentions search_text (Str.strip (a_text link)))
                  (soup_anchors soup) with
  | Some link =>
      match link_info search_text url link with
      | Some info => Some [info]
      | None => None
      end
  | None => Some []
  end.

(** The records of one found text, lines 324-376; None is the ValueError
    of [urljoin], which ends the function. *)
Definition details_of (soup : Soup) (url search_text : string)
    : option (list ProductInfo) :=
  match first_link soup url search_text with
  | None => None
  | Some links =>
      Some (links
            ++ first_hit (fun heading =>
                            mentions search_text (Str.strip (h_text heading)))
                         (heading_info search_text url) (soup_headings soup)
            ++ first_hit (fun container =>
                            Str.contains (_normalize_text search_text)
                                         (_normalize_text (c_text container)))
                         (container_info search_text url)
                         (soup_containers soup))
  end.

(** [product_info] for the texts [found_texts], in their order; None when
    [urljoin] raises for one of them. *)
Fixpoint _extract_product_details (soup : Soup)
    (found_texts : list string) (url : string)
    : option (list ProductInfo) :=
  match found_texts with
  | [] => Some []
  | search_text :: rest =>
      match details_of soup url search_text with
      | None => None
      | Some details =>
          match _extract_product_details soup rest url with
          | None => None
          | Some more => Some (details ++ more)
          end
      end
  end.

(* ---- fetch_page --------------------------------------------------- *)

(** How one [requests.get] followed by [raise_for_status] ends. *)
Inductive Attempt :=
| Response (content_length : N) (text : string)
| Timeout
| ConnectionError
| HTTPError (status_code : Z)
| OtherError.

(** The [for attempt in range(MAX_RETRIES)] loop; [outcomes attempt] is
    what the attempt numbered [attempt] meets, [remaining] counts the
    attempts left. The sleeps between attempts are not modelled. *)
Fixpoint fetch_attempts (outcomes : nat -> Attempt) (attempt remaining : nat)
    : option string :=
  match remaining with
  | O => None
  | S remaining' =>
      match outcomes attempt with
      | Response content_length text =>
          if (MAX_CONTENT_SIZE <? content_length)%N
          then Some (Str.slice_to (MAX_CONTENT_SIZE / 2) text)
          else Some text
      | Timeout | ConnectionError =>
          fetch_attempts outcomes (S attempt) remaining'
      | HTTPError status_code =>
          if (500 <=? status_code)%Z
          then fetch_attempts outcomes (S attempt) remaining'
          else None
      | OtherError => None
      end
  end.

Definition fetch_page (outcomes : nat -> Attempt) : option string :=
  fetch_attempts outcomes 0 MAX_RETRIES.

(** [if not html_content]: None and "" are false. *)
Definition no_content (html_content : option string) : bool :=
  negb (Str.truthy_opt html_content).

(* ---- check_for_patterns ------------------------------------------- *)

(** [row.get(search_text)] as a condition. *)
Definition is_found (row : gmap string (option Z)) (search_text : string)
    : bool :=
  match row !! search_text with
  | Some (Some _) => true
  | _ => false
  end.

(** Lines 412-416, the write under the lock: it is made when the entry is
    not set yet. The result tells whether it was made; None is the
    KeyError of [self.found_items[url]]. *)
Definition commit_found (now : Z) (url search_text : string)
    (self : SiteMonitor) : SiteMonitor * option bool :=
  match found_items self !! url with
  | None => (self, None)
  | Some row =>
      if is_found row search_text then (self, Some false)
      else
        (record_event (Committed url search_text now)
           (set_found_items
              (<[url := <[search_text := Some now]> row]> (found_items self))
              self),
         Some true)
  end.

(** Lines 403-416, the loop over the search texts. [now search_text] is
    what [datetime.now()] returns when the entry of [search_text] is
    written. The result is [found_texts]. *)
Fixpoint match_terms (now : string -> Z) (normalized_content url : string)
    (search_texts_to_check : list string) (found_texts : list string)
    (self : SiteMonitor) : SiteMonitor * option (list string) :=
  match search_texts_to_check with
  | [] => (self, Some found_texts)
  | search_text :: rest =>
      match found_items self !! url with
      | None => (self, None)
      | Some row =>
          if is_found row search_text
          then match_terms now normalized_content url rest found_texts self
          else
            let normalized_search := _normalize_text search_text in
            if Str.contains normalized_search normalized_content
            then
              match commit_found (now search_text) url search_text self with
              | (self', None) => (self', None)
              | (self', Some true) =>
                  match_terms now normalized_content url rest
                              (found_texts ++ [search_text]) self'
              | (self', Some false) =>
                  match_terms now normalized_content url rest found_texts self'
              end
            else match_terms now normalized_content url rest found_texts self
      end
  end.

(** [' '.join(str(content) for content in searchable_content if content)]
    normalised. *)
Definition normalized_content_of (soup : Soup) : string :=
  let searchable_content := _collect_searchable_content soup in
  let all_content := Str.join " " (List.filter Str.truthy
                                               searchable_content) in
  _normalize_text all_content.

(** [specific_search_texts or self.search_texts] *)
Definition texts_to_check (specific_search_texts : option (list string))
    (self : SiteMonitor) : list string :=
  match specific_search_texts with
  | Some (t :: ts) => t :: ts
  | _ => search_texts self
  end.

(** The result is the pair the function returns; None stands for an
    exception that leaves the function. *)
Definition check_for_patterns (now : string -> Z)
    (html_content : option string) (url : string)
    (specific_search_texts : option (list string)) (self : SiteMonitor)
    : SiteMonitor * option (bool * option (list ProductInfo)) :=
  match html_content with
  | None => (self, Some (false, None))
  | Some html =>
      if negb (Str.truthy html) then (self, Some (false, None))
      else
        let soup := parse html in
        let normalized_content := normalized_content_of soup in
        let search_texts_to_check :=
          texts_to_check specific_search_texts self in
        match match_terms now normalized_content url search_texts_to_check
                          [] self with
        | (self', None) => (self', None)
        | (self', Some found_texts) =>
            match found_texts with
            | [] => (self', Some (false, None))
            | _ :: _ =>
                match _extract_product_details soup found_texts url with
                | Some product_info =>
                    (self', Some (true, Some product_info))
                | None => (self', None)
                end
            end
        end
  end.

(* ---- _check_single_url -------------------------------------------- *)

(** One submitted check: its url, what its fetch attempts meet and what
    the clock shows when it writes an entry. *)
Record Task := {
  task_url : string;
  task_outcomes : nat -> Attempt;
  task_now : string -> Z
}.

Definition _check_single_url (task : Task) (self : SiteMonitor)
    : SiteMonitor * option (list ProductInfo) :=
  let url := task_url task in
  let html_content := fetch_page (task_outcomes task) in
  if no_content html_content then (self, Some [])
  else
    match check_for_patterns (task_now task) html_content url None self with
    | (self', None) => (self', None)
    | (self', Some (found, product_info)) =>
        match found, product_info with
        | true, Some (i :: rest) => (self', Some (i :: rest))
        | _, _ => (self', Some [])
        end
    end.

(* ---- send_pushover_notification ----------------------------------- *)

Definition count_posts (events : list Event) : nat :=
  length (List.filter (fun e => match e with Posted _ _ _ => true
                                        | Committed _ _ _ => false end)
                      events).

(** True for status 200; any other status and any exception give False.
    [pushover k] is the answer to the post numbered [k] of the run. *)
Definition send_pushover_notification (pushover : nat -> PushResult)
    (message : Message) (title : string) (self : SiteMonitor)
    : SiteMonitor * bool :=
  let success :=
    match pushover (count_posts (journal self)) with
    | PushStatus code => (code =? 200)%Z
    | PushError => false
    end in
  (record_event (Posted title message success) self, success).

(* ---- run_check ---------------------------------------------------- *)

(** [self.notification_sent[found_at][search_term] = flag] *)
Definition set_sent (found_at search_term : string) (flag : bool)
    (self : SiteMonitor) : SiteMonitor * option unit :=
  match notification_sent self !! found_at with
  | None => (self, None)
  | Some row =>
      (set_notification_sent
         (<[found_at := <[search_term := flag]> row]> (notification_sent self))
         self,
       Some tt)
  end.

(** [self.notification_sent[found_at][search_term]] *)
Definition get_sent (found_at search_term : string) (self : SiteMonitor)
    : option bool :=
  match notification_sent self !! found_at with
  | None => None
  | Some row => row !! search_term
  end.

(** Lines 465-492, the body of [for info in product_info]. None is an
    exception, which ends the loop. *)
Definition notify_one (pushover : nat -> PushResult) (info : ProductInfo)
    (self : SiteMonitor) : SiteMonitor * option unit :=
  let search_term := info_search_term info in
  let found_at := info_found_at info in
  match get_sent found_at search_term self with
  | None => (self, None)
  | Some true => (self, Some tt)
  | Some false =>
      match set_sent found_at search_term true self with
      | (self1, None) => (self1, None)
      | (self1, Some _) =>
          let '(self2, success) :=
            send_pushover_notification pushover (MsgFound info)
              ("Found: " +:+ search_term) self1 in
          if negb success
          then set_sent found_at search_term false self2
          else (self2, Some tt)
      end
  end.

Fixpoint notify_all (pushover : nat -> PushResult)
    (product_info : list ProductInfo) (self : SiteMonitor)
    : SiteMonitor * option unit :=
  match product_info with
  | [] => (self, Some tt)
  | info :: rest =>
      match notify_one pushover info self with
      | (self', None) => (self', None)
      | (self', Some _) => notify_all pushover rest self'
      end
  end.

(** One completed future: the check of its url, then lines 457-495. An
    exception of either is caught and logged. The result is the new value
    of [any_new_found]. *)
Definition run_task (pushover : nat -> PushResult) (task : Task)
    (any_new_found : bool) (self : SiteMonitor) : SiteMonitor * bool :=
  match _check_single_url task self with
  | (self1, None) => (self1, any_new_found)
  | (self1, Some []) => (self1, any_new_found)
  | (self1, Some (i :: rest)) =>
      (fst (notify_all pushover (i :: rest) self1), true)
  end.

Fixpoint run_tasks (pushover : nat -> PushResult) (tasks : list Task)
    (any_new_found : bool) (self : SiteMonitor) : SiteMonitor * bool :=
  match tasks with
  | [] => (self, any_new_found)
  | task :: rest =>
      let '(self', any_new_found') :=
        run_task pushover task any_new_found self in
      run_tasks pushover rest any_new_found' self'
  end.

(** [tasks] are the checks submitted, one for each url of [self.urls], in
    the order in which they complete. A worker reads and writes only the
    row [found_items[url]] of its own url, and [notification_sent] is read
    and written by the collecting thread alone: with pairwise different
    urls every interleaving of the workers gives what this sequence gives.
    Nothing below depends on [tasks] being those of [self.urls]: a check of
    a url without a row ends in a KeyError that is caught. *)
Definition run_check (pushover : nat -> PushResult) (tasks : list Task)
    (self : SiteMonitor) : SiteMonitor * bool :=
  run_tasks pushover tasks false self.

(* ---- get_completion_status, all_items_found ----------------------- *)

(** The inner loop of lines 504-507 for one url. None is a KeyError. *)
Fixpoint count_found_terms (self : SiteMonitor) (url : string)
    (terms : list string) (found_count : nat) : option nat :=
  match terms with
  | [] => Some found_count
  | search_text :: rest =>
      match found_items self !! url with
      | None => None
      | Some row =>
          count_found_terms self url rest
            (if is_found row search_text then S found_count else found_count)
      end
  end.

Fixpoint count_found_urls (self : SiteMonitor) (us : list string)
    (found_count : nat) : option nat :=
  match us with
  | [] => Some found_count
  | url :: rest =>
      match count_found_terms self url (search_texts self) found_count with
      | None => None
      | Some found_count' => count_found_urls self rest found_count'
      end
  end.

Definition get_completion_status (self : SiteMonitor) : option (nat * nat) :=
  let total_expected := length (urls self) * length (search_texts self) in
  match count_found_urls self (urls self) 0 with
  | None => None
  | Some found_count => Some (found_count, total_expected)
  end.

Definition all_items_found (self : SiteMonitor) : option bool :=
  match get_completion_status self with
  | None => None
  | Some (found_count, total_expected) =>
      Some (Nat.eqb found_count total_expected)
  end.

(* ---- start_monitoring --------------------------------------------- *)

(** Lines 549-554: the lines of the final message for one url, a
    timestamp for [FOUND], None for [NOT FOUND]. It reads
    [self.found_items[url][search_text]], so a missing key is a KeyError. *)
Fixpoint summary_terms (self : SiteMonitor) (url : string)
    (terms : list string) : option (list (string * option Z)) :=
  match terms with
  | [] => Some []
  | search_text :: rest =>
      match found_items self !! url with
      | None => None
      | Some row =>
          match row !! search_text with
          | None => None
          | Some stamp =>
              match summary_terms self url rest with
              | None => None
              | Some lines => Some ((search_text, stamp) :: lines)
              end
          end
      end
  end.

Fixpoint summary_urls (self : SiteMonitor) (us : list string)
    : option (list (string * list (string * option Z))) :=
  match us with
  | [] => Some []
  | url :: rest =>
      match summary_terms self url (search_texts self) with
      | None => None
      | Some lines =>
          match summary_urls self rest with
          | None => None
          | Some sites => Some ((url, lines) :: sites)
          end
      end
  end.

(** How one turn of [while True] ends: [sys.exit(code)], or a sleep after
    which the loop goes on. *)
Inductive Outcome := Exited (code : Z) | Slept (seconds : Z).

(** Lines 533-578, one turn of the loop with the checks [tasks]. An
    exception in the [try] block is logged and followed by a sleep of 60
    seconds; [sys.exit] raises SystemExit, which [except Exception] lets
    through. *)
Definition monitor_turn (pushover : nat -> PushResult) (tasks : list Task)
    (self : SiteMonitor) : SiteMonitor * Outcome :=
  let '(self1, found) := run_check pushover tasks self in
  match get_completion_status self1 with
  | None => (self1, Slept 60)
  | Some (found_count, total_expected) =>
      match all_items_found self1 with
      | None => (self1, Slept 60)
      | Some all_found =>
          if (all_found && auto_stop_on_found self1)%bool
          then
            match summary_urls self1 (urls self1) with
            | None => (self1, Slept 60)
            | Some sites =>
                let '(self2, _) :=
                  send_pushover_notification pushover
                    (MsgMissionComplete total_expected sites)
                    "Mission Complete - All Items Found!" self1 in
                (self2, Exited 0)
            end
          else (self1, Slept (check_interval self1))
      end
  end.

(** The loop over the turns [cycles] offers; None when it is still
    running after the last of them. *)
Fixpoint monitor_loop (pushover : nat -> PushResult)
    (cycles : list (list Task)) (self : SiteMonitor)
    : SiteMonitor * option Z :=
  match cycles with
  | [] => (self, None)
  | tasks :: rest =>
      match monitor_turn pushover tasks self with
      | (self', Exited code) => (self', Some code)
      | (self', Slept _) => monitor_loop pushover rest self'
      end
  end.

Definition start_monitoring (pushover : nat -> PushResult)
    (cycles : list (list Task)) (self : SiteMonitor)
    : SiteMonitor * option Z :=
  let '(self0, _) :=
    send_pushover_notification pushover MsgStartup "Site Monitor Started"
                               self in
  monitor_loop pushover cycles self0.

(** The monitor after the check cycles [cycles], one [run_check] each. *)
Definition after_cycles (pushover : nat -> PushResult)
    (cycles : list (list Task)) (self : SiteMonitor) : SiteMonitor :=
  fold_left (fun s tasks => fst (run_check pushover tasks s)) cycles self.

(* ---- The ledger read per pair --------------------------------------- *)

(** [found_items[url][term]] when the entry is set. *)
Definition found_stamp (self : SiteMonitor) (url term : string) : option Z :=
  match found_items self !! url with
  | Some row =>
      match row !! term with
      | Some (Some stamp) => Some stamp
      | _ => None
      end
  | None => None
  end.

(** The state of a pair in the words of the specification: NotFound while
    no timestamp is set, Notified when the timestamp is set and the
    notification flag is up, Found in between. *)
Inductive Phase := NotFound | Found | Notified.

Definition phase (self : SiteMonitor) (url term : string) : Phase :=
  match found_stamp self url term with
  | None => NotFound
  | Some _ =>
      match get_sent url term self with
      | Some true => Notified
      | _ => Found
      end
  end.

Definition rank (p : Phase) : nat :=
  match p with NotFound => 0 | Found => 1 | Notified => 2 end.

(** The events of the journal that concern one pair. *)
Inductive PairEvent := PCommit | PDispatch (success : bool).

Definition pair_event (url term : string) (e : Event) : list PairEvent :=
  match e with
  | Committed u t _ =>
      if (String.eqb u url && String.eqb t term)%bool then [PCommit] else []
  | Posted _ (MsgFound info) success =>
      if (String.eqb (info_found_at info) url
          && String.eqb (info_search_term info) term)%bool
      then [PDispatch success] else []
  | Posted _ _ _ => []
  end.

Definition pair_trace (url term : string) (events : list Event)
    : list PairEvent :=
  concat (map (pair_event url term) events).

(** The state machine of section 4.5: a commit takes NotFound to Found, a
    dispatch that succeeds takes Found to Notified, one that fails leaves
    Found; nothing else may happen. *)
Definition protocol_step (p : Phase) (e : PairEvent) : option Phase :=
  match p, e with
  | NotFound, PCommit => Some Found
  | Found, PDispatch true => Some Notified
  | Found, PDispatch false => Some Found
  | _, _ => None
  end.

Fixpoint run_protocol (p : Phase) (trace : list PairEvent) : option Phase :=
  match trace with
  | [] => Some p
  | e :: rest =>
      match protocol_step p e with
      | Some p' => run_protocol p' rest
      | None => None
      end
  end.

(** The commits among the events of a pair, and the outcome a dispatch
    carries. *)
Definition is_commit (e : PairEvent) : bool :=
  match e with PCommit => true | PDispatch _ => false end.

Definition outcome_of (e : PairEvent) : list bool :=
  match e with PDispatch ok => [ok] | PCommit => [] end.

(** Number of commits of a pair, and the outcomes of its dispatches, oldest
    first. *)
Definition commits_of (url term : string) (events : list Event) : nat :=
  length (List.filter is_commit (pair_trace url term events)).

Definition dispatches_of (url term : string) (events : list Event)
    : list bool :=
  concat (map outcome_of (pair_trace url term events)).

(** The monitor as [start_monitoring] has it when it enters the loop. *)
Definition started (pushover : nat -> PushResult) (us ts : list string)
    (interval : Z) (auto_stop : bool) : SiteMonitor :=
  fst (send_pushover_notification pushover MsgStartup "Site Monitor Started"
         (__init__ us ts interval auto_stop)).

(* ---- Pages and runs used as examples --------------------------------- *)

(** A page that is one paragraph of text. *)
Definition text_page (html : string) : Soup :=
  {| soup_text := html; soup_title := None; soup_metas := [];
     soup_imgs := []; soup_anchors := []; soup_product_names := [];
     soup_data_titles := []; soup_inputs := []; soup_headings := [];
     soup_containers := [] |}.

(** A page that is one link to /p with the text as its label. *)
Definition link_page (html : string) : Soup :=
  {| soup_text := html; soup_title := None; soup_metas := [];
     soup_imgs := [];
     soup_anchors :=
       [ {| a_text := html; a_title := None; a_href := Some "/p" |} ];
     soup_product_names := []; soup_data_titles := []; soup_inputs := [];
     soup_headings := []; soup_containers := [] |}.

(** A page that is a link and a heading, both with the text. *)
Definition link_heading_page (html : string) : Soup :=
  {| soup_text := html; soup_title := None; soup_metas := [];
     soup_imgs := [];
     soup_anchors :=
       [ {| a_text := html; a_title := None; a_href := Some "/p" |} ];
     soup_product_names := []; soup_data_titles := []; soup_inputs := [];
     soup_headings := [ {| h_name := "h1"; h_text := html |} ];
     soup_containers := [] |}.

(** urljoin for a base without path and an absolute path; it raises for
    an href that opens a bracketed host, as in "//[". *)
Definition join_path (base href : string) : option string :=
  if Str.starts_with "//[" href then None else Some (base +:+ href).

(** A check of [url] whose first attempt is answered with [page]. *)
Definition task_of (url page : string) (stamp : Z) : Task :=
  {| task_url := url;
     task_outcomes := fun _ => Response (N.of_nat (String.length page)) page;
     task_now := fun _ => stamp |}.

(** A check of [url] whose attempts all time out. *)
Definition timed_out_task (url : string) : Task :=
  {| task_url := url; task_outcomes := fun _ => Timeout;
     task_now := fun _ => 0%Z |}.

(* ---- Notions the statements and proofs use ---------------------------- *)

(** The three ways [commit_found] ends. *)
Inductive commit_found_spec (now : Z) (url t : string) (self : SiteMonitor)
    : SiteMonitor * option bool -> Prop :=
| commit_key_error :
    found_items self !! url = None ->
    commit_found_spec now url t self (self, None)
| commit_already row :
    found_items self !! url = Some row ->
    is_found row t = true ->
    commit_found_spec now url t self (self, Some false)
| commit_written row :
    found_items self !! url = Some row ->
    is_found row t = false ->
    commit_found_spec now url t self
      (record_event (Committed url t now)
         (set_found_items
            (<[url := <[t := Some now]> row]> (found_items self)) self),
       Some true).

(** What [commit_found] leaves alone. *)
Definition same_config (s s' : SiteMonitor) : Prop :=
  urls s' = urls s /\ search_texts s' = search_texts s
  /\ check_interval s' = check_interval s
  /\ auto_stop_on_found s' = auto_stop_on_found s.

(** How the answer of Pushover to the next post reads. *)
Definition next_post_succeeds (pushover : nat -> PushResult)
    (s : SiteMonitor) : bool :=
  match pushover (count_posts (journal s)) with
  | PushStatus code => (code =? 200)%Z
  | PushError => false
  end.

(** A flag that is up belongs to an entry that is set. *)
Definition sent_implies_found (s : SiteMonitor) : Prop :=
  forall u t, get_sent u t s = Some true -> is_Some (found_stamp s u t).

(** The events of every pair, replayed from NotFound, are accepted by the
    state machine and end in the state the tables show. *)
Definition follows_protocol (s : SiteMonitor) : Prop :=
  forall u t,
    run_protocol NotFound (pair_trace u t (journal s)) = Some (phase s u t).

Definition ledger_inv (s : SiteMonitor) : Prop :=
  sent_implies_found s /\ follows_protocol s.

(** [s'] comes after [s]: same configuration, same rows, and what was set
    or up in [s] is so in [s']. *)
Definition extends (s s' : SiteMonitor) : Prop :=
  same_config s s'
  /\ (forall u, is_Some (found_items s' !! u) <-> is_Some (found_items s !! u))
  /\ (forall u t stamp,
        found_stamp s u t = Some stamp -> found_stamp s' u t = Some stamp)
  /\ (forall u t, get_sent u t s = Some true -> get_sent u t s' = Some true).

(** Every monitored url has its row. *)
Definition rows_present (s : SiteMonitor) : Prop :=
  forall u, u ∈ urls s -> is_Some (found_items s !! u).

Definition is_set (s : SiteMonitor) (u t : string) : bool :=
  match found_stamp s u t with Some _ => true | None => false end.

(** The number of pairs of [us] x [ts] whose entry is set. *)
Definition count_set (s : SiteMonitor) (us ts : list string) : nat :=
  list_sum (map (fun u => length (List.filter (is_set s u) ts)) us).

(** The lines of the final message, when every entry asked for is set. *)
Definition summary_of (s : SiteMonitor) (us ts : list string)
    : list (string * list (string * option Z)) :=
  map (fun u => (u, map (fun t => (t, found_stamp s u t)) ts)) us.

(** Neither the dispatches nor the flag of the pair have changed. *)
Definition left_alone (u t : string) (s s' : SiteMonitor) : Prop :=
  dispatches_of u t (journal s') = dispatches_of u t (journal s)
  /\ get_sent u t s' = get_sent u t s.

(** Pushover refuses the second post of the run (the first dispatch of a
    discovery, the post before it being the start message) with status 500
    and accepts every other post. *)
Definition flaky_pushover (k : nat) : PushResult :=
  if Nat.eqb k 1 then PushStatus 500 else PushStatus 200.

(* ---- Notions for the further properties --------------------------------- *)

(** Every character of [s] passes [p]. *)
Fixpoint all_chars (p : ascii -> bool) (s : string) : bool :=
  match s with
  | EmptyString => true
  | String c r => (p c && all_chars p r)%bool
  end.

(** Whether a white-space run is open after reading [s], when [in_run] told
    it before [s]. *)
Fixpoint run_after (in_run : bool) (s : string) : bool :=
  match s with
  | EmptyString => in_run
  | String c r => run_after (Str.is_space c) r
  end.

(** The normaliser after the guard and the slice. *)
Definition normalize_sliced (text : string) : string :=
  Str.strip (Str.sub_space_runs (Str.sub_delimiters (Str.lower text))).

(** The outcomes after which [fetch_page] tries again: a timeout, a
    connection error, a status of 500 and above. *)
Definition retried (a : Attempt) : bool :=
  match a with
  | Timeout | ConnectionError => true
  | HTTPError status_code => (500 <=? status_code)%Z
  | Response _ _ | OtherError => false
  end.

(** What [fetch_page] returns for a reply that passed [raise_for_status]. *)
Definition delivered (a : Attempt) : option string :=
  match a with
  | Response content_length text =>
      Some (if (MAX_CONTENT_SIZE <? content_length)%N
            then Str.slice_to (MAX_CONTENT_SIZE / 2) text else text)
  | _ => None
  end.

(** [found_items[url]] read at [term]: None when a key is missing, Some of
    the entry (a timestamp or None) otherwise. *)
Definition found_entry (self : SiteMonitor) (url term : string)
    : option (option Z) :=
  match found_items self !! url with
  | Some row => row !! term
  | None => None
  end.

(** The tables have the rows of [us], and in each row the keys [ts]. *)
Definition keys_are (us ts : list string) (s : SiteMonitor) : Prop :=
  search_texts s = ts
  /\ (forall u, is_Some (found_items s !! u) <-> In u us)
  /\ (forall u t, is_Some (found_entry s u t) <-> In u us /\ In t ts)
  /\ (forall u t, is_Some (get_sent u t s) <-> In u us /\ In t ts).

(* =================================================================== *)
(* Properties                                                          *)
(* =================================================================== *)

(* ---- The normaliser ----------------------------------------------- *)

Lemma sub_space_runs_delimiters (in_run : bool) (s : string) :
  Str.sub_space_runs_from in_run (Str.sub_delimiters s)
  = Str.sub_space_runs_from in_run (NormalizeSpec.replace_outside_alnum s).
Proof.
  revert in_run. induction s as [|c r IH]; intros in_run; [reflexivity|].
  simpl. destruct (Str.is_lower_alnum c) eqn:Ha; simpl.
  - destruct (Str.is_space c); [destruct in_run|]; simpl; now rewrite IH.
  - destruct (Str.is_space c) eqn:Hs; simpl.
    + rewrite Hs. change (Str.is_space " "%char) with true. cbv iota.
      destruct in_run; now rewrite IH.
    + change (Str.is_space " "%char) with true. cbv iota.
      destruct in_run; now rewrite IH.
Qed.

Lemma normalize_text_refines (s : string) :
  _normalize_text s = NormalizeSpec.normalize s.
Proof.
  unfold _normalize_text, NormalizeSpec.normalize.
  destruct s as [|c r]; [reflexivity|].
  cbn [Str.truthy negb]. unfold Str.sub_space_runs.
  change TEXT_LIMIT with 100000%N.
  now rewrite sub_space_runs_delimiters.
Qed.

(** C9. For every string, [_normalize_text] computes what the reference
    definition computes (truncate to 100000 characters, lowercase, replace
    every character outside a-z0-9 with a space, collapse white space,
    trim), and the two spellings of the example normalise to the same
    string. As a Rocq function it is deterministic and has no effect. *)
Theorem normalize_text_reference :
  (forall s : string, _normalize_text s = NormalizeSpec.normalize s)
  /\ _normalize_text "DJI Mini-5 Pro!" = _normalize_text "dji mini 5 pro".
Proof.
  split; [exact normalize_text_refines|].
  vm_compute. reflexivity.
Qed.

(* ---- The guarded write --------------------------------------------- *)

Lemma found_stamp_row (self : SiteMonitor) (url t : string)
    (row : gmap string (option Z)) :
  found_items self !! url = Some row ->
  (is_found row t = true <-> is_Some (found_stamp self url t)).
Proof.
  intros Hrow. unfold found_stamp, is_found. rewrite Hrow.
  destruct (row !! t) as [[z|]|]; split; try discriminate; eauto;
    intros [z Hz]; discriminate.
Qed.

Lemma commit_found_cases (now : Z) (url t : string) (self : SiteMonitor) :
  commit_found_spec now url t self (commit_found now url t self).
Proof.
  unfold commit_found.
  destruct (found_items self !! url) as [row|] eqn:Hrow.
  - destruct (is_found row t) eqn:Hf.
    + eapply commit_already; eauto.
    + eapply commit_written; eauto.
  - now apply commit_key_error.
Qed.

Lemma found_stamp_written (self : SiteMonitor) (url t u' t' : string)
    (row : gmap string (option Z)) (now : Z) (e : Event) :
  found_items self !! url = Some row ->
  found_stamp
    (record_event e
       (set_found_items (<[url := <[t := Some now]> row]> (found_items self))
                        self)) u' t'
  = if decide (u' = url /\ t' = t) then Some now else found_stamp self u' t'.
Proof.
  intros Hrow. unfold found_stamp. cbn.
  destruct (decide (u' = url)) as [->|Hu].
  - rewrite lookup_insert_eq, Hrow.
    destruct (decide (t' = t)) as [->|Ht].
    + rewrite lookup_insert_eq. rewrite decide_True; [reflexivity|auto].
    + rewrite lookup_insert_ne by congruence.
      rewrite decide_False; [reflexivity|]. intros [_ ?]; congruence.
  - rewrite lookup_insert_ne by congruence.
    rewrite decide_False; [reflexivity|]. intros [? _]; congruence.
Qed.

Lemma commit_found_keeps_stamp (now : Z) (url t u' t' : string)
    (self : SiteMonitor) (stamp : Z) :
  found_stamp self u' t' = Some stamp ->
  found_stamp (fst (commit_found now url t self)) u' t' = Some stamp.
Proof.
  intros Hs. destruct (commit_found_cases now url t self) as [| |row Hrow Hf];
    cbn [fst]; try assumption.
  rewrite (found_stamp_written _ _ _ _ _ row) by assumption.
  case_decide as Hd; [|assumption]. destruct Hd as [-> ->].
  assert (is_Some (found_stamp self url t)) as Hsome by eauto.
  apply (found_stamp_row _ _ _ _ Hrow) in Hsome. congruence.
Qed.

Lemma commit_found_row (now : Z) (url t u' : string) (self : SiteMonitor) :
  is_Some (found_items (fst (commit_found now url t self)) !! u')
  <-> is_Some (found_items self !! u').
Proof.
  destruct (commit_found_cases now url t self) as [| |row Hrow Hf];
    cbn [fst]; try reflexivity.
  cbn. destruct (decide (u' = url)) as [->|Hu].
  - rewrite lookup_insert_eq, Hrow. split; eauto.
  - now rewrite lookup_insert_ne by congruence.
Qed.

Lemma same_config_refl (s : SiteMonitor) : same_config s s.
Proof. now repeat split. Qed.

Lemma same_config_trans (s1 s2 s3 : SiteMonitor) :
  same_config s1 s2 -> same_config s2 s3 -> same_config s1 s3.
Proof.
  unfold same_config. intros (?&?&?&?) (?&?&?&?).
  repeat split; congruence.
Qed.

Lemma commit_found_frame (now : Z) (url t : string) (self : SiteMonitor) :
  same_config self (fst (commit_found now url t self))
  /\ notification_sent (fst (commit_found now url t self))
     = notification_sent self.
Proof.
  destruct (commit_found_cases now url t self); cbn [fst];
    split; try apply same_config_refl; try reflexivity.
  now repeat split.
Qed.

(* ---- The loop over the search texts ---------------------------------- *)

(** Whatever every guarded write preserves, the loop preserves. *)
Lemma match_terms_preserves (P : SiteMonitor -> Prop) (now : string -> Z)
    (nc url : string) :
  (forall t s, P s -> P (fst (commit_found (now t) url t s))) ->
  forall terms acc s, P s -> P (fst (match_terms now nc url terms acc s)).
Proof.
  intros Hstep. induction terms as [|t rest IH]; intros acc s Hs;
    [exact Hs|].
  cbn [match_terms]. destruct (found_items s !! url) as [row|]; [|exact Hs].
  destruct (is_found row t); [now apply IH|].
  destruct (Str.contains (_normalize_text t) nc); [|now apply IH].
  specialize (Hstep t s Hs).
  destruct (commit_found (now t) url t s) as [s' [[|]|]];
    cbn [fst] in Hstep; [now apply IH|now apply IH|exact Hstep].
Qed.

Lemma is_found_insert (row : gmap string (option Z)) (t t' : string)
    (stamp : Z) :
  is_found (<[t := Some stamp]> row) t'
  = (is_found row t' || bool_decide (t' = t))%bool.
Proof.
  unfold is_found. destruct (decide (t' = t)) as [->|Hne].
  - rewrite lookup_insert_eq, bool_decide_eq_true_2 by reflexivity.
    now rewrite orb_true_r.
  - rewrite lookup_insert_ne by congruence.
    rewrite bool_decide_eq_false_2 by assumption.
    now rewrite orb_false_r.
Qed.

(** With the row of [url] in place the loop ends without exception, and
    the texts it appends to [found_texts] are those of [terms] whose
    normal form is in the content and whose entry was not set. *)
Lemma match_terms_found_texts (now : string -> Z) (nc url : string)
    (terms : list string) :
  forall (acc : list string) (self : SiteMonitor)
         (row : gmap string (option Z)),
    found_items self !! url = Some row ->
    exists self' extra row',
      match_terms now nc url terms acc self = (self', Some (acc ++ extra))
      /\ found_items self' !! url = Some row'
      /\ (forall t, is_found row' t
                    = (is_found row t || bool_decide (t ∈ extra))%bool)
      /\ (forall t, t ∈ extra <->
                    t ∈ terms
                    /\ Str.contains (_normalize_text t) nc = true
                    /\ is_found row t = false).
Proof.
  induction terms as [|st rest IH]; intros acc self row Hrow.
  - exists self, [], row. cbn [match_terms]. rewrite app_nil_r.
    split; [reflexivity|]. split; [assumption|]. split.
    + intros t. rewrite bool_decide_eq_false_2 by apply not_elem_of_nil.
      now rewrite orb_false_r.
    + intros t. split.
      * intros H. now apply not_elem_of_nil in H.
      * intros (H & _). now apply not_elem_of_nil in H.
  - cbn [match_terms]. rewrite Hrow.
    assert (forall self' extra row',
               is_found row st = true
               \/ Str.contains (_normalize_text st) nc = false ->
               match_terms now nc url rest acc self
               = (self', Some (acc ++ extra)) ->
               found_items self' !! url = Some row' ->
               (forall t, is_found row' t
                          = (is_found row t || bool_decide (t ∈ extra))%bool) ->
               (forall t, t ∈ extra <->
                          t ∈ rest
                          /\ Str.contains (_normalize_text t) nc = true
                          /\ is_found row t = false) ->
               forall t, t ∈ extra <->
                         t ∈ st :: rest
                         /\ Str.contains (_normalize_text t) nc = true
                         /\ is_found row t = false) as Hskip.
    { intros self' extra row' Hwhy E R F M t. rewrite M, elem_of_cons.
      split; [tauto|]. intros ([->|Hin] & Hc' & Hn); [|tauto].
      destruct Hwhy; congruence. }
    destruct (is_found row st) eqn:Hf.
    { destruct (IH acc self row Hrow) as (self' & extra & row' & E & R & F & M).
      exists self', extra, row'.
      split; [assumption|]. split; [assumption|]. split; [assumption|].
      eapply Hskip; eauto. }
    destruct (Str.contains (_normalize_text st) nc) eqn:Hc.
    2:{ destruct (IH acc self row Hrow) as (self' & extra & row' & E & R & F & M).
        exists self', extra, row'.
        split; [assumption|]. split; [assumption|]. split; [assumption|].
        eapply Hskip; eauto. }
    clear Hskip. unfold commit_found. rewrite Hrow, Hf.
    set (self1 := record_event _ _).
    assert (found_items self1 !! url = Some (<[st := Some (now st)]> row))
      as Hrow1 by (subst self1; cbn; apply lookup_insert_eq).
    destruct (IH (acc ++ [st]) self1 _ Hrow1)
      as (self' & extra & row' & E & R & F & M).
    exists self', (st :: extra), row'.
    rewrite E, <- app_assoc. cbn [app].
    split; [reflexivity|]. split; [assumption|]. split.
    + intros t. rewrite F, is_found_insert, <- orb_assoc. f_equal.
      destruct (decide (t = st)) as [->|Hne].
      * rewrite (bool_decide_eq_true_2 (st ∈ st :: extra))
          by (apply elem_of_cons; now left).
        rewrite bool_decide_eq_true_2 by reflexivity. reflexivity.
      * rewrite (bool_decide_eq_false_2 (t = st)) by assumption.
        cbn [orb]. apply bool_decide_ext. rewrite elem_of_cons. tauto.
    + intros t. rewrite !elem_of_cons, M, is_found_insert, orb_false_iff.
      rewrite bool_decide_eq_false. split.
      * intros [->|(Hin & Hc' & Hn & _)]; tauto.
      * intros ([->|Hin] & Hc' & Hn); [now left|].
        destruct (decide (t = st)); [now left|right; tauto].
Qed.


(** The timestamps the loop writes are those the clock shows. *)
Lemma match_terms_stamps (now : string -> Z) (nc url : string)
    (terms acc : list string) (self : SiteMonitor) (t : string) :
  let self' := fst (match_terms now nc url terms acc self) in
  found_stamp self' url t = found_stamp self url t
  \/ found_stamp self' url t = Some (now t).
Proof.
  cbv zeta.
  apply (match_terms_preserves
           (fun s => found_stamp s url t = found_stamp self url t
                     \/ found_stamp s url t = Some (now t))); [|now left].
  intros t' s H.
  destruct (commit_found_cases (now t') url t' s) as [| |row Hrow Hf];
    cbn [fst]; try exact H.
  rewrite (found_stamp_written _ _ _ _ _ row) by assumption.
  case_decide as Hd; [|exact H]. destruct Hd as [_ ->]. now right.
Qed.


(* ---- C10 ------------------------------------------------------------ *)

(** C10. Called with no content, None or the empty string,
    [check_for_patterns] returns (False, None) and the monitor it leaves is
    the monitor it was given: no entry of found_items or notification_sent
    has changed. *)
Theorem check_for_patterns_without_content (now : string -> Z)
    (url : string) (specific : option (list string)) (self : SiteMonitor) :
  check_for_patterns now None url specific self = (self, Some (false, None))
  /\ check_for_patterns now (Some "") url specific self
     = (self, Some (false, None)).
Proof. split; reflexivity. Qed.

(* ---- C2 ------------------------------------------------------------- *)

(** C2. The guarded write made twice, at times [now1] and [now2], leaves
    the monitor the first write left: the second write reports no
    transition, the timestamp is the one the pair had after the first,
    which is [now1] when the first write was the one that set it. *)
Theorem commit_found_idempotent (now1 now2 : Z) (url t : string)
    (self : SiteMonitor) :
  let once := commit_found now1 url t self in
  let twice := commit_found now2 url t (fst once) in
  fst twice = fst once
  /\ snd twice <> Some true
  /\ found_stamp (fst twice) url t = found_stamp (fst once) url t
  /\ (snd once = Some true -> found_stamp (fst twice) url t = Some now1)
  /\ (snd once <> None -> snd twice = Some false).
Proof.
  cbv zeta.
  assert (fst (commit_found now2 url t (fst (commit_found now1 url t self)))
          = fst (commit_found now1 url t self)
          /\ (snd (commit_found now1 url t self) = Some true ->
              found_stamp (fst (commit_found now1 url t self)) url t
              = Some now1)
          /\ snd (commit_found now2 url t
                    (fst (commit_found now1 url t self))) <> Some true
          /\ (snd (commit_found now1 url t self) <> None ->
              snd (commit_found now2 url t
                     (fst (commit_found now1 url t self))) = Some false))
    as (H1 & H2 & H3 & H4).
  { destruct (commit_found_cases now1 url t self) as [Hnone|row Hrow Hf|row Hrow Hf];
      cbn [fst snd].
    - unfold commit_found. rewrite Hnone. cbn.
      repeat split; congruence.
    - unfold commit_found. rewrite Hrow, Hf. cbn.
      repeat split; congruence.
    - rewrite (found_stamp_written _ _ _ _ _ row) by assumption.
      rewrite decide_True by auto.
      unfold commit_found at 1 2 3. cbn [found_items record_event set_found_items].
      rewrite lookup_insert_eq, is_found_insert.
      rewrite bool_decide_eq_true_2 by reflexivity. rewrite orb_true_r.
      cbn. repeat split; congruence. }
  rewrite H1. repeat split; auto.
Qed.

(* ---- C4 ------------------------------------------------------------- *)


(* ---- What a check returns ---------------------------------------------- *)

Lemma first_hit_in {A} (test : A -> bool) (mk : A -> ProductInfo)
    (l : list A) (info : ProductInfo) :
  In info (first_hit test mk l) -> exists x, info = mk x.
Proof.
  unfold first_hit. destruct (List.find test l) as [x|]; cbn; [|tauto].
  intros [<-|[]]. now exists x.
Qed.

(** The records of one text name that text and the url of the page. *)
Lemma details_of_names (soup : Soup) (url t : string)
    (details : list ProductInfo) (info : ProductInfo) :
  details_of soup url t = Some details ->
  In info details ->
  info_found_at info = url /\ info_search_term info = t.
Proof.
  unfold details_of, first_link.
  destruct (List.find _ (soup_anchors soup)) as [link|].
  - unfold link_info. destruct (full_url_of url (a_href link)) as [full|];
      [|discriminate].
    intros [= <-]. cbn [app In]. rewrite in_app_iff.
    intros [<-|[H|H]]; [now cbn|..];
      apply first_hit_in in H as [x ->]; now cbn.
  - intros [= <-]. cbn [app]. rewrite in_app_iff.
    intros [H|H]; apply first_hit_in in H as [x ->]; now cbn.
Qed.

(** Every record of the details names the url of the page and one of the
    texts it was asked about. *)
Lemma extract_product_details_in (soup : Soup) (url : string)
    (info : ProductInfo) (found_texts : list string) :
  forall infos,
    _extract_product_details soup found_texts url = Some infos ->
    In info infos ->
    info_found_at info = url /\ In (info_search_term info) found_texts.
Proof.
  induction found_texts as [|t rest IH]; intros infos;
    cbn [_extract_product_details].
  - intros [= <-] [].
  - destruct (details_of soup url t) as [details|] eqn:Hd; [|discriminate].
    destruct (_extract_product_details soup rest url) as [more|];
      [|discriminate].
    intros [= <-]. rewrite in_app_iff. intros [H|H].
    + destruct (details_of_names soup url t details info Hd H) as [-> ->].
      split; [reflexivity|now left].
    + destruct (IH more eq_refl H) as [-> Hin]. split; [reflexivity|now right].
Qed.

Lemma match_terms_no_row (now : string -> Z) (nc url : string)
    (terms acc : list string) (self : SiteMonitor) :
  found_items self !! url = None ->
  match_terms now nc url terms acc self
  = (self, match terms with [] => Some acc | _ :: _ => None end).
Proof. intros H. destruct terms; cbn [match_terms]; now rewrite ?H. Qed.

(** The state [_check_single_url] leaves is one the loop over the search
    texts left, or the state it was given. *)
Lemma check_single_url_state (task : Task) (self : SiteMonitor) :
  fst (_check_single_url task self) = self
  \/ exists html,
       fst (_check_single_url task self)
       = fst (match_terms (task_now task) (normalized_content_of (parse html))
                          (task_url task) (search_texts self) [] self).
Proof.
  unfold _check_single_url.
  destruct (no_content (fetch_page (task_outcomes task))); [now left|].
  unfold check_for_patterns.
  destruct (fetch_page (task_outcomes task)) as [html|]; [|now left].
  destruct (negb (Str.truthy html)); [now left|].
  right. exists html. cbn [texts_to_check].
  destruct (match_terms _ _ _ _ _ _) as [s' [[|t l]|]]; try reflexivity.
  now destruct (_extract_product_details _ _ _) as [[|i l']|].
Qed.

Lemma check_single_url_preserves (P : SiteMonitor -> Prop) (task : Task)
    (self : SiteMonitor) :
  (forall now t s, P s -> P (fst (commit_found now (task_url task) t s))) ->
  P self -> P (fst (_check_single_url task self)).
Proof.
  intros Hstep Hs.
  destruct (check_single_url_state task self) as [->|[html ->]];
    [assumption|].
  apply match_terms_preserves; [|assumption].
  intros t s. apply Hstep.
Qed.

(** The records a check returns are about its own url and about texts
    whose entry it has just set. *)
Lemma check_single_url_infos (task : Task) (self self1 : SiteMonitor)
    (infos : list ProductInfo) (info : ProductInfo) :
  _check_single_url task self = (self1, Some infos) ->
  In info infos ->
  info_found_at info = task_url task
  /\ found_stamp self (task_url task) (info_search_term info) = None
  /\ is_Some (found_stamp self1 (task_url task) (info_search_term info)).
Proof.
  unfold _check_single_url.
  destruct (no_content (fetch_page (task_outcomes task)));
    [intros [= <- <-] []|].
  unfold check_for_patterns.
  destruct (fetch_page (task_outcomes task)) as [html|];
    [|intros [= <- <-] []].
  destruct (negb (Str.truthy html)); [intros [= <- <-] []|].
  cbn [texts_to_check].
  destruct (found_items self !! task_url task) as [row|] eqn:Hrow.
  - destruct (match_terms_found_texts (task_now task)
                (normalized_content_of (parse html)) (task_url task)
                (search_texts self) [] self row Hrow)
      as (self' & extra & row' & E & R & F & M).
    cbn [app] in E. rewrite E.
    destruct extra as [|t0 extra]; [intros [= <- <-] []|].
    destruct (_extract_product_details (parse html) (t0 :: extra)
                (task_url task)) as [[|i0 l]|] eqn:Hd;
      [intros [= <- <-] []| |discriminate].
    intros [= <- <-] Hin.
    apply (extract_product_details_in _ _ _ _ _ Hd) in Hin as [Hat Hterm].
    split; [assumption|].
    apply list_elem_of_In in Hterm. pose proof Hterm as Hnew.
    apply M in Hnew as (_ & _ & Hnew). split.
    + pose proof (found_stamp_row self _ (info_search_term info) row Hrow)
        as [_ K].
      destruct (found_stamp self (task_url task) (info_search_term info));
        [|reflexivity].
      rewrite K in Hnew by eauto. discriminate.
    + apply (found_stamp_row self' _ _ row' R). rewrite F.
      rewrite (bool_decide_eq_true_2 _ Hterm). apply orb_true_r.
  - rewrite match_terms_no_row by assumption.
    destruct (search_texts self); [intros [= <- <-] []|discriminate].
Qed.

(* ---- The notification flag ---------------------------------------------- *)

Lemma get_sent_written (s : SiteMonitor) (fa term u' t' : string)
    (flag : bool) (row : gmap string bool) :
  notification_sent s !! fa = Some row ->
  get_sent u' t'
    (set_notification_sent
       (<[fa := <[term := flag]> row]> (notification_sent s)) s)
  = if decide (u' = fa /\ t' = term) then Some flag else get_sent u' t' s.
Proof.
  intros Hrow. unfold get_sent. cbn.
  destruct (decide (u' = fa)) as [->|Hu].
  - rewrite lookup_insert_eq, Hrow.
    destruct (decide (t' = term)) as [->|Ht].
    + rewrite lookup_insert_eq. now rewrite decide_True by auto.
    + rewrite lookup_insert_ne by congruence.
      rewrite decide_False; [reflexivity|]. intros [_ ?]; congruence.
  - rewrite lookup_insert_ne by congruence.
    rewrite decide_False; [reflexivity|]. intros [? _]; congruence.
Qed.

(** The three ways the body of the notification loop ends: a KeyError, a
    pair whose flag is up and is skipped, a post. After a post the flag of
    the pair tells whether the post succeeded, and nothing else of the
    tables has changed. *)
Lemma notify_one_cases (pushover : nat -> PushResult) (info : ProductInfo)
    (self : SiteMonitor) :
  let fa := info_found_at info in
  let term := info_search_term info in
  (get_sent fa term self = None
   /\ notify_one pushover info self = (self, None))
  \/ (get_sent fa term self = Some true
      /\ notify_one pushover info self = (self, Some tt))
  \/ (get_sent fa term self = Some false
      /\ exists s',
          notify_one pushover info self = (s', Some tt)
          /\ found_items s' = found_items self
          /\ same_config self s'
          /\ journal s'
             = journal self
               ++ [Posted ("Found: " +:+ term) (MsgFound info)
                          (next_post_succeeds pushover self)]
          /\ forall u' t',
              get_sent u' t' s'
              = if decide (u' = fa /\ t' = term)
                then Some (next_post_succeeds pushover self)
                else get_sent u' t' self).
Proof.
  cbv zeta. unfold notify_one.
  destruct (get_sent (info_found_at info) (info_search_term info) self)
    as [[|]|] eqn:Hget; [right; left; now split| |left; now split].
  right; right. split; [reflexivity|].
  unfold get_sent in Hget.
  destruct (notification_sent self !! info_found_at info) as [row|] eqn:Hrow;
    [|discriminate].
  unfold set_sent at 1. rewrite Hrow.
  unfold send_pushover_notification.
  cbn [journal set_notification_sent].
  fold (next_post_succeeds pushover self).
  destruct (next_post_succeeds pushover self) eqn:Hok; cbn [negb].
  - eexists. split; [reflexivity|]. split; [reflexivity|].
    split; [now repeat split|]. split; [reflexivity|].
    intros u' t'.
    change (get_sent u' t' (record_event ?e ?s)) with (get_sent u' t' s).
    now apply get_sent_written.
  - unfold set_sent.
    cbn [notification_sent record_event set_notification_sent].
    rewrite lookup_insert_eq.
    eexists. split; [reflexivity|]. split; [reflexivity|].
    split; [now repeat split|]. split; [reflexivity|].
    intros u' t'.
    match goal with
    | |- get_sent u' t' (set_notification_sent ?m ?s) = _ =>
        pose proof (get_sent_written s (info_found_at info)
                      (info_search_term info) u' t' false
                      (<[info_search_term info := true]> row)) as K
    end.
    cbn [notification_sent record_event set_notification_sent] in K.
    rewrite lookup_insert_eq in K. specialize (K eq_refl).
    unfold get_sent in K |- *.
    cbn [notification_sent record_event set_notification_sent] in K |- *.
    rewrite K. clear K.
    case_decide as Hd; [reflexivity|].
    destruct (decide (u' = info_found_at info)) as [->|Hu].
    + rewrite lookup_insert_eq, Hrow. rewrite lookup_insert_ne; [reflexivity|].
      intros Heq. apply Hd. now split.
    + now rewrite lookup_insert_ne by congruence.
Qed.

(* ---- The journal of a pair follows the state machine ------------------- *)

(** Case analysis on how the notification of one record ends; in the case
    of a post, [s'] is the monitor after it, [Hfi], [Hcfg], [Hj] and [Hsent]
    say what it shares with [s] and what the post changed. *)
Ltac notify_one_ends pushover info s Hget s' Hfi Hcfg Hj Hsent :=
  destruct (notify_one_cases pushover info s)
    as [[_ ->]|[[_ ->]|[Hget (s' & -> & Hfi & Hcfg & Hj & Hsent)]]];
  cbn [fst].

Lemma pair_trace_app (u t : string) (a b : list Event) :
  pair_trace u t (a ++ b) = pair_trace u t a ++ pair_trace u t b.
Proof. unfold pair_trace. now rewrite map_app, concat_app. Qed.

Lemma pair_trace_snoc (u t : string) (a : list Event) (e : Event) :
  pair_trace u t (a ++ [e]) = pair_trace u t a ++ pair_event u t e.
Proof.
  rewrite pair_trace_app. unfold pair_trace at 2. cbn.
  now rewrite app_nil_r.
Qed.

Lemma run_protocol_app (p : Phase) (a b : list PairEvent) :
  run_protocol p (a ++ b)
  = match run_protocol p a with
    | Some q => run_protocol q b
    | None => None
    end.
Proof.
  revert p. induction a as [|e a IH]; intros p; [reflexivity|].
  cbn. destruct (protocol_step p e); [apply IH|reflexivity].
Qed.

Lemma eqb_pair (u url t term : string) :
  (String.eqb u url && String.eqb t term)%bool
  = bool_decide (u = url /\ t = term).
Proof.
  destruct (String.eqb_spec u url) as [->|Hu],
           (String.eqb_spec t term) as [->|Ht]; cbn.
  - now rewrite bool_decide_eq_true_2.
  - rewrite bool_decide_eq_false_2; [reflexivity|]. intros [_ ?]; congruence.
  - rewrite bool_decide_eq_false_2; [reflexivity|]. intros [? _]; congruence.
  - rewrite bool_decide_eq_false_2; [reflexivity|]. intros [? _]; congruence.
Qed.

Lemma phase_ext (s s' : SiteMonitor) (u t : string) :
  found_stamp s' u t = found_stamp s u t ->
  get_sent u t s' = get_sent u t s ->
  phase s' u t = phase s u t.
Proof. unfold phase. now intros -> ->. Qed.

Lemma commit_found_inv (now : Z) (url t : string) (s : SiteMonitor) :
  ledger_inv s -> ledger_inv (fst (commit_found now url t s)).
Proof.
  intros [Hsf Hp].
  destruct (commit_found_cases now url t s) as [| |row Hrow Hf];
    cbn [fst]; try (split; assumption).
  set (s' := record_event _ _).
  assert (forall u' t', get_sent u' t' s' = get_sent u' t' s) as Hsent
    by reflexivity.
  assert (forall u' t',
             found_stamp s' u' t'
             = if decide (u' = url /\ t' = t) then Some now
               else found_stamp s u' t') as Hstamp
    by (intros; now apply found_stamp_written).
  assert (found_stamp s url t = None) as Hnone.
  { pose proof (found_stamp_row s url t row Hrow) as [_ K].
    destruct (found_stamp s url t); [|reflexivity].
    rewrite K in Hf by eauto. discriminate. }
  split.
  - intros u' t' Hup. rewrite Hstamp. case_decide; [eauto|].
    apply Hsf. now rewrite <- Hsent.
  - intros u' t'. subst s'. cbn [journal record_event].
    rewrite pair_trace_snoc, run_protocol_app, Hp.
    cbn [pair_event]. rewrite eqb_pair.
    fold (record_event (Committed url t now)
            (set_found_items
               (<[url := <[t := Some now]> row]> (found_items s)) s)).
    destruct (decide (url = u' /\ t = t')) as [[<- <-]|Hne].
    + rewrite bool_decide_eq_true_2 by auto.
      unfold phase at 1. rewrite Hnone. cbn.
      unfold phase. rewrite Hstamp, decide_True by auto.
      rewrite Hsent. destruct (get_sent url t s) as [[|]|] eqn:Hg;
        try reflexivity.
      apply Hsf in Hg as [z Hz]. congruence.
    + rewrite bool_decide_eq_false_2 by assumption. cbn. f_equal.
      symmetry. apply phase_ext; [|apply Hsent].
      rewrite Hstamp, decide_False; [reflexivity|].
      intros [-> ->]. now apply Hne.
Qed.

Lemma notify_one_inv (pushover : nat -> PushResult) (info : ProductInfo)
    (s : SiteMonitor) :
  is_Some (found_stamp s (info_found_at info) (info_search_term info)) ->
  ledger_inv s -> ledger_inv (fst (notify_one pushover info s)).
Proof.
  intros Hfound [Hsf Hp].
  notify_one_ends pushover info s Hget s' Hfi Hcfg Hj Hsent; try (split; assumption).
  assert (forall u t, found_stamp s' u t = found_stamp s u t) as Hstamp
    by (intros; unfold found_stamp; now rewrite Hfi).
  split.
  - intros u t Hup. rewrite Hstamp. rewrite Hsent in Hup.
    case_decide as Hd; [|now apply Hsf]. now destruct Hd as [-> ->].
  - intros u t. rewrite Hj, pair_trace_snoc, run_protocol_app, Hp.
    cbn [pair_event]. rewrite eqb_pair.
    destruct (decide (info_found_at info = u /\ info_search_term info = t))
      as [[<- <-]|Hne].
    + rewrite bool_decide_eq_true_2 by auto.
      unfold phase. rewrite Hstamp, Hsent, decide_True by auto.
      destruct Hfound as [z ->]. rewrite Hget. cbn.
      now destruct (next_post_succeeds pushover s).
    + rewrite bool_decide_eq_false_2 by assumption. cbn. f_equal.
      symmetry. apply phase_ext; [apply Hstamp|].
      rewrite Hsent, decide_False; [reflexivity|].
      intros [-> ->]. now apply Hne.
Qed.

(* ---- What a run may change ---------------------------------------------- *)

Lemma extends_refl (s : SiteMonitor) : extends s s.
Proof. split; [apply same_config_refl|]. repeat split; auto. Qed.

Lemma extends_trans (s1 s2 s3 : SiteMonitor) :
  extends s1 s2 -> extends s2 s3 -> extends s1 s3.
Proof.
  intros (C1 & R1 & F1 & N1) (C2 & R2 & F2 & N2).
  split; [eapply same_config_trans; eauto|]. split; [|split].
  - intros u. now rewrite R2, R1.
  - eauto.
  - eauto.
Qed.

Lemma commit_found_extends (now : Z) (url t : string) (s : SiteMonitor) :
  extends s (fst (commit_found now url t s)).
Proof.
  split; [apply commit_found_frame|]. split; [|split].
  - intros u. apply commit_found_row.
  - intros u' t' stamp. apply commit_found_keeps_stamp.
  - intros u' t'. unfold get_sent.
    now rewrite (proj2 (commit_found_frame now url t s)).
Qed.

Lemma notify_one_extends (pushover : nat -> PushResult) (info : ProductInfo)
    (s : SiteMonitor) :
  extends s (fst (notify_one pushover info s))
  /\ found_items (fst (notify_one pushover info s)) = found_items s.
Proof.
  notify_one_ends pushover info s Hget s' Hfi Hc Hj Hsent; try (split; [apply extends_refl|reflexivity]).
  split; [|assumption]. split; [assumption|]. split; [|split].
  - intros u. now rewrite Hfi.
  - intros u t stamp. unfold found_stamp. now rewrite Hfi.
  - intros u t Hup. rewrite Hsent. case_decide as Hd; [|assumption].
    destruct Hd as [-> ->]. congruence.
Qed.

Lemma notify_all_extends (pushover : nat -> PushResult)
    (infos : list ProductInfo) (s : SiteMonitor) :
  extends s (fst (notify_all pushover infos s))
  /\ found_items (fst (notify_all pushover infos s)) = found_items s.
Proof.
  revert s. induction infos as [|info rest IH]; intros s; cbn [notify_all].
  - split; [apply extends_refl|reflexivity].
  - destruct (notify_one_extends pushover info s) as [He Hf].
    destruct (notify_one pushover info s) as [s1 [[]|]]; cbn [fst] in *.
    + destruct (IH s1) as [He' Hf']. split; [|congruence].
      eapply extends_trans; eauto.
    + now split.
Qed.

Lemma notify_all_inv (pushover : nat -> PushResult)
    (infos : list ProductInfo) (s : SiteMonitor) :
  (forall info, In info infos ->
     is_Some (found_stamp s (info_found_at info) (info_search_term info))) ->
  ledger_inv s -> ledger_inv (fst (notify_all pushover infos s)).
Proof.
  revert s. induction infos as [|info rest IH]; intros s Hfound Hinv;
    cbn [notify_all]; [assumption|].
  pose proof (notify_one_inv pushover info s (Hfound info (or_introl eq_refl))
                Hinv) as Hinv1.
  pose proof (notify_one_extends pushover info s) as [_ Hfi].
  destruct (notify_one pushover info s) as [s1 [[]|]]; cbn [fst] in *;
    [|assumption].
  apply IH; [|assumption].
  intros i Hi. unfold found_stamp. rewrite Hfi.
  apply (Hfound i). now right.
Qed.

Lemma check_single_url_extends (task : Task) (s : SiteMonitor) :
  extends s (fst (_check_single_url task s)).
Proof.
  apply (check_single_url_preserves (extends s)); [|apply extends_refl].
  intros now t s1 H. eapply extends_trans; [exact H|].
  apply commit_found_extends.
Qed.

Lemma check_single_url_inv (task : Task) (s : SiteMonitor) :
  ledger_inv s -> ledger_inv (fst (_check_single_url task s)).
Proof.
  apply (check_single_url_preserves ledger_inv).
  intros now t s1. apply commit_found_inv.
Qed.

Lemma run_task_extends (pushover : nat -> PushResult) (task : Task)
    (b : bool) (s : SiteMonitor) :
  extends s (fst (run_task pushover task b s)).
Proof.
  unfold run_task. pose proof (check_single_url_extends task s) as He.
  destruct (_check_single_url task s) as [s1 [[|i rest]|]]; cbn [fst] in *;
    try assumption.
  eapply extends_trans; [exact He|]. apply notify_all_extends.
Qed.

Lemma run_task_inv (pushover : nat -> PushResult) (task : Task)
    (b : bool) (s : SiteMonitor) :
  ledger_inv s -> ledger_inv (fst (run_task pushover task b s)).
Proof.
  intros Hinv. unfold run_task.
  pose proof (check_single_url_inv task s Hinv) as Hinv1.
  pose proof (check_single_url_infos task s) as Hinfos.
  destruct (_check_single_url task s) as [s1 [[|i rest]|]]; cbn [fst] in *;
    try assumption.
  apply notify_all_inv; [|assumption].
  intros info Hin.
  destruct (Hinfos s1 (i :: rest) info eq_refl Hin) as (-> & _ & H).
  exact H.
Qed.

Lemma run_tasks_extends (pushover : nat -> PushResult) (tasks : list Task) :
  forall (b : bool) (s : SiteMonitor),
    extends s (fst (run_tasks pushover tasks b s)).
Proof.
  induction tasks as [|task rest IH]; intros b s; cbn [run_tasks];
    [apply extends_refl|].
  pose proof (run_task_extends pushover task b s) as He.
  destruct (run_task pushover task b s) as [s1 b1]; cbn [fst] in He.
  eapply extends_trans; [exact He|apply IH].
Qed.

Lemma run_tasks_inv (pushover : nat -> PushResult) (tasks : list Task) :
  forall (b : bool) (s : SiteMonitor),
    ledger_inv s -> ledger_inv (fst (run_tasks pushover tasks b s)).
Proof.
  induction tasks as [|task rest IH]; intros b s Hinv; cbn [run_tasks];
    [assumption|].
  pose proof (run_task_inv pushover task b s Hinv) as H1.
  destruct (run_task pushover task b s) as [s1 b1]; cbn [fst] in H1.
  now apply IH.
Qed.

Lemma after_cycles_snoc (pushover : nat -> PushResult)
    (cycles : list (list Task)) (tasks : list Task) (s : SiteMonitor) :
  after_cycles pushover (cycles ++ [tasks]) s
  = fst (run_check pushover tasks (after_cycles pushover cycles s)).
Proof. unfold after_cycles. now rewrite fold_left_app. Qed.

Lemma after_cycles_extends (pushover : nat -> PushResult)
    (cycles : list (list Task)) :
  forall s : SiteMonitor, extends s (after_cycles pushover cycles s).
Proof.
  induction cycles as [|tasks rest IH]; intros s; [apply extends_refl|].
  cbn. eapply extends_trans; [|apply IH]. apply run_tasks_extends.
Qed.

Lemma after_cycles_inv (pushover : nat -> PushResult)
    (cycles : list (list Task)) :
  forall s : SiteMonitor,
    ledger_inv s -> ledger_inv (after_cycles pushover cycles s).
Proof.
  induction cycles as [|tasks rest IH]; intros s Hinv; [assumption|].
  cbn. apply IH. now apply run_tasks_inv.
Qed.

(* ---- The monitor as __init__ builds it ---------------------------------- *)

Lemma fold_insert_lookup {V} (v : V) (ts : list string) :
  forall (acc : gmap string V) (k : string),
    fold_left (fun row t => <[t := v]> row) ts acc !! k
    = if decide (k ∈ ts) then Some v else acc !! k.
Proof.
  induction ts as [|t ts IH]; intros acc k; cbn [fold_left].
  - rewrite decide_False by apply not_elem_of_nil. reflexivity.
  - rewrite IH. destruct (decide (k ∈ ts)) as [Hin|Hnin].
    + rewrite decide_True; [reflexivity|]. apply elem_of_cons. now right.
    + destruct (decide (k = t)) as [->|Hne].
      * rewrite lookup_insert_eq, decide_True; [reflexivity|].
        apply elem_of_cons. now left.
      * rewrite lookup_insert_ne by congruence.
        rewrite decide_False; [reflexivity|].
        rewrite elem_of_cons. tauto.
Qed.

Lemma empty_row_lookup {V} (v : V) (ts : list string) (k : string) :
  empty_row v ts !! k = if decide (k ∈ ts) then Some v else None.
Proof. unfold empty_row. now rewrite fold_insert_lookup, lookup_empty. Qed.

Lemma init_tables_lookup (ts us : list string) :
  forall (fi : gmap string (gmap string (option Z)))
         (ns : gmap string (gmap string bool)) (u : string),
    let tables :=
      fold_left
        (fun '(fi, ns) url =>
           (<[url := empty_row None ts]> fi,
            <[url := empty_row false ts]> ns))
        us (fi, ns) in
    fst tables !! u
    = (if decide (u ∈ us) then Some (empty_row None ts) else fi !! u)
    /\ snd tables !! u
       = (if decide (u ∈ us) then Some (empty_row false ts) else ns !! u).
Proof.
  induction us as [|url us IH]; intros fi ns u; cbn [fold_left].
  - rewrite !decide_False by apply not_elem_of_nil. now split.
  - cbv zeta in IH |- *.
    destruct (IH (<[url := empty_row None ts]> fi)
                 (<[url := empty_row false ts]> ns) u) as [-> ->].
    destruct (decide (u ∈ us)) as [Hin|Hnin].
    + rewrite !decide_True; [now split| |]; apply elem_of_cons; now right.
    + destruct (decide (u = url)) as [->|Hne].
      * rewrite !lookup_insert_eq.
        rewrite !decide_True; [now split| |]; apply elem_of_cons; now left.
      * rewrite !lookup_insert_ne by congruence.
        rewrite !decide_False; [now split| |]; rewrite elem_of_cons; tauto.
Qed.

Lemma init_found_items (us ts : list string) (interval : Z) (auto : bool)
    (u : string) :
  found_items (__init__ us ts interval auto) !! u
  = if decide (u ∈ us) then Some (empty_row None ts) else None.
Proof.
  cbn [found_items __init__]. unfold init_tables.
  destruct (init_tables_lookup ts us ∅ ∅ u) as [-> _].
  now rewrite lookup_empty.
Qed.

Lemma init_notification_sent (us ts : list string) (interval : Z)
    (auto : bool) (u : string) :
  notification_sent (__init__ us ts interval auto) !! u
  = if decide (u ∈ us) then Some (empty_row false ts) else None.
Proof.
  cbn [notification_sent __init__]. unfold init_tables.
  destruct (init_tables_lookup ts us ∅ ∅ u) as [_ ->].
  now rewrite lookup_empty.
Qed.

Lemma init_found_stamp (us ts : list string) (interval : Z) (auto : bool)
    (u t : string) :
  found_stamp (__init__ us ts interval auto) u t = None.
Proof.
  unfold found_stamp. rewrite init_found_items.
  case_decide; [|reflexivity]. rewrite empty_row_lookup.
  now case_decide.
Qed.

Lemma init_get_sent (us ts : list string) (interval : Z) (auto : bool)
    (u t : string) :
  get_sent u t (__init__ us ts interval auto) <> Some true.
Proof.
  unfold get_sent. rewrite init_notification_sent.
  case_decide; [|discriminate]. rewrite empty_row_lookup.
  case_decide; discriminate.
Qed.

Lemma started_shape (pushover : nat -> PushResult) (us ts : list string)
    (interval : Z) (auto : bool) :
  exists ok,
    started pushover us ts interval auto
    = record_event (Posted "Site Monitor Started" MsgStartup ok)
                   (__init__ us ts interval auto).
Proof. unfold started, send_pushover_notification. cbn [fst]. eauto. Qed.

Lemma started_inv (pushover : nat -> PushResult) (us ts : list string)
    (interval : Z) (auto : bool) :
  ledger_inv (started pushover us ts interval auto).
Proof.
  destruct (started_shape pushover us ts interval auto) as [ok ->].
  split.
  - intros u t H. now apply init_get_sent in H.
  - intros u t. unfold phase.
    change (found_stamp (record_event ?e ?s) u t) with (found_stamp s u t).
    rewrite init_found_stamp. reflexivity.
Qed.

Lemma started_rows (pushover : nat -> PushResult) (us ts : list string)
    (interval : Z) (auto : bool) :
  rows_present (started pushover us ts interval auto)
  /\ urls (started pushover us ts interval auto) = us
  /\ search_texts (started pushover us ts interval auto) = ts
  /\ auto_stop_on_found (started pushover us ts interval auto) = auto.
Proof.
  destruct (started_shape pushover us ts interval auto) as [ok ->].
  split; [|now repeat split].
  intros u Hu. cbn in Hu.
  change (found_items (record_event ?e ?s)) with (found_items s).
  rewrite init_found_items, decide_True by assumption. eauto.
Qed.

Lemma extends_rows (s s' : SiteMonitor) :
  extends s s' -> rows_present s -> rows_present s'.
Proof.
  intros ((Hu & _) & Hr & _) Hrows u Hin. apply Hr, Hrows. now rewrite <- Hu.
Qed.

(** The monitor any number of check cycles after the start. *)
Lemma reachable_facts (pushover : nat -> PushResult) (us ts : list string)
    (interval : Z) (auto : bool) (cycles : list (list Task)) :
  let s := after_cycles pushover cycles
             (started pushover us ts interval auto) in
  ledger_inv s /\ rows_present s /\ urls s = us /\ search_texts s = ts
  /\ auto_stop_on_found s = auto.
Proof.
  cbv zeta.
  pose proof (after_cycles_extends pushover cycles
                (started pushover us ts interval auto)) as He.
  destruct (started_rows pushover us ts interval auto)
    as (Hrows & Hus & Hts & Hauto).
  split; [apply after_cycles_inv, started_inv|].
  split; [eapply extends_rows; eauto|].
  destruct He as ((E1 & E2 & _ & E4) & _). repeat split; congruence.
Qed.

(* ---- Counting on accepted traces ---------------------------------------- *)

Lemma protocol_counts (trace : list PairEvent) :
  forall p q : Phase,
    run_protocol p trace = Some q ->
    length (List.filter is_commit trace)
    + (match p with NotFound => 0 | _ => 1 end)
    = (match q with NotFound => 0 | _ => 1 end)
    /\ length (List.filter id (concat (map outcome_of trace)))
       + (match p with Notified => 1 | _ => 0 end)
       = (match q with Notified => 1 | _ => 0 end).
Proof.
  induction trace as [|e trace IH]; intros p q H.
  - cbn in H. injection H as <-. cbn. split; lia.
  - cbn [run_protocol] in H.
    destruct (protocol_step p e) as [p'|] eqn:Hstep; [|discriminate].
    destruct (IH _ _ H) as [IH1 IH2]. clear IH H.
    destruct p, e as [|[|]]; cbn in Hstep; try discriminate;
      injection Hstep as <-; cbn in *; split; lia.
Qed.

Lemma no_success_all_failed (l : list bool) :
  length (List.filter id l) = 0 -> Forall (fun earlier => earlier = false) l.
Proof.
  induction l as [|[|] l IH]; cbn; intros H.
  - constructor.
  - discriminate.
  - constructor; [reflexivity|now apply IH].
Qed.

Lemma commits_of_eq (url term : string) (events : list Event) :
  commits_of url term events
  = length (List.filter is_commit (pair_trace url term events)).
Proof. reflexivity. Qed.

Lemma dispatches_of_eq (url term : string) (events : list Event) :
  dispatches_of url term events
  = concat (map outcome_of (pair_trace url term events)).
Proof. reflexivity. Qed.

(** In a journal that follows the state machine, a dispatch of a pair comes
    after the one commit of the pair and after failed dispatches only. *)
Lemma dispatch_in_protocol (events before after : list Event)
    (url term title : string) (info : ProductInfo) (ok : bool) (q : Phase) :
  run_protocol NotFound (pair_trace url term events) = Some q ->
  events = before ++ Posted title (MsgFound info) ok :: after ->
  info_found_at info = url -> info_search_term info = term ->
  commits_of url term before = 1
  /\ Forall (fun earlier => earlier = false) (dispatches_of url term before).
Proof.
  intros Hrun -> Hu Ht.
  rewrite pair_trace_app, run_protocol_app in Hrun.
  destruct (run_protocol NotFound (pair_trace url term before)) as [p|] eqn:Hb;
    [|discriminate].
  unfold pair_trace in Hrun. cbn [map concat pair_event] in Hrun.
  rewrite eqb_pair, bool_decide_eq_true_2 in Hrun by auto.
  cbn [app run_protocol] in Hrun.
  destruct (protocol_counts _ _ _ Hb) as [Hc Hs].
  rewrite commits_of_eq, dispatches_of_eq.
  destruct p; cbn in Hrun; try discriminate.
  split; [lia|]. apply no_success_all_failed. lia.
Qed.

(* ---- C1 ------------------------------------------------------------- *)

(** C1. Any number of check cycles after the start, for every pair: its
    entry has been committed at most once; the dispatches that succeeded
    are no more than the commits; and every dispatch attempted for the pair
    comes after that one commit and after no dispatch of the pair but
    failed ones. So one commit gives one dispatch, and a further dispatch
    only follows a failure. *)
Theorem one_dispatch_per_commit (pushover : nat -> PushResult)
    (us ts : list string) (interval : Z) (auto : bool)
    (cycles : list (list Task)) (url term : string) :
  let s := after_cycles pushover cycles
             (started pushover us ts interval auto) in
  commits_of url term (journal s) <= 1
  /\ length (List.filter id (dispatches_of url term (journal s)))
     <= commits_of url term (journal s)
  /\ forall before title info ok after,
       journal s = before ++ Posted title (MsgFound info) ok :: after ->
       info_found_at info = url -> info_search_term info = term ->
       commits_of url term before = 1
       /\ Forall (fun earlier => earlier = false)
                 (dispatches_of url term before).
Proof.
  cbv zeta.
  destruct (reachable_facts pushover us ts interval auto cycles)
    as ((_ & Hp) & _).
  specialize (Hp url term).
  destruct (protocol_counts _ _ _ Hp) as [Hc Hs].
  rewrite commits_of_eq, dispatches_of_eq.
  split; [|split].
  - destruct (phase _ url term); lia.
  - destruct (phase _ url term); lia.
  - intros before title info ok after Hj Hu Ht.
    eapply dispatch_in_protocol; eauto.
Qed.

(* ---- C3 ------------------------------------------------------------- *)

Lemma extends_rank (s s' : SiteMonitor) (u t : string) :
  extends s s' -> rank (phase s u t) <= rank (phase s' u t).
Proof.
  intros (_ & _ & Hf & Hn). unfold phase.
  destruct (found_stamp s u t) as [z|] eqn:Hz; [|cbn; lia].
  rewrite (Hf _ _ _ Hz).
  destruct (get_sent u t s) as [[|]|] eqn:Hg.
  - now rewrite (Hn _ _ Hg).
  - destruct (get_sent u t s') as [[|]|]; cbn; lia.
  - destruct (get_sent u t s') as [[|]|]; cbn; lia.
Qed.

Lemma commit_found_rank (now : Z) (url t u' t' : string) (s : SiteMonitor) :
  rank (phase s u' t') <= rank (phase (fst (commit_found now url t s)) u' t').
Proof. apply extends_rank, commit_found_extends. Qed.

Lemma notify_one_rank (pushover : nat -> PushResult) (info : ProductInfo)
    (u' t' : string) (s : SiteMonitor) :
  rank (phase s u' t') <= rank (phase (fst (notify_one pushover info s)) u' t').
Proof. apply extends_rank, notify_one_extends. Qed.

(** C3. Between the start of any check cycle and its end, for every pair:
    the state does not go down in the order NotFound < Found < Notified;
    a timestamp that is set stays, with its value; a notification flag
    that is up belongs to a pair whose timestamp is set; and the whole
    history of the pair, its commit and its dispatches in order, is a path
    of the state machine that ends in the state the tables show, where the
    one step that does not advance is the failed dispatch that leaves
    Found at Found. The two operations that write the tables, the guarded
    write of a timestamp and the notification of one record (flag up,
    post, flag down again when the post failed), do not lower the state of
    any pair either, from whatever state of the monitor they start. *)
Theorem ledger_moves_forward (pushover : nat -> PushResult)
    (us ts : list string) (interval : Z) (auto : bool)
    (cycles : list (list Task)) (tasks : list Task) (url term : string) :
  let s := after_cycles pushover cycles
             (started pushover us ts interval auto) in
  let s' := fst (run_check pushover tasks s) in
  rank (phase s url term) <= rank (phase s' url term)
  /\ (forall stamp,
        found_stamp s url term = Some stamp ->
        found_stamp s' url term = Some stamp)
  /\ (get_sent url term s' = Some true ->
      is_Some (found_stamp s' url term))
  /\ run_protocol NotFound (pair_trace url term (journal s'))
     = Some (phase s' url term)
  /\ (forall any now u t,
        let written := fst (commit_found now u t any) in
        rank (phase any url term) <= rank (phase written url term)
        /\ forall stamp,
             found_stamp any url term = Some stamp ->
             found_stamp written url term = Some stamp)
  /\ (forall any info,
        let notified := fst (notify_one pushover info any) in
        rank (phase any url term) <= rank (phase notified url term)
        /\ found_items notified = found_items any).
Proof.
  cbv zeta.
  pose proof (run_tasks_extends pushover tasks false
                (after_cycles pushover cycles
                   (started pushover us ts interval auto))) as He.
  destruct (reachable_facts pushover us ts interval auto (cycles ++ [tasks]))
    as ((Hsf & Hp) & _).
  rewrite after_cycles_snoc in Hsf, Hp. unfold run_check in *.
  split; [now apply extends_rank|]. split; [|split; [|split; [|split]]].
  - intros stamp. apply He.
  - apply Hsf.
  - apply Hp.
  - intros any now u t. split; [apply commit_found_rank|].
    intros stamp. apply commit_found_keeps_stamp.
  - intros any info. split; [apply notify_one_rank|].
    apply notify_one_extends.
Qed.

(* ---- Counting the entries that are set ---------------------------------- *)

Lemma is_found_is_set (s : SiteMonitor) (u t : string)
    (row : gmap string (option Z)) :
  found_items s !! u = Some row -> is_found row t = is_set s u t.
Proof.
  intros Hrow. unfold is_set, found_stamp, is_found. rewrite Hrow.
  now destruct (row !! t) as [[z|]|].
Qed.

Lemma count_found_terms_eq (s : SiteMonitor) (u : string)
    (row : gmap string (option Z)) :
  found_items s !! u = Some row ->
  forall (terms : list string) (c : nat),
    count_found_terms s u terms c
    = Some (c + length (List.filter (is_set s u) terms)).
Proof.
  intros Hrow. induction terms as [|t terms IH]; intros c;
    cbn [count_found_terms List.filter].
  - f_equal. cbn. lia.
  - rewrite Hrow, IH, (is_found_is_set s u t row Hrow).
    destruct (is_set s u t); cbn [length]; f_equal; lia.
Qed.

Lemma count_found_urls_eq (s : SiteMonitor) (us : list string) :
  forall c : nat,
    (forall u, u ∈ us -> is_Some (found_items s !! u)) ->
    count_found_urls s us c = Some (c + count_set s us (search_texts s)).
Proof.
  unfold count_set.
  induction us as [|u us IH]; intros c Hrows; cbn [count_found_urls map].
  - f_equal. cbn. lia.
  - destruct (Hrows u) as [row Hrow]; [apply elem_of_cons; now left|].
    rewrite (count_found_terms_eq s u row Hrow), IH.
    + f_equal. unfold list_sum. cbn [fold_right]. lia.
    + intros u' Hu'. apply Hrows, elem_of_cons. now right.
Qed.

Lemma completion_status_eq (s : SiteMonitor) :
  rows_present s ->
  get_completion_status s
  = Some (count_set s (urls s) (search_texts s),
          length (urls s) * length (search_texts s)).
Proof.
  intros Hrows. unfold get_completion_status.
  now rewrite (count_found_urls_eq s (urls s) 0 Hrows).
Qed.

Lemma filter_length_mono {A} (f g : A -> bool) (l : list A) :
  (forall x, f x = true -> g x = true) ->
  length (List.filter f l) <= length (List.filter g l).
Proof.
  intros Hfg. induction l as [|x l IH]; cbn; [lia|].
  destruct (f x) eqn:Hf.
  - rewrite (Hfg x Hf). cbn. lia.
  - destruct (g x); cbn; lia.
Qed.

Lemma count_set_cons (s : SiteMonitor) (u : string) (us ts : list string) :
  count_set s (u :: us) ts
  = length (List.filter (is_set s u) ts) + count_set s us ts.
Proof. reflexivity. Qed.

Lemma count_set_mono (s s' : SiteMonitor) (us ts : list string) :
  extends s s' -> count_set s us ts <= count_set s' us ts.
Proof.
  intros (_ & _ & Hf & _).
  induction us as [|u us IH]; [reflexivity|]. rewrite !count_set_cons.
  assert (length (List.filter (is_set s u) ts)
          <= length (List.filter (is_set s' u) ts)); [|lia].
  apply filter_length_mono. intros t. unfold is_set.
  destruct (found_stamp s u t) as [z|] eqn:Hz; [|discriminate].
  now rewrite (Hf _ _ _ Hz).
Qed.

Lemma filter_length_full {A} (f : A -> bool) (l : list A) :
  length (List.filter f l) <= length l
  /\ (length (List.filter f l) = length l <-> forall x, In x l -> f x = true).
Proof.
  induction l as [|x l [IH1 IH2]]; cbn.
  - split; [lia|]. split; [intros _ y []|reflexivity].
  - destruct (f x) eqn:Hf; cbn.
    + split; [lia|]. split.
      * intros H y [<-|Hy]; [assumption|]. apply IH2; [lia|assumption].
      * intros H. f_equal. apply IH2. auto.
    + split; [lia|]. split; [lia|]. intros H. specialize (H x (or_introl eq_refl)).
      congruence.
Qed.

Lemma count_set_full (s : SiteMonitor) (us ts : list string) :
  count_set s us ts <= length us * length ts
  /\ (count_set s us ts = length us * length ts <->
      forall u t, In u us -> In t ts -> is_set s u t = true).
Proof.
  induction us as [|u us [IH1 IH2]].
  - cbn. split; [lia|]. split; [intros _ u t []|reflexivity].
  - rewrite count_set_cons. cbn [length Nat.mul In].
    destruct (filter_length_full (is_set s u) ts) as [F1 F2].
    split; [lia|]. split.
    + intros H u' t [<-|Hu] Ht.
      * apply F2; [lia|assumption].
      * apply IH2; [lia|assumption|assumption].
    + intros H.
      assert (length (List.filter (is_set s u) ts) = length ts) as ->
        by (apply F2; auto).
      f_equal. apply IH2. auto.
Qed.

(* ---- C6 ------------------------------------------------------------- *)

(** C6. Any number of check cycles after the start, and after one more
    cycle, [get_completion_status] returns, its total is
    len(urls) * len(search_texts) of the configuration given at the
    start, and the found count after the cycle is not below the found
    count before it. *)
Theorem completion_accounting (pushover : nat -> PushResult)
    (us ts : list string) (interval : Z) (auto : bool)
    (cycles : list (list Task)) (tasks : list Task) :
  let s := after_cycles pushover cycles
             (started pushover us ts interval auto) in
  let s' := fst (run_check pushover tasks s) in
  exists found_count found_count',
    get_completion_status s = Some (found_count, length us * length ts)
    /\ get_completion_status s'
       = Some (found_count', length us * length ts)
    /\ found_count <= found_count'.
Proof.
  cbv zeta.
  pose proof (run_tasks_extends pushover tasks false
                (after_cycles pushover cycles
                   (started pushover us ts interval auto))) as He.
  destruct (reachable_facts pushover us ts interval auto cycles)
    as (_ & Hrows & Hus & Hts & _).
  destruct (reachable_facts pushover us ts interval auto (cycles ++ [tasks]))
    as (_ & Hrows' & Hus' & Hts' & _).
  rewrite after_cycles_snoc in Hrows', Hus', Hts'. unfold run_check in *.
  eexists _, _.
  rewrite (completion_status_eq _ Hrows), (completion_status_eq _ Hrows').
  rewrite Hus, Hts, Hus', Hts'.
  split; [reflexivity|]. split; [reflexivity|].
  now apply count_set_mono.
Qed.

(* ---- C5 ------------------------------------------------------------- *)

Lemma summary_terms_all_set (s : SiteMonitor) (u : string)
    (row : gmap string (option Z)) :
  found_items s !! u = Some row ->
  forall terms : list string,
    (forall t, In t terms -> is_set s u t = true) ->
    summary_terms s u terms
    = Some (map (fun t => (t, found_stamp s u t)) terms).
Proof.
  intros Hrow. induction terms as [|t terms IH]; intros Hset;
    cbn [summary_terms map]; [reflexivity|].
  rewrite Hrow, IH by (intros; apply Hset; now right).
  specialize (Hset t (or_introl eq_refl)).
  unfold is_set, found_stamp in Hset |- *. rewrite Hrow in Hset |- *.
  destruct (row !! t) as [[z|]|]; try discriminate. reflexivity.
Qed.

Lemma summary_urls_all_set (s : SiteMonitor) (us : list string) :
  (forall u, In u us -> is_Some (found_items s !! u)) ->
  (forall u t, In u us -> In t (search_texts s) -> is_set s u t = true) ->
  summary_urls s us = Some (summary_of s us (search_texts s)).
Proof.
  induction us as [|u us IH]; intros Hrows Hset;
    cbn [summary_urls summary_of map]; [reflexivity|].
  destruct (Hrows u (or_introl eq_refl)) as [row Hrow].
  rewrite (summary_terms_all_set s u row Hrow)
    by (intros; apply Hset; [now left|assumption]).
  unfold summary_of in IH. rewrite IH; [reflexivity| |].
  - intros; apply Hrows; now right.
  - intros; apply Hset; [now right|assumption].
Qed.

Lemma is_set_true (s : SiteMonitor) (u t : string) :
  is_set s u t = true <-> is_Some (found_stamp s u t).
Proof.
  unfold is_set. destruct (found_stamp s u t); split; eauto; try discriminate.
  intros [z Hz]. discriminate.
Qed.

(** When a turn of the loop exits. *)
Lemma monitor_turn_exit (pushover : nat -> PushResult)
    (us ts : list string) (interval : Z) (auto : bool)
    (cycles : list (list Task)) (tasks : list Task) :
  let s := after_cycles pushover cycles
             (started pushover us ts interval auto) in
  let s1 := fst (run_check pushover tasks s) in
  let turn := monitor_turn pushover tasks s in
  (snd turn = Exited 0 <->
   auto = true
   /\ forall u t, u ∈ us -> t ∈ ts -> is_Some (found_stamp s1 u t))
  /\ (forall code,
        snd turn = Exited code ->
        code = 0%Z
        /\ exists ok,
            journal (fst turn)
            = journal s1
              ++ [Posted "Mission Complete - All Items Found!"
                    (MsgMissionComplete (length us * length ts)
                                        (summary_of s1 us ts))
                    ok]).
Proof.
  cbv zeta.
  destruct (reachable_facts pushover us ts interval auto (cycles ++ [tasks]))
    as (_ & Hrows & Hus & Hts & Hauto).
  rewrite after_cycles_snoc in Hrows, Hus, Hts, Hauto.
  unfold monitor_turn.
  destruct (run_check pushover tasks
              (after_cycles pushover cycles
                 (started pushover us ts interval auto)))
    as [s1 found] eqn:Hrun.
  cbn [fst] in *. unfold all_items_found.
  rewrite (completion_status_eq s1 Hrows), Hus, Hts, Hauto.
  destruct (count_set_full s1 us ts) as [_ Hfull].
  assert ((forall u t, In u us -> In t ts -> is_set s1 u t = true)
          <-> (forall u t, u ∈ us -> t ∈ ts -> is_Some (found_stamp s1 u t)))
    as Hall.
  { split; intros H u t Hu Ht.
    - apply is_set_true, H; now apply list_elem_of_In.
    - apply is_set_true, H; now apply list_elem_of_In. }
  destruct (Nat.eqb_spec (count_set s1 us ts) (length us * length ts))
    as [Heq|Hne]; cbn [andb].
  - destruct auto.
    + rewrite summary_urls_all_set.
      * rewrite Hts. unfold send_pushover_notification. cbn [fst snd].
        split.
        -- split; [intros _|reflexivity]. split; [reflexivity|].
           apply Hall, Hfull, Heq.
        -- intros code [= <-]. split; [reflexivity|].
           eexists. reflexivity.
      * intros u Hu. apply Hrows. rewrite Hus. now apply list_elem_of_In.
      * rewrite Hts. apply Hfull, Heq.
    + cbn [snd]. split; [|discriminate].
      split; [discriminate|]. intros [? _]; discriminate.
  - cbn [snd]. split; [|discriminate].
    split; [discriminate|]. intros [_ H]. exfalso. apply Hne.
    now apply Hfull, Hall.
Qed.

Lemma monitor_loop_exit (pushover : nat -> PushResult)
    (us ts : list string) (interval : Z) (auto : bool)
    (more : list (list Task)) :
  forall (cycles : list (list Task)) (s_end : SiteMonitor) (code : Z),
    monitor_loop pushover more
      (after_cycles pushover cycles (started pushover us ts interval auto))
    = (s_end, Some code) ->
    code = 0%Z /\ auto = true
    /\ forall u t, u ∈ us -> t ∈ ts -> is_Some (found_stamp s_end u t).
Proof.
  induction more as [|tasks more IH]; intros cycles s_end code;
    cbn [monitor_loop]; [discriminate|].
  pose proof (monitor_turn_exit pushover us ts interval auto cycles tasks)
    as [Hiff Hexit].
  cbv zeta in Hiff, Hexit.
  destruct (monitor_turn pushover tasks _) as [s' [c|secs]] eqn:Hturn;
    cbn [fst snd] in *.
  - intros [= <- <-]. destruct (Hexit c eq_refl) as [-> [ok Hj]].
    destruct Hiff as [[-> Hall] _]; [reflexivity|].
    split; [reflexivity|]. split; [reflexivity|].
    intros u t Hu Ht. specialize (Hall u t Hu Ht).
    revert Hturn. unfold monitor_turn.
    destruct (run_check pushover tasks _) as [s1 found]. cbn [fst] in *.
    destruct (get_completion_status s1) as [[fc te]|]; [|discriminate].
    destruct (all_items_found s1) as [af|]; [|discriminate].
    destruct (af && auto_stop_on_found s1)%bool; [|discriminate].
    destruct (summary_urls s1 (urls s1)); [|discriminate].
    unfold send_pushover_notification. cbn. intros [= <-]. exact Hall.
  - intros Hloop. apply (IH (cycles ++ [tasks])).
    rewrite after_cycles_snoc.
    revert Hturn. unfold monitor_turn.
    destruct (run_check pushover tasks _) as [s1 found]. cbn [fst] in *.
    destruct (get_completion_status s1) as [[fc te]|];
      [|now intros [= <- _]].
    destruct (all_items_found s1) as [af|]; [|now intros [= <- _]].
    destruct (af && auto_stop_on_found s1)%bool; [|now intros [= <- _]].
    destruct (summary_urls s1 (urls s1)); [|now intros [= <- _]].
    unfold send_pushover_notification. cbn. discriminate.
Qed.

(** C5, amended. In a turn of the loop that begins any number of check
    cycles after the start, the process exits with code 0 exactly when
    auto-stop is enabled and, after the turn's check, the timestamp of
    every pair of urls x search_texts is set; whether the pair's
    notification was sent does not count. No other exit code occurs, and
    the last thing done before exiting is the post of the summary, which
    lists for every url every search text with its timestamp. So whenever
    [start_monitoring] exits, the code is 0, auto-stop is on and every
    timestamp is set. *)
Theorem exit_when_all_found (pushover : nat -> PushResult)
    (us ts : list string) (interval : Z) (auto : bool)
    (cycles : list (list Task)) (tasks : list Task) :
  let s := after_cycles pushover cycles
             (started pushover us ts interval auto) in
  let s1 := fst (run_check pushover tasks s) in
  let turn := monitor_turn pushover tasks s in
  (snd turn = Exited 0 <->
   auto = true
   /\ forall u t, u ∈ us -> t ∈ ts -> is_Some (found_stamp s1 u t))
  /\ (forall code,
        snd turn = Exited code ->
        code = 0%Z
        /\ exists ok,
            journal (fst turn)
            = journal s1
              ++ [Posted "Mission Complete - All Items Found!"
                    (MsgMissionComplete (length us * length ts)
                                        (summary_of s1 us ts))
                    ok])
  /\ (forall all_cycles s_end code,
        start_monitoring pushover all_cycles (__init__ us ts interval auto)
        = (s_end, Some code) ->
        code = 0%Z /\ auto = true
        /\ forall u t, u ∈ us -> t ∈ ts -> is_Some (found_stamp s_end u t)).
Proof.
  cbv zeta.
  destruct (monitor_turn_exit pushover us ts interval auto cycles tasks)
    as [Hiff Hexit].
  split; [exact Hiff|]. split; [exact Hexit|].
  intros all_cycles s_end code Hrun.
  apply (monitor_loop_exit pushover us ts interval auto all_cycles []).
  exact Hrun.
Qed.

(* ---- C8 ------------------------------------------------------------- *)

Lemma fetch_page_all_timeouts (outcomes : nat -> Attempt) :
  (forall attempt, attempt < MAX_RETRIES -> outcomes attempt = Timeout) ->
  fetch_page outcomes = None.
Proof.
  intros H. unfold fetch_page, MAX_RETRIES in *. cbn [fetch_attempts].
  rewrite (H 0), (H 1), (H 2) by lia. reflexivity.
Qed.

(** C8. A check whose fetch gives no content (None after the attempts have
    failed, or an empty body) returns no discovery and leaves the monitor
    as it was, every entry of its own pairs included; and the cycle that
    contains it, at any place in the order of completion, ends in the same
    state and with the same result as the cycle without it: the other
    targets are processed as if the failed one were not there. *)
Theorem failed_fetch_is_isolated (pushover : nat -> PushResult)
    (task : Task) :
  no_content (fetch_page (task_outcomes task)) = true ->
  (forall self, _check_single_url task self = (self, Some []))
  /\ (forall self any_new_found,
        run_task pushover task any_new_found self = (self, any_new_found))
  /\ (forall before after self,
        run_check pushover (before ++ task :: after) self
        = run_check pushover (before ++ after) self).
Proof.
  intros Hfetch.
  assert (forall self, _check_single_url task self = (self, Some [])) as H1.
  { intros self. unfold _check_single_url. now rewrite Hfetch. }
  assert (forall self b, run_task pushover task b self = (self, b)) as H2.
  { intros self b. unfold run_task. now rewrite H1. }
  split; [exact H1|]. split; [exact H2|].
  unfold run_check. intros before after. generalize false.
  induction before as [|t0 before IH]; intros b self; cbn [app run_tasks].
  - now rewrite H2.
  - destruct (run_task pushover t0 b self) as [s' b']. apply IH.
Qed.

(* ---- A pair whose entry is set is left alone ---------------------------- *)

Lemma dispatches_of_snoc (u t : string) (events : list Event) (e : Event) :
  dispatches_of u t (events ++ [e])
  = dispatches_of u t events ++ concat (map outcome_of (pair_event u t e)).
Proof.
  rewrite !dispatches_of_eq, pair_trace_snoc, map_app, concat_app.
  reflexivity.
Qed.

Lemma left_alone_refl (u t : string) (s : SiteMonitor) : left_alone u t s s.
Proof. now split. Qed.

Lemma left_alone_trans (u t : string) (s1 s2 s3 : SiteMonitor) :
  left_alone u t s1 s2 -> left_alone u t s2 s3 -> left_alone u t s1 s3.
Proof. intros [A1 B1] [A2 B2]. split; congruence. Qed.

Lemma commit_found_left_alone (now : Z) (url t' u t : string)
    (s : SiteMonitor) :
  left_alone u t s (fst (commit_found now url t' s)).
Proof.
  destruct (commit_found_cases now url t' s) as [| |row Hrow Hf];
    cbn [fst]; try apply left_alone_refl.
  split; [|reflexivity]. cbn [journal record_event].
  rewrite dispatches_of_snoc. cbn [pair_event].
  destruct (_ && _)%bool; cbn; now rewrite app_nil_r.
Qed.

Lemma notify_one_left_alone (pushover : nat -> PushResult)
    (info : ProductInfo) (u t : string) (s : SiteMonitor) :
  ~ (info_found_at info = u /\ info_search_term info = t) ->
  left_alone u t s (fst (notify_one pushover info s)).
Proof.
  intros Hne.
  notify_one_ends pushover info s Hget s' Hfi Hcfg Hj Hsent; try apply left_alone_refl.
  split.
  - rewrite Hj, dispatches_of_snoc. cbn [pair_event].
    rewrite eqb_pair, bool_decide_eq_false_2 by assumption.
    cbn. now rewrite app_nil_r.
  - rewrite Hsent, decide_False; [reflexivity|].
    intros [-> ->]. now apply Hne.
Qed.

Lemma notify_all_left_alone (pushover : nat -> PushResult)
    (infos : list ProductInfo) (u t : string) :
  forall s : SiteMonitor,
    (forall info, In info infos ->
       ~ (info_found_at info = u /\ info_search_term info = t)) ->
    left_alone u t s (fst (notify_all pushover infos s)).
Proof.
  induction infos as [|info rest IH]; intros s Hne; cbn [notify_all];
    [apply left_alone_refl|].
  pose proof (notify_one_left_alone pushover info u t s
                (Hne info (or_introl eq_refl))) as H1.
  destruct (notify_one pushover info s) as [s1 [[]|]]; cbn [fst] in *;
    [|assumption].
  eapply left_alone_trans; [exact H1|]. apply IH.
  intros i Hi. apply Hne. now right.
Qed.

Lemma run_task_left_alone (pushover : nat -> PushResult) (task : Task)
    (b : bool) (s : SiteMonitor) (u t : string) (stamp : Z) :
  found_stamp s u t = Some stamp ->
  left_alone u t s (fst (run_task pushover task b s)).
Proof.
  intros Hset. unfold run_task.
  assert (left_alone u t s (fst (_check_single_url task s))) as Hcheck.
  { apply (check_single_url_preserves (left_alone u t s));
      [|apply left_alone_refl].
    intros now t' s1 H. eapply left_alone_trans; [exact H|].
    apply commit_found_left_alone. }
  pose proof (check_single_url_infos task s) as Hinfos.
  destruct (_check_single_url task s) as [s1 [[|i rest]|]]; cbn [fst] in *;
    try assumption.
  eapply left_alone_trans; [exact Hcheck|].
  apply notify_all_left_alone. intros info Hin [Hu Ht].
  destruct (Hinfos s1 (i :: rest) info eq_refl Hin) as (Hat & Hnew & _).
  rewrite <- Hat, Hu, Ht in Hnew. congruence.
Qed.

Lemma run_tasks_left_alone (pushover : nat -> PushResult)
    (tasks : list Task) (u t : string) (stamp : Z) :
  forall (b : bool) (s : SiteMonitor),
    found_stamp s u t = Some stamp ->
    left_alone u t s (fst (run_tasks pushover tasks b s)).
Proof.
  induction tasks as [|task rest IH]; intros b s Hset; cbn [run_tasks];
    [apply left_alone_refl|].
  pose proof (run_task_left_alone pushover task b s u t stamp Hset) as H1.
  pose proof (run_task_extends pushover task b s) as (_ & _ & Hkeep & _).
  destruct (run_task pushover task b s) as [s1 b1]; cbn [fst] in *.
  eapply left_alone_trans; [exact H1|]. apply IH. now apply Hkeep.
Qed.

(** Once the entry of a pair is set, no later check cycle dispatches a
    notification for the pair or changes its flag: a pair that is Found
    stays Found, a pair that is Notified stays Notified. *)
Lemma found_pair_is_left_alone (pushover : nat -> PushResult)
    (cycles : list (list Task)) (u t : string) (stamp : Z) :
  forall s : SiteMonitor,
    found_stamp s u t = Some stamp ->
    left_alone u t s (after_cycles pushover cycles s)
    /\ phase (after_cycles pushover cycles s) u t = phase s u t.
Proof.
  induction cycles as [|tasks rest IH]; intros s Hset.
  - split; [apply left_alone_refl|reflexivity].
  - change (after_cycles pushover (tasks :: rest) s)
      with (after_cycles pushover rest
              (fst (run_tasks pushover tasks false s))).
    pose proof (run_tasks_left_alone pushover tasks u t stamp false s Hset)
      as H1.
    pose proof (run_tasks_extends pushover tasks false s)
      as (_ & _ & Hkeep & _).
    specialize (Hkeep _ _ _ Hset).
    destruct (IH _ Hkeep) as [H2 H3]. split.
    + eapply left_alone_trans; eauto.
    + rewrite H3. apply phase_ext; [congruence|apply H1].
Qed.

(* ---- C7: the part that holds -------------------------------------------- *)

(** A dispatch that fails leaves the pair Found and not Notified: the flag
    is down again, the tables of timestamps are as they were, and the
    journal has the failed post. *)
Lemma failed_dispatch_reverts (pushover : nat -> PushResult)
    (info : ProductInfo) (s : SiteMonitor) :
  get_sent (info_found_at info) (info_search_term info) s = Some false ->
  next_post_succeeds pushover s = false ->
  let s' := fst (notify_one pushover info s) in
  get_sent (info_found_at info) (info_search_term info) s' = Some false
  /\ found_items s' = found_items s
  /\ journal s'
     = journal s
       ++ [Posted ("Found: " +:+ info_search_term info) (MsgFound info)
                  false].
Proof.
  intros Hget Hfail. cbv zeta.
  destruct (notify_one_cases pushover info s)
    as [[H _]|[[H _]|[_ (s' & -> & Hfi & _ & Hj & Hsent)]]];
    try congruence.
  cbn [fst]. rewrite Hsent, decide_True, Hj, Hfail by auto. auto.
Qed.

(* ===================================================================== *)
(* Further properties of the code                                        *)
(* ===================================================================== *)

(* ---- strip() and slices -------------------------------------------------- *)

Lemma rstrip_cons (c : ascii) (r : string) :
  Str.rstrip (String c r)
  = match Str.rstrip r with
    | EmptyString => if Str.is_space c then EmptyString else String c EmptyString
    | String c' r' => String c (String c' r')
    end.
Proof. reflexivity. Qed.

Lemma rstrip_twice (s : string) : Str.rstrip (Str.rstrip s) = Str.rstrip s.
Proof.
  induction s as [|c r IH]; [reflexivity|]. rewrite rstrip_cons.
  destruct (Str.rstrip r) as [|c' r'] eqn:Hr.
  - destruct (Str.is_space c) eqn:Hs; [reflexivity|].
    cbn [Str.rstrip]. now rewrite Hs.
  - rewrite (rstrip_cons c (String c' r')). now rewrite IH.
Qed.

Lemma rstrip_head (s : string) :
  match Str.rstrip s with
  | EmptyString => True
  | String c _ => exists r, s = String c r
  end.
Proof.
  destruct s as [|c r]; [exact I|]. cbn [Str.rstrip].
  destruct (Str.rstrip r); [destruct (Str.is_space c)|]; eauto.
Qed.

Lemma lstrip_head (s : string) :
  match Str.lstrip s with
  | EmptyString => True
  | String c _ => Str.is_space c = false
  end.
Proof.
  induction s as [|c r IH]; [exact I|]. cbn [Str.lstrip].
  destruct (Str.is_space c) eqn:Hs; [exact IH|exact Hs].
Qed.

Lemma strip_twice (s : string) : Str.strip (Str.strip s) = Str.strip s.
Proof.
  unfold Str.strip.
  assert (Str.lstrip (Str.rstrip (Str.lstrip s)) = Str.rstrip (Str.lstrip s))
    as ->; [|apply rstrip_twice].
  pose proof (lstrip_head s) as Hl. pose proof (rstrip_head (Str.lstrip s)) as Hr.
  destruct (Str.rstrip (Str.lstrip s)) as [|c r]; [reflexivity|].
  destruct Hr as [r0 Hr0]. rewrite Hr0 in Hl. cbn [Str.lstrip]. now rewrite Hl.
Qed.

Lemma slice_to_length (s : string) :
  forall n : N,
    (N.of_nat (String.length (Str.slice_to n s)) <= n)%N
    /\ String.length (Str.slice_to n s) <= String.length s.
Proof.
  induction s as [|c r IH]; intros n; cbn [Str.slice_to].
  - cbn. split; lia.
  - destruct (N.eqb_spec n 0) as [->|Hn]; [cbn; split; lia|].
    destruct (IH (N.pred n)) as [H1 H2]. cbn [String.length]. split; lia.
Qed.

Lemma slice_to_all (s : string) :
  forall n : N, (N.of_nat (String.length s) <= n)%N -> Str.slice_to n s = s.
Proof.
  induction s as [|c r IH]; intros n H; [reflexivity|].
  cbn [Str.slice_to String.length] in *.
  destruct (N.eqb_spec n 0) as [->|Hn]; [lia|].
  rewrite IH; [reflexivity|lia].
Qed.

Lemma lstrip_length (s : string) :
  String.length (Str.lstrip s) <= String.length s.
Proof.
  induction s as [|c r IH]; cbn [Str.lstrip]; [lia|].
  destruct (Str.is_space c); cbn [String.length]; lia.
Qed.

Lemma rstrip_length (s : string) :
  String.length (Str.rstrip s) <= String.length s.
Proof.
  induction s as [|c r IH]; [cbn; lia|]. rewrite rstrip_cons.
  destruct (Str.rstrip r); [destruct (Str.is_space c)|];
    cbn [String.length] in *; lia.
Qed.

Lemma strip_length (s : string) :
  String.length (Str.strip s) <= String.length s.
Proof.
  unfold Str.strip. pose proof (rstrip_length (Str.lstrip s)).
  pose proof (lstrip_length s). lia.
Qed.

Lemma normalize_text_unfold (s : string) :
  _normalize_text s = normalize_sliced (Str.slice_to TEXT_LIMIT s).
Proof. destruct s; reflexivity. Qed.

(* ---- Substrings, and parts of the searched content ----------------------- *)

Lemma str_app_cons (c : ascii) (a b : string) :
  String c a +:+ b = String c (a +:+ b).
Proof. reflexivity. Qed.

Lemma str_app_nil_l (a : string) : "" +:+ a = a.
Proof. reflexivity. Qed.

Lemma str_app_nil_r (a : string) : a +:+ "" = a.
Proof. induction a as [|c a IH]; [reflexivity|]. now rewrite str_app_cons, IH. Qed.

Lemma str_app_assoc (a b c : string) : (a +:+ b) +:+ c = a +:+ b +:+ c.
Proof.
  induction a as [|x a IH]; [reflexivity|]. now rewrite !str_app_cons, IH.
Qed.

Lemma starts_with_app (p r : string) : Str.starts_with p (p +:+ r) = true.
Proof.
  induction p as [|c p IH]; [reflexivity|]. rewrite str_app_cons.
  cbn [Str.starts_with]. now rewrite Ascii.eqb_refl, IH.
Qed.

Lemma starts_with_split (p s : string) :
  Str.starts_with p s = true -> exists r, s = p +:+ r.
Proof.
  revert s. induction p as [|c p IH]; intros s H; [now exists s|].
  destruct s as [|c' s]; [discriminate|]. cbn [Str.starts_with] in H.
  apply andb_true_iff in H as [Hc Hp]. apply Ascii.eqb_eq in Hc as <-.
  destruct (IH s Hp) as [r ->]. now exists r.
Qed.

Lemma contains_cons (n : string) (c : ascii) (h : string) :
  Str.contains n (String c h)
  = (Str.starts_with n (String c h) || Str.contains n h)%bool.
Proof. reflexivity. Qed.

Lemma contains_empty (h : string) : Str.contains "" h = true.
Proof. now destruct h. Qed.

Lemma contains_app (p n q : string) : Str.contains n (p +:+ n +:+ q) = true.
Proof.
  induction p as [|c p IH].
  - rewrite str_app_nil_l. destruct (n +:+ q) as [|c h] eqn:E.
    + destruct n; [reflexivity|discriminate].
    + rewrite contains_cons, <- E, starts_with_app. reflexivity.
  - rewrite str_app_cons, contains_cons, IH. apply orb_true_r.
Qed.

Lemma contains_split (n h : string) :
  Str.contains n h = true -> exists p q, h = p +:+ n +:+ q.
Proof.
  induction h as [|c h IH]; intros H.
  - cbn in H. rewrite orb_false_r in H. destruct n; [|discriminate].
    now exists "", "".
  - rewrite contains_cons in H. apply orb_true_iff in H as [H|H].
    + apply starts_with_split in H as [r ->]. now exists "", r.
    + destruct (IH H) as (p & q & ->). now exists (String c p), q.
Qed.

Lemma contains_trans (a b c : string) :
  Str.contains a b = true -> Str.contains b c = true ->
  Str.contains a c = true.
Proof.
  intros Hab Hbc. apply contains_split in Hab as (p & q & ->).
  apply contains_split in Hbc as (p' & q' & ->).
  replace (p' +:+ (p +:+ a +:+ q) +:+ q')
    with ((p' +:+ p) +:+ a +:+ (q +:+ q'))
    by now rewrite !str_app_assoc.
  apply contains_app.
Qed.

Lemma join_split (sep part : string) (parts : list string) :
  In part parts -> exists p q, Str.join sep parts = p +:+ part +:+ q.
Proof.
  induction parts as [|x parts IH]; intros Hin; [destruct Hin|].
  destruct Hin as [->|Hin].
  - destruct parts as [|y parts]; cbn [Str.join].
    + exists "", "". now rewrite str_app_nil_r.
    + now exists "", (sep +:+ Str.join sep (y :: parts)).
  - destruct (IH Hin) as (p & q & E).
    destruct parts as [|y parts]; [destruct Hin|].
    change (Str.join sep (x :: y :: parts))
      with (x +:+ sep +:+ Str.join sep (y :: parts)).
    rewrite E.
    exists (x +:+ sep +:+ p), q. now rewrite !str_app_assoc.
Qed.

Lemma app_length (a b : string) :
  String.length (a +:+ b) = String.length a + String.length b.
Proof.
  induction a as [|c a IH]; [reflexivity|].
  rewrite str_app_cons. cbn [String.length]. now rewrite IH.
Qed.

(** The character-wise steps distribute over concatenation. *)
Lemma lower_app (a b : string) :
  Str.lower (a +:+ b) = Str.lower a +:+ Str.lower b.
Proof.
  induction a as [|c a IH]; [reflexivity|].
  rewrite str_app_cons. cbn [Str.lower]. now rewrite IH.
Qed.

Lemma sub_delimiters_app (a b : string) :
  Str.sub_delimiters (a +:+ b)
  = Str.sub_delimiters a +:+ Str.sub_delimiters b.
Proof.
  induction a as [|c a IH]; [reflexivity|].
  rewrite str_app_cons. cbn [Str.sub_delimiters]. now rewrite IH.
Qed.

Lemma sub_space_runs_app (a b : string) :
  forall in_run : bool,
    Str.sub_space_runs_from in_run (a +:+ b)
    = Str.sub_space_runs_from in_run a
      +:+ Str.sub_space_runs_from (run_after in_run a) b.
Proof.
  induction a as [|c a IH]; intros in_run; [reflexivity|].
  rewrite str_app_cons. cbn [Str.sub_space_runs_from run_after].
  destruct (Str.is_space c); [destruct in_run|]; now rewrite IH.
Qed.

(** In a run the result does not begin with white space; out of a run it is
    the same, but for one more space in front. *)
Lemma sub_space_runs_in_run (s : string) :
  Str.lstrip (Str.sub_space_runs_from true s) = Str.sub_space_runs_from true s
  /\ (Str.sub_space_runs_from false s = Str.sub_space_runs_from true s
      \/ Str.sub_space_runs_from false s
         = String " " (Str.sub_space_runs_from true s)).
Proof.
  induction s as [|c r [IH1 IH2]]; [split; [reflexivity|now left]|].
  cbn [Str.sub_space_runs_from]. destruct (Str.is_space c) eqn:Hs.
  - split; [exact IH1|now right].
  - split; [|now left]. cbn [Str.lstrip]. now rewrite Hs.
Qed.

Lemma rstrip_rest (s : string) : exists w, s = Str.rstrip s +:+ w.
Proof.
  induction s as [|c r [w IH]]; [now exists ""|]. rewrite rstrip_cons.
  destruct (Str.rstrip r) as [|c' r'].
  - destruct (Str.is_space c).
    + now exists (String c r).
    + exists w. rewrite str_app_cons. rewrite str_app_nil_l in *. now f_equal.
  - exists w. rewrite !str_app_cons in *. now f_equal.
Qed.

Lemma lstrip_before (p : string) (c : ascii) (r : string) :
  Str.is_space c = false ->
  exists p', Str.lstrip (p +:+ String c r) = p' +:+ String c r.
Proof.
  intros Hc. induction p as [|x p [p' IH]].
  - exists "". rewrite !str_app_nil_l. cbn [Str.lstrip]. now rewrite Hc.
  - rewrite str_app_cons. cbn [Str.lstrip]. destruct (Str.is_space x).
    + now exists p'.
    + now exists (String x p).
Qed.

Lemma rstrip_app (a q : string) :
  Str.rstrip (a +:+ q)
  = match Str.rstrip q with
    | EmptyString => Str.rstrip a
    | String c r => a +:+ String c r
    end.
Proof.
  induction a as [|x a IH].
  - rewrite str_app_nil_l. now destruct (Str.rstrip q).
  - rewrite str_app_cons, rstrip_cons, IH.
    destruct (Str.rstrip q) as [|c r].
    + now rewrite rstrip_cons.
    + rewrite str_app_cons. now destruct a.
Qed.

(** The normal form of a middle part is a substring of the normal form of
    the whole. *)
Lemma normalize_sliced_part (x y z : string) :
  Str.contains (normalize_sliced y) (normalize_sliced (x +:+ y +:+ z)) = true.
Proof.
  unfold normalize_sliced, Str.sub_space_runs.
  rewrite !lower_app, !sub_delimiters_app.
  set (gx := Str.sub_delimiters (Str.lower x)).
  set (gy := Str.sub_delimiters (Str.lower y)).
  set (gz := Str.sub_delimiters (Str.lower z)).
  rewrite sub_space_runs_app, sub_space_runs_app.
  set (P := Str.sub_space_runs_from false gx).
  set (b1 := run_after false gx).
  set (Q := Str.sub_space_runs_from (run_after b1 gy) gz).
  destruct (sub_space_runs_in_run gy) as [Hl Hcases].
  set (T := Str.sub_space_runs_from true gy) in *.
  assert (Str.strip (Str.sub_space_runs_from false gy) = Str.rstrip T) as Hcore.
  { unfold Str.strip. destruct Hcases as [->| ->]; [now rewrite Hl|].
    cbn [Str.lstrip]. change (Str.is_space " "%char) with true. cbv iota.
    now rewrite Hl. }
  rewrite Hcore.
  assert (exists l, Str.sub_space_runs_from b1 gy = l +:+ T) as [l ->].
  { destruct b1; [now exists ""|].
    destruct Hcases as [->| ->]; [now exists ""|now exists " "]. }
  destruct (rstrip_rest T) as [w Hw].
  pose proof (lstrip_head T) as Hhead. rewrite Hl in Hhead.
  pose proof (rstrip_head T) as Hrhead.
  destruct (Str.rstrip T) as [|c core] eqn:Hr; [apply contains_empty|].
  destruct Hrhead as [r0 HT]. rewrite HT in Hhead.
  assert (P +:+ (l +:+ T) +:+ Q = (P +:+ l) +:+ String c core +:+ (w +:+ Q))
    as -> by (rewrite Hw at 1; now rewrite !str_app_assoc).
  unfold Str.strip.
  destruct (lstrip_before (P +:+ l) c (core +:+ w +:+ Q) Hhead) as [p' Hp'].
  rewrite str_app_cons. rewrite Hp'.
  assert (Str.rstrip (String c core) = String c core) as Hcc
    by (rewrite <- Hr; apply rstrip_twice).
  replace (p' +:+ String c (core +:+ w +:+ Q))
    with ((p' +:+ String c core) +:+ (w +:+ Q))
    by now rewrite str_app_assoc, str_app_cons.
  rewrite rstrip_app. destruct (Str.rstrip (w +:+ Q)) as [|c' q'].
  - rewrite rstrip_app, Hcc.
    rewrite <- (str_app_nil_r (String c core)) at 2. apply contains_app.
  - rewrite str_app_assoc. apply contains_app.
Qed.

(** X4. Every collected string is searched: when the concatenation of the
    collected strings is within TEXT_LIMIT, a search text that matches one
    of them (its normal form is in the normal form of that string) matches
    the normalised content the page is searched in. *)
Theorem collected_part_is_searched (soup : Soup) (part search_text : string) :
  In part (_collect_searchable_content soup) ->
  (N.of_nat (String.length
               (Str.join " " (List.filter Str.truthy
                                (_collect_searchable_content soup))))
   <= TEXT_LIMIT)%N ->
  Str.contains (_normalize_text search_text) (_normalize_text part) = true ->
  Str.contains (_normalize_text search_text) (normalized_content_of soup)
  = true.
Proof.
  intros Hin Hlimit Hmatch. unfold normalized_content_of.
  set (whole := Str.join " " _) in *.
  destruct part as [|c part].
  { cbn in Hmatch. rewrite orb_false_r in Hmatch.
    destruct (_normalize_text search_text); [|discriminate].
    apply contains_empty. }
  assert (In (String c part)
             (List.filter Str.truthy (_collect_searchable_content soup)))
    as Hin' by (apply filter_In; now split).
  destruct (join_split " " _ _ Hin') as (p & q & Hwhole).
  fold whole in Hwhole.
  eapply contains_trans; [exact Hmatch|].
  rewrite !normalize_text_unfold.
  assert (String.length (String c part) <= String.length whole) as Hlen
    by (rewrite Hwhole, !app_length; lia).
  rewrite (slice_to_all whole) by exact Hlimit.
  rewrite (slice_to_all (String c part)) by lia.
  rewrite Hwhole. apply normalize_sliced_part.
Qed.

(* ---- fetch_page ------------------------------------------------------------ *)

Lemma fetch_attempts_some (outcomes : nat -> Attempt) (remaining : nat) :
  forall (attempt : nat) (text : string),
    fetch_attempts outcomes attempt remaining = Some text <->
    exists k,
      k < remaining
      /\ (forall j, j < k -> retried (outcomes (attempt + j)) = true)
      /\ delivered (outcomes (attempt + k)) = Some text.
Proof.
  induction remaining as [|n IH]; intros attempt text; cbn [fetch_attempts].
  - split; [discriminate|]. intros (k & Hk & _). lia.
  - assert (forall m, (exists k, k < n
                        /\ (forall j, j < k ->
                              retried (outcomes (S attempt + j)) = true)
                        /\ delivered (outcomes (S attempt + k)) = Some m)
                      -> retried (outcomes attempt) = true
                      -> exists k, k < S n
                           /\ (forall j, j < k ->
                                 retried (outcomes (attempt + j)) = true)
                           /\ delivered (outcomes (attempt + k)) = Some m)
      as Hshift.
    { intros m (k & Hk & Hre & Hd) H0. exists (S k). split; [lia|]. split.
      - intros [|j] Hj; [now rewrite Nat.add_0_r|].
        replace (attempt + S j) with (S attempt + j) by lia. apply Hre. lia.
      - now replace (attempt + S k) with (S attempt + k) by lia. }
    assert (forall m, (exists k, k < S n
                        /\ (forall j, j < k ->
                              retried (outcomes (attempt + j)) = true)
                        /\ delivered (outcomes (attempt + k)) = Some m)
                      -> delivered (outcomes attempt) = Some m
                         \/ (retried (outcomes attempt) = true
                             /\ exists k, k < n
                                  /\ (forall j, j < k ->
                                        retried (outcomes (S attempt + j))
                                        = true)
                                  /\ delivered (outcomes (S attempt + k))
                                     = Some m))
      as Hunshift.
    { intros m ([|k] & Hk & Hre & Hd).
      - left. now rewrite Nat.add_0_r in Hd.
      - right. split; [specialize (Hre 0); rewrite Nat.add_0_r in Hre;
                       apply Hre; lia|].
        exists k. split; [lia|]. split.
        + intros j Hj. replace (S attempt + j) with (attempt + S j) by lia.
          apply Hre. lia.
        + now replace (S attempt + k) with (attempt + S k) by lia. }
    assert (delivered (outcomes attempt) = Some text ->
            exists k, k < S n
              /\ (forall j, j < k -> retried (outcomes (attempt + j)) = true)
              /\ delivered (outcomes (attempt + k)) = Some text) as Hnow.
    { intros Hd. exists 0. split; [lia|]. split; [intros j Hj; lia|].
      now rewrite Nat.add_0_r. }
    specialize (IH (S attempt) text).
    destruct (outcomes attempt) as [len body| | |code|] eqn:Ho; cbn in *.
    + split.
      * intros H. apply Hnow.
        now destruct (MAX_CONTENT_SIZE <? len)%N.
      * intros H. apply Hunshift in H as [H|[H _]]; [|discriminate].
        now destruct (MAX_CONTENT_SIZE <? len)%N.
    + rewrite IH. split; [intros H; now apply Hshift|].
      intros H. apply Hunshift in H as [H|[_ H]]; [discriminate|exact H].
    + rewrite IH. split; [intros H; now apply Hshift|].
      intros H. apply Hunshift in H as [H|[_ H]]; [discriminate|exact H].
    + destruct (500 <=? code)%Z.
      * rewrite IH. split; [intros H; now apply Hshift|].
        intros H. apply Hunshift in H as [H|[_ H]]; [discriminate|exact H].
      * split; [discriminate|].
        intros H. apply Hunshift in H as [H|[H _]]; discriminate.
    + split; [discriminate|].
      intros H. apply Hunshift in H as [H|[H _]]; discriminate.
Qed.

(** X5. [fetch_page] returns content exactly when one of the first
    MAX_RETRIES attempts is answered and every attempt before it ended in a
    timeout, a connection error or a status of 500 and above; the content
    is the body of that answer (cut when oversize). So a status below 500
    or an unexpected error ends the fetch with None at once, whatever later
    attempts would have met, and a fourth attempt is never made. *)
Theorem fetch_page_returns_content (outcomes : nat -> Attempt)
    (text : string) :
  fetch_page outcomes = Some text <->
  exists k,
    k < MAX_RETRIES
    /\ (forall j, j < k -> retried (outcomes j) = true)
    /\ delivered (outcomes k) = Some text.
Proof. unfold fetch_page. now rewrite fetch_attempts_some. Qed.

Lemma slice_to_prefix (s : string) :
  forall n : N, Str.starts_with (Str.slice_to n s) s = true.
Proof.
  induction s as [|c r IH]; intros n; [reflexivity|]. cbn [Str.slice_to].
  destruct (n =? 0)%N; [reflexivity|]. cbn [Str.starts_with].
  now rewrite Ascii.eqb_refl, IH.
Qed.

(** X6. The content [fetch_page] returns is a prefix of the body of an
    answer; when the answer's content length is above MAX_CONTENT_SIZE the
    content has at most MAX_CONTENT_SIZE // 2 = 10485760 characters, and
    otherwise it is the whole body. *)
Theorem fetch_page_content_bound (outcomes : nat -> Attempt) (text : string) :
  fetch_page outcomes = Some text ->
  exists k content_length body,
    k < MAX_RETRIES
    /\ outcomes k = Response content_length body
    /\ Str.starts_with text body = true
    /\ ((MAX_CONTENT_SIZE < content_length)%N ->
        (N.of_nat (String.length text) <= 10485760)%N)
    /\ ((content_length <= MAX_CONTENT_SIZE)%N -> text = body).
Proof.
  unfold fetch_page. rewrite fetch_attempts_some. intros (k & Hk & _ & Hd).
  change (0 + k) with k in Hd.
  destruct (outcomes k) as [len body| | | |] eqn:Ho; try discriminate.
  cbn in Hd. injection Hd as <-. exists k, len, body.
  split; [exact Hk|]. split; [exact Ho|].
  destruct (N.ltb_spec MAX_CONTENT_SIZE len) as [Hbig|Hsmall].
  - split; [apply slice_to_prefix|]. split; [|lia].
    intros _. apply (slice_to_length body (MAX_CONTENT_SIZE / 2)).
  - split; [|split; [lia|reflexivity]].
    rewrite <- (str_app_nil_r body) at 2. apply starts_with_app.
Qed.

(* ---- _extract_product_details ---------------------------------------------- *)







Lemma container_info_text_length (t url : string) (container : Container) :
  String.length (info_text (container_info t url container)) <= 203.
Proof.
  cbn [container_info info_text].
  destruct (N.ltb_spec PRODUCT_TEXT_LIMIT
              (N.of_nat (String.length (c_text container)))) as [Hbig|Hsmall].
  - rewrite app_length. cbn [String.length].
    pose proof (proj1 (slice_to_length (Str.strip (c_text container))
                         PRODUCT_TEXT_LIMIT)).
    unfold PRODUCT_TEXT_LIMIT in *. lia.
  - pose proof (strip_length (c_text container)).
    unfold PRODUCT_TEXT_LIMIT in *. lia.
Qed.

(** A record of the details is a link record, or the record of a heading
    or of a container. *)
Lemma details_of_member (soup : Soup) (url t : string)
    (details : list ProductInfo) (info : ProductInfo) :
  details_of soup url t = Some details ->
  In info details ->
  info_type info = "link"
  \/ (exists heading, info = heading_info t url heading)
  \/ (exists container, info = container_info t url container).
Proof.
  unfold details_of. destruct (first_link soup url t) as [links|] eqn:El;
    [|discriminate].
  intros [= <-]. rewrite !in_app_iff. intros [H|[H|H]].
  - left. unfold first_link, link_info in El.
    destruct (List.find _ (soup_anchors soup)) as [link|];
      [|injection El as <-; destruct H].
    destruct (full_url_of url (a_href link)); [|discriminate].
    injection El as <-. destruct H as [<-|[]]. reflexivity.
  - right; left. now apply first_hit_in in H.
  - right; right. now apply first_hit_in in H.
Qed.

(** X8. The text of a product_container record never has more than
    PRODUCT_TEXT_LIMIT + 3 = 203 characters, however long the container. *)
Theorem product_container_text_is_bounded (soup : Soup)
    (found_texts : list string) (url : string)
    (product_info : list ProductInfo) (info : ProductInfo) :
  _extract_product_details soup found_texts url = Some product_info ->
  In info product_info ->
  info_type info = "product_container" ->
  String.length (info_text info) <= 203.
Proof.
  revert product_info.
  induction found_texts as [|t rest IH]; intros product_info;
    cbn [_extract_product_details]; [intros [= <-] []|].
  destruct (details_of soup url t) as [details|] eqn:Hd; [|discriminate].
  destruct (_extract_product_details soup rest url) as [more|];
    [|discriminate].
  intros [= <-] Hin Htype. apply in_app_iff in Hin as [Hin|Hin];
    [|exact (IH more eq_refl Hin Htype)].
  destruct (details_of_member soup url t details info Hd Hin)
    as [H|[[x ->]|[x ->]]]; [congruence|discriminate|].
  apply container_info_text_length.
Qed.

(* ---- A check made again ---------------------------------------------------- *)

Lemma match_terms_nothing (now : string -> Z) (nc url : string)
    (row : gmap string (option Z)) (self : SiteMonitor) :
  found_items self !! url = Some row ->
  forall terms acc,
    (forall t, In t terms ->
       is_found row t = true \/ Str.contains (_normalize_text t) nc = false) ->
    match_terms now nc url terms acc self = (self, Some acc).
Proof.
  intros Hrow. induction terms as [|t rest IH]; intros acc H; [reflexivity|].
  cbn [match_terms]. rewrite Hrow.
  destruct (H t (or_introl eq_refl)) as [-> | ->].
  - apply IH. intros t' Ht'. apply H. now right.
  - destruct (is_found row t); apply IH; intros t' Ht'; apply H; now right.
Qed.

Lemma match_terms_same_config (now : string -> Z) (nc url : string)
    (terms acc : list string) (self : SiteMonitor) :
  same_config self (fst (match_terms now nc url terms acc self)).
Proof.
  apply (match_terms_preserves (same_config self)); [|apply same_config_refl].
  intros t s H. eapply same_config_trans; [exact H|apply commit_found_frame].
Qed.

(** X9. A check repeated on the same content, at whatever later time,
    finds nothing new: it leaves the monitor as the first check left it
    and does not return True. *)
Theorem check_for_patterns_again (now now' : string -> Z)
    (html_content : option string) (url : string)
    (specific : option (list string)) (self : SiteMonitor) :
  let first := check_for_patterns now html_content url specific self in
  let again := check_for_patterns now' html_content url specific (fst first) in
  fst again = fst first
  /\ forall product_info, snd again <> Some (true, product_info).
Proof.
  cbv zeta. unfold check_for_patterns.
  destruct html_content as [html|]; [|split; [reflexivity|discriminate]].
  destruct (negb (Str.truthy html)); [split; [reflexivity|discriminate]|].
  set (nc := normalized_content_of (parse html)).
  set (terms := texts_to_check specific self).
  destruct (found_items self !! url) as [row|] eqn:Hrow.
  - destruct (match_terms_found_texts now nc url terms [] self row Hrow)
      as (self1 & extra & row1 & E & R & F & M).
    cbn [app] in E. rewrite E.
    assert (texts_to_check specific self1 = terms) as Hterms.
    { pose proof (match_terms_same_config now nc url terms [] self)
        as (_ & Hst & _).
      rewrite E in Hst. cbn [fst] in Hst. unfold terms, texts_to_check.
      now rewrite Hst. }
    assert (match_terms now' nc url terms [] self1 = (self1, Some []))
      as Hagain.
    { apply (match_terms_nothing now' nc url row1 self1 R).
      intros t Ht. destruct (Str.contains (_normalize_text t) nc) eqn:Hc;
        [left|now right].
      rewrite F. destruct (is_found row t) eqn:Hf; [reflexivity|].
      cbn [orb]. apply bool_decide_eq_true_2, M.
      split; [now apply list_elem_of_In|now split]. }
    destruct extra as [|t0 extra];
      [|destruct (_extract_product_details (parse html) (t0 :: extra) url)];
      cbn [fst]; rewrite Hterms, Hagain;
      cbn [fst snd]; split; try reflexivity; discriminate.
  - rewrite (match_terms_no_row now nc url terms [] self Hrow).
    assert (forall r : option (bool * option (list ProductInfo)),
               texts_to_check specific (fst (self, r)) = terms) as Hterms
      by reflexivity.
    clear Hterms.
    destruct terms as [|t0 terms'] eqn:Eterms; cbn [fst];
      fold terms; rewrite Eterms;
      rewrite (match_terms_no_row now' nc url _ [] self Hrow);
      cbn; split; try reflexivity; discriminate.
Qed.

(* ---- get_completion_status, all_items_found -------------------------------- *)

Lemma count_found_terms_no_row (s : SiteMonitor) (u : string)
    (terms : list string) (c : nat) :
  found_items s !! u = None ->
  count_found_terms s u terms c
  = match terms with [] => Some c | _ :: _ => None end.
Proof. intros H. destruct terms; cbn [count_found_terms]; now rewrite ?H. Qed.

Lemma count_found_urls_none (s : SiteMonitor) (us : list string) :
  forall c : nat,
    count_found_urls s us c = None <->
    search_texts s <> []
    /\ exists u, In u us /\ found_items s !! u = None.
Proof.
  induction us as [|u us IH]; intros c; cbn [count_found_urls].
  - split; [discriminate|]. intros (_ & u & [] & _).
  - destruct (found_items s !! u) as [row|] eqn:Hrow.
    + rewrite (count_found_terms_eq s u row Hrow), IH.
      split; intros (Hts & u' & Hin & Hnone); (split; [exact Hts|]).
      * exists u'. split; [now right|exact Hnone].
      * destruct Hin as [<-|Hin]; [congruence|]. now exists u'.
    + rewrite (count_found_terms_no_row s u _ c Hrow).
      destruct (search_texts s) as [|t ts] eqn:Hts.
      * rewrite IH. split; intros (H & _); now contradiction H.
      * split; [|reflexivity]. intros _. split; [discriminate|].
        exists u. split; [now left|exact Hrow].
Qed.

Lemma count_found_urls_some (s : SiteMonitor) (us : list string) :
  forall c found_count : nat,
    count_found_urls s us c = Some found_count ->
    found_count = c + count_set s us (search_texts s).
Proof.
  induction us as [|u us IH]; intros c fc; cbn [count_found_urls].
  - intros [= <-]. cbn. lia.
  - rewrite count_set_cons.
    destruct (found_items s !! u) as [row|] eqn:Hrow.
    + rewrite (count_found_terms_eq s u row Hrow). intros H.
      apply IH in H. lia.
    + rewrite (count_found_terms_no_row s u _ c Hrow).
      destruct (search_texts s) as [|t ts] eqn:Hts; [|discriminate].
      intros H. apply IH in H. cbn [List.filter length]. exact H.
Qed.

(** X13. [get_completion_status] raises KeyError exactly when there is a
    search text and some url of self.urls has no row in found_items.
    Otherwise its total is len(urls) * len(search_texts), its found count is
    the number of pairs of urls x search_texts whose timestamp is set, which
    is never above the total, and [all_items_found] is True exactly when the
    timestamp of every such pair is set. *)
Theorem completion_status_counts (s : SiteMonitor) :
  (get_completion_status s = None <->
   search_texts s <> []
   /\ exists u, In u (urls s) /\ found_items s !! u = None)
  /\ forall found_count total_expected,
       get_completion_status s = Some (found_count, total_expected) ->
       total_expected = length (urls s) * length (search_texts s)
       /\ found_count = count_set s (urls s) (search_texts s)
       /\ found_count <= total_expected
       /\ (all_items_found s = Some true <->
           forall u t, In u (urls s) -> In t (search_texts s) ->
                       is_Some (found_stamp s u t)).
Proof.
  unfold all_items_found, get_completion_status. split.
  - rewrite <- (count_found_urls_none s (urls s) 0).
    destruct (count_found_urls s (urls s) 0); split; congruence.
  - intros fc te.
    destruct (count_found_urls s (urls s) 0) as [c|] eqn:Hc; [|discriminate].
    intros [= <- <-]. apply count_found_urls_some in Hc. cbn [Nat.add] in Hc.
    destruct (count_set_full s (urls s) (search_texts s)) as [Hle Hfull].
    split; [reflexivity|]. split; [exact Hc|]. split; [lia|].
    rewrite Hc. split.
    + intros [= H]. apply Nat.eqb_eq in H.
      intros u t Hu Ht. now apply is_set_true, Hfull.
    + intros H. f_equal. apply Nat.eqb_eq, Hfull.
      intros u t Hu Ht. now apply is_set_true, H.
Qed.

(* ---- Texts found without a record ------------------------------------------ *)

(** A record of the details is a record of one of the found texts. *)
Lemma extract_product_details_from (soup : Soup) (url : string)
    (info : ProductInfo) (found_texts : list string) :
  forall infos,
    _extract_product_details soup found_texts url = Some infos ->
    In info infos ->
    exists t details,
      In t found_texts /\ details_of soup url t = Some details
      /\ In info details.
Proof.
  induction found_texts as [|t rest IH]; intros infos;
    cbn [_extract_product_details]; [intros [= <-] []|].
  destruct (details_of soup url t) as [details|] eqn:Hd; [|discriminate].
  destruct (_extract_product_details soup rest url) as [more|];
    [|discriminate].
  intros [= <-]. rewrite in_app_iff. intros [H|H].
  - exists t, details. split; [now left|now split].
  - destruct (IH more eq_refl H) as (t' & details' & Hin & Hd' & Hi).
    exists t', details'. split; [now right|now split].
Qed.

(** Where the records a check returns come from. *)
Lemma check_single_url_records (task : Task) (self self1 : SiteMonitor)
    (infos : list ProductInfo) (info : ProductInfo) :
  _check_single_url task self = (self1, Some infos) ->
  In info infos ->
  exists html details,
    fetch_page (task_outcomes task) = Some html
    /\ Str.truthy html = true
    /\ details_of (parse html) (task_url task) (info_search_term info)
       = Some details
    /\ In info details
    /\ In (info_search_term info) (search_texts self).
Proof.
  unfold _check_single_url.
  destruct (no_content (fetch_page (task_outcomes task))) eqn:Hno;
    [intros [= <- <-] []|].
  unfold check_for_patterns.
  destruct (fetch_page (task_outcomes task)) as [html|];
    [|intros [= <- <-] []].
  unfold no_content in Hno. cbn [Str.truthy_opt] in Hno.
  apply negb_false_iff in Hno. rewrite Hno. cbn [negb texts_to_check].
  destruct (found_items self !! task_url task) as [row|] eqn:Hrow.
  - destruct (match_terms_found_texts (task_now task)
                (normalized_content_of (parse html)) (task_url task)
                (search_texts self) [] self row Hrow)
      as (self' & extra & row' & E & R & F & M).
    cbn [app] in E. rewrite E.
    destruct extra as [|t0 extra]; [intros [= <- <-] []|].
    destruct (_extract_product_details (parse html) (t0 :: extra)
                (task_url task)) as [[|i0 l]|] eqn:Hd;
      [intros [= <- <-] []| |discriminate].
    intros [= <- <-] Hin.
    destruct (extract_product_details_from _ _ _ _ _ Hd Hin)
      as (t & details & Ht & Hdet & Hin').
    destruct (details_of_names _ _ _ _ _ Hdet Hin') as [_ ->].
    exists html, details. split; [reflexivity|]. split; [exact Hno|].
    split; [exact Hdet|]. split; [exact Hin'|].
    apply list_elem_of_In in Ht. apply M in Ht as (Ht & _).
    now apply list_elem_of_In.
  - rewrite match_terms_no_row by assumption.
    destruct (search_texts self); [intros [= <- <-] []|discriminate].
Qed.

Lemma protocol_not_found (trace : list PairEvent) :
  run_protocol NotFound trace = Some NotFound -> trace = [].
Proof.
  intros H. destruct (protocol_counts _ _ _ H) as [Hc _].
  destruct trace as [|[|ok] rest]; [reflexivity| |discriminate H].
  cbn in Hc. lia.
Qed.

(** A task whose records do not concern the pair leaves the pair alone. *)
Lemma run_task_left_alone_when (pushover : nat -> PushResult) (task : Task)
    (b : bool) (s : SiteMonitor) (u t : string) :
  (forall s1 infos info,
     _check_single_url task s = (s1, Some infos) -> In info infos ->
     ~ (info_found_at info = u /\ info_search_term info = t)) ->
  left_alone u t s (fst (run_task pushover task b s)).
Proof.
  intros Hother. unfold run_task.
  assert (left_alone u t s (fst (_check_single_url task s))) as Hcheck.
  { apply (check_single_url_preserves (left_alone u t s));
      [|apply left_alone_refl].
    intros now t' s1 H. eapply left_alone_trans; [exact H|].
    apply commit_found_left_alone. }
  destruct (_check_single_url task s) as [s1 [[|i rest]|]] eqn:Hc;
    cbn [fst] in *; try assumption.
  eapply left_alone_trans; [exact Hcheck|].
  apply notify_all_left_alone. intros info Hin.
  now apply (Hother s1 (i :: rest) info).
Qed.

Lemma run_task_found_items (pushover : nat -> PushResult) (task : Task)
    (b : bool) (s : SiteMonitor) :
  found_items (fst (run_task pushover task b s))
  = found_items (fst (_check_single_url task s)).
Proof.
  unfold run_task.
  destruct (_check_single_url task s) as [s1 [[|i rest]|]]; cbn [fst];
    try reflexivity.
  apply notify_all_extends.
Qed.

Lemma check_single_url_sets_stamp (task : Task) (s : SiteMonitor)
    (html t : string) :
  fetch_page (task_outcomes task) = Some html ->
  Str.truthy html = true ->
  is_Some (found_items s !! task_url task) ->
  In t (search_texts s) ->
  found_stamp s (task_url task) t = None ->
  Str.contains (_normalize_text t) (normalized_content_of (parse html))
  = true ->
  found_stamp (fst (_check_single_url task s)) (task_url task) t
  = Some (task_now task t).
Proof.
  intros Hfetch Htruthy [row Hrow] Hin Hnone Hc.
  unfold _check_single_url, check_for_patterns, no_content.
  rewrite Hfetch. cbn [Str.truthy_opt]. rewrite Htruthy.
  cbn [negb texts_to_check].
  pose proof (match_terms_stamps (task_now task)
                (normalized_content_of (parse html)) (task_url task)
                (search_texts s) [] s t) as Hst.
  destruct (match_terms_found_texts (task_now task)
              (normalized_content_of (parse html)) (task_url task)
              (search_texts s) [] s row Hrow)
    as (self' & extra & row' & E & R & F & M).
  cbn [app] in E. rewrite E in Hst |- *. cbv zeta in Hst. cbn [fst] in Hst.
  assert (found_stamp self' (task_url task) t = Some (task_now task t)) as H.
  { assert (is_Some (found_stamp self' (task_url task) t)) as [z Hz].
    { apply (found_stamp_row self' _ t row' R). rewrite F.
      assert (is_found row t = false) as ->.
      { pose proof (found_stamp_row s _ t row Hrow) as [K _].
        destruct (is_found row t); [|reflexivity].
        destruct (K eq_refl). congruence. }
      cbn [orb]. apply bool_decide_eq_true_2, M.
      split; [now apply list_elem_of_In|]. split; [exact Hc|].
      pose proof (found_stamp_row s _ t row Hrow) as [K _].
      destruct (is_found row t); [|reflexivity].
      destruct (K eq_refl). congruence. }
    destruct Hst as [Hst|Hst]; congruence. }
  destruct extra as [|t0 extra]; cbn [fst]; [exact H|].
  destruct (_extract_product_details _ _ _) as [[|i l]|]; exact H.
Qed.

(** X10. A search text found on a page where no link, heading or product
    container mentions it, or where [urljoin] raises on the link that
    mentions it, gets its timestamp, and that is all: no notification is
    dispatched for the pair in that check or in any later cycle, and the
    pair stays Found. *)
Theorem found_without_details_is_never_notified
    (pushover : nat -> PushResult) (us ts : list string) (interval : Z)
    (auto : bool) (earlier later : list (list Task)) (task : Task)
    (any_new_found : bool) (html t : string) :
  let s := after_cycles pushover earlier
             (started pushover us ts interval auto) in
  let s1 := fst (run_task pushover task any_new_found s) in
  let s2 := after_cycles pushover later s1 in
  fetch_page (task_outcomes task) = Some html ->
  Str.truthy html = true ->
  In (task_url task) us ->
  In t ts ->
  found_stamp s (task_url task) t = None ->
  Str.contains (_normalize_text t) (normalized_content_of (parse html))
  = true ->
  details_of (parse html) (task_url task) t = Some []
  \/ details_of (parse html) (task_url task) t = None ->
  found_stamp s2 (task_url task) t = Some (task_now task t)
  /\ dispatches_of (task_url task) t (journal s2) = []
  /\ phase s2 (task_url task) t = Found.
Proof.
  cbv zeta. intros Hfetch Htruthy Hu Ht Hnone Hc Hnodetails.
  destruct (reachable_facts pushover us ts interval auto earlier)
    as ((Hsf & Hp) & Hrows & Hus & Hts & _).
  set (s := after_cycles pushover earlier _) in *.
  set (s1 := fst (run_task pushover task any_new_found s)).
  assert (found_stamp s1 (task_url task) t = Some (task_now task t)) as Hs1.
  { unfold found_stamp, s1. rewrite run_task_found_items.
    apply (check_single_url_sets_stamp task s html t); try assumption.
    - apply Hrows. rewrite Hus. now apply list_elem_of_In.
    - now rewrite Hts. }
  assert (left_alone (task_url task) t s s1) as [Hd1 Hg1].
  { apply run_task_left_alone_when. intros s' infos info Hcheck Hin [Hat Hterm].
    destruct (check_single_url_records task s s' infos info Hcheck Hin)
      as (html' & details & Hf' & _ & Hdet & Hin' & _).
    rewrite Hfetch in Hf'. injection Hf' as <-.
    rewrite Hterm in Hdet.
    destruct Hnodetails as [Hno|Hno]; rewrite Hno in Hdet; [|discriminate].
    injection Hdet as <-. destruct Hin'. }
  assert (dispatches_of (task_url task) t (journal s) = []) as Hd0.
  { specialize (Hp (task_url task) t). unfold phase in Hp.
    rewrite Hnone in Hp. apply protocol_not_found in Hp.
    rewrite dispatches_of_eq, Hp. reflexivity. }
  assert (phase s1 (task_url task) t = Found) as Hph1.
  { unfold phase. rewrite Hs1, Hg1.
    destruct (get_sent (task_url task) t s) as [[|]|] eqn:Hg; try reflexivity.
    apply Hsf in Hg as [z Hz]. congruence. }
  destruct (found_pair_is_left_alone pushover later (task_url task) t _ s1 Hs1)
    as [[Hd2 _] Hph2].
  pose proof (after_cycles_extends pushover later s1) as (_ & _ & Hkeep & _).
  split; [now apply Hkeep|]. split; congruence.
Qed.

(* ---- A reported find is progress ------------------------------------------- *)

Lemma filter_length_strict {A} (f g : A -> bool) (l : list A) (x : A) :
  (forall y, f y = true -> g y = true) ->
  In x l -> f x = false -> g x = true ->
  length (List.filter f l) < length (List.filter g l).
Proof.
  intros Hfg Hin Hf Hg. induction l as [|y l IH]; [destruct Hin|].
  pose proof (filter_length_mono f g l Hfg) as Hmono. cbn [List.filter].
  destruct Hin as [->|Hin].
  - rewrite Hf, Hg. cbn [length]. lia.
  - specialize (IH Hin). destruct (f y) eqn:Hfy.
    + rewrite (Hfg y Hfy). cbn [length]. lia.
    + destruct (g y); cbn [length]; lia.
Qed.

Lemma count_set_strict (s s' : SiteMonitor) (us ts : list string)
    (u t : string) :
  extends s s' -> In u us -> In t ts ->
  is_set s u t = false -> is_set s' u t = true ->
  count_set s us ts < count_set s' us ts.
Proof.
  intros He Hu Ht Hf Hg. pose proof He as (_ & _ & Hkeep & _).
  assert (forall u' t', is_set s u' t' = true -> is_set s' u' t' = true)
    as Hmono.
  { intros u' t'. unfold is_set.
    destruct (found_stamp s u' t') as [z|] eqn:Hz; [|discriminate].
    now rewrite (Hkeep _ _ _ Hz). }
  induction us as [|u0 us IH]; [destruct Hu|]. rewrite !count_set_cons.
  pose proof (count_set_mono s s' us ts He) as Hrest.
  pose proof (filter_length_mono (is_set s u0) (is_set s' u0) ts (Hmono u0))
    as Hhead.
  destruct Hu as [->|Hu].
  - pose proof (filter_length_strict (is_set s u) (is_set s' u) ts t
                  (Hmono u) Ht Hf Hg). lia.
  - specialize (IH Hu). lia.
Qed.

Lemma run_task_progress (pushover : nat -> PushResult) (task : Task)
    (b : bool) (s : SiteMonitor) (us : list string) :
  (forall u, is_Some (found_items s !! u) -> In u us) ->
  snd (run_task pushover task b s) = true ->
  b = true
  \/ count_set s us (search_texts s)
     < count_set (fst (run_task pushover task b s)) us (search_texts s).
Proof.
  intros Hdom. pose proof (run_task_extends pushover task b s) as He.
  pose proof (run_task_found_items pushover task b s) as Hfi.
  unfold run_task in *.
  destruct (_check_single_url task s) as [s1 [[|i rest]|]] eqn:Hc;
    cbn [fst snd] in *; try (now left).
  intros _. right.
  destruct (check_single_url_infos task s s1 (i :: rest) i Hc
              (or_introl eq_refl)) as (_ & Hnone & [z Hz]).
  destruct (check_single_url_records task s s1 (i :: rest) i Hc
              (or_introl eq_refl)) as (? & ? & _ & _ & _ & _ & Hterm).
  apply (count_set_strict _ _ us _ (task_url task) (info_search_term i) He).
  - apply Hdom. pose proof (check_single_url_extends task s) as (_ & Hr & _).
    rewrite Hc in Hr. cbn [fst] in Hr. apply Hr.
    unfold found_stamp in Hz. destruct (found_items s1 !! task_url task); eauto.
    discriminate.
  - exact Hterm.
  - unfold is_set. now rewrite Hnone.
  - unfold is_set, found_stamp. rewrite Hfi. fold (found_stamp s1 (task_url task) (info_search_term i)).
    now rewrite Hz.
Qed.

Lemma run_tasks_progress (pushover : nat -> PushResult) (us : list string)
    (tasks : list Task) :
  forall (b : bool) (s : SiteMonitor),
    (forall u, is_Some (found_items s !! u) -> In u us) ->
    snd (run_tasks pushover tasks b s) = true ->
    b = true
    \/ count_set s us (search_texts s)
       < count_set (fst (run_tasks pushover tasks b s)) us (search_texts s).
Proof.
  induction tasks as [|task rest IH]; intros b s Hdom; cbn [run_tasks].
  - now left.
  - pose proof (run_task_progress pushover task b s us Hdom) as H1.
    pose proof (run_task_extends pushover task b s) as He1.
    destruct (run_task pushover task b s) as [s1 b1]; cbn [fst snd] in *.
    pose proof (run_tasks_extends pushover rest b1 s1) as He2.
    assert (search_texts s1 = search_texts s) as Hts by apply He1.
    intros Hres. specialize (IH b1 s1). rewrite Hts in IH.
    destruct IH as [Hb1|Hlt]; [| exact Hres | |].
    + intros u Hu. apply Hdom. now apply He1.
    + destruct (H1 Hb1) as [?|Hlt]; [now left|right].
      pose proof (count_set_mono s1 _ us (search_texts s) He2). lia.
    + right. pose proof (count_set_mono s s1 us (search_texts s) He1). lia.
Qed.

Lemma reachable_rows_are_urls (pushover : nat -> PushResult)
    (us ts : list string) (interval : Z) (auto : bool)
    (cycles : list (list Task)) (u : string) :
  is_Some (found_items
             (after_cycles pushover cycles
                (started pushover us ts interval auto)) !! u)
  <-> In u us.
Proof.
  pose proof (after_cycles_extends pushover cycles
                (started pushover us ts interval auto)) as (_ & Hr & _).
  rewrite Hr. destruct (started_shape pushover us ts interval auto) as [ok ->].
  change (found_items (record_event ?e ?s)) with (found_items s).
  rewrite init_found_items, <- list_elem_of_In.
  case_decide as Hd; split; intros H; eauto; try contradiction.
  destruct H as [? ?]. discriminate.
Qed.

(** X11. When [run_check] returns True, the found count of
    [get_completion_status] after the cycle is above the count before it:
    a reported find always comes with a pair newly found. (The converse
    fails: a text found without a record raises the count while
    [run_check] returns False.) *)
Theorem reported_find_is_progress (pushover : nat -> PushResult)
    (us ts : list string) (interval : Z) (auto : bool)
    (cycles : list (list Task)) (tasks : list Task) :
  let s := after_cycles pushover cycles
             (started pushover us ts interval auto) in
  let run := run_check pushover tasks s in
  snd run = true ->
  exists found_count found_count',
    get_completion_status s = Some (found_count, length us * length ts)
    /\ get_completion_status (fst run)
       = Some (found_count', length us * length ts)
    /\ found_count < found_count'.
Proof.
  cbv zeta. intros Hres.
  destruct (reachable_facts pushover us ts interval auto cycles)
    as (_ & Hrows & Hus & Hts & _).
  destruct (reachable_facts pushover us ts interval auto (cycles ++ [tasks]))
    as (_ & Hrows' & Hus' & Hts' & _).
  rewrite after_cycles_snoc in Hrows', Hus', Hts'.
  eexists _, _.
  rewrite (completion_status_eq _ Hrows), (completion_status_eq _ Hrows').
  rewrite Hus, Hts, Hus', Hts'.
  split; [reflexivity|]. split; [reflexivity|].
  unfold run_check in *.
  destruct (run_tasks_progress pushover us tasks false _
              (fun u => proj1 (reachable_rows_are_urls pushover us ts interval
                                 auto cycles u)) Hres) as [?|H];
    [discriminate|].
  now rewrite Hts in H.
Qed.

(* ---- The keys of the tables ------------------------------------------------ *)











Lemma started_keys (pushover : nat -> PushResult) (us ts : list string)
    (interval : Z) (auto : bool) :
  keys_are us ts (started pushover us ts interval auto).
Proof.
  destruct (started_shape pushover us ts interval auto) as [ok ->].
  assert (forall {V} (v : V) u t,
             is_Some (match (if decide (u ∈ us)
                             then Some (empty_row v ts) else None) with
                      | Some row => row !! t
                      | None => None
                      end)
             <-> In u us /\ In t ts) as Hentry.
  { intros V v u t. rewrite <- !list_elem_of_In.
    destruct (decide (u ∈ us)) as [Hu|Hu].
    - rewrite empty_row_lookup. destruct (decide (t ∈ ts)) as [Ht|Ht].
      + split; eauto.
      + split; [intros [? ?]; discriminate|tauto].
    - split; [intros [? ?]; discriminate|tauto]. }
  split; [reflexivity|]. split; [|split].
  - intros u. change (found_items (record_event ?e ?s)) with (found_items s).
    rewrite init_found_items, <- list_elem_of_In.
    destruct (decide (u ∈ us)); split; eauto; try tauto.
    intros [? ?]; discriminate.
  - intros u t. unfold found_entry.
    change (found_items (record_event ?e ?s)) with (found_items s).
    rewrite init_found_items. apply Hentry.
  - intros u t. unfold get_sent.
    change (notification_sent (record_event ?e ?s))
      with (notification_sent s).
    rewrite init_notification_sent. apply Hentry.
Qed.


End Monitor.

(* ===================================================================== *)
(* Properties of the normaliser on every str                             *)
(* ===================================================================== *)

Lemma unicode_alnum_is_no_space (c : N) :
  Unicode.is_lower_alnum c = true -> Unicode.is_space c = false.
Proof.
  unfold Unicode.is_lower_alnum, Unicode.is_space, Unicode.between.
  rewrite orb_true_iff, !andb_true_iff, !N.leb_le.
  intros H. rewrite !orb_false_iff, !andb_false_iff, !N.leb_gt, !N.eqb_neq.
  lia.
Qed.

Lemma unicode_space_is_space : Unicode.is_space 32 = true.
Proof. reflexivity. Qed.

Lemma unicode_sub_delimiters_kept (s : Unicode.str) :
  forallb (fun c => Unicode.is_lower_alnum c || Unicode.is_space c)%bool
          (Unicode.sub_delimiters s) = true.
Proof.
  induction s as [|c r IH]; [reflexivity|].
  cbn [Unicode.sub_delimiters forallb]. rewrite IH, andb_true_r.
  destruct (Unicode.is_lower_alnum c || Unicode.is_space c)%bool eqn:H;
    [exact H|reflexivity].
Qed.

Lemma unicode_sub_space_runs_spaced (s : Unicode.str) :
  forall in_run : bool,
    forallb (fun c => Unicode.is_lower_alnum c || Unicode.is_space c)%bool s
    = true ->
    Unicode.spaced in_run (Unicode.sub_space_runs_from in_run s) = true.
Proof.
  induction s as [|c r IH]; intros in_run Hkept; [reflexivity|].
  cbn [forallb] in Hkept. apply andb_true_iff in Hkept as [Hc Hr].
  cbn [Unicode.sub_space_runs_from].
  destruct (Unicode.is_space c) eqn:Hs.
  - destruct in_run; [now apply IH|]. cbn [Unicode.spaced].
    change (Unicode.is_lower_alnum 32) with false. cbn.
    now apply IH.
  - rewrite orb_false_r in Hc. cbn [Unicode.spaced]. rewrite Hc.
    now apply IH.
Qed.

Lemma unicode_spaced_weaken (s : Unicode.str) (b : bool) :
  Unicode.spaced true s = true -> Unicode.spaced b s = true.
Proof.
  destruct s as [|c r]; [reflexivity|]. cbn [Unicode.spaced].
  destruct (Unicode.is_lower_alnum c); [auto|]. cbn.
  rewrite andb_false_r. discriminate.
Qed.

Lemma unicode_lstrip_spaced (s : Unicode.str) :
  forall b : bool,
    Unicode.spaced b s = true ->
    Unicode.spaced true (Unicode.lstrip s) = true.
Proof.
  induction s as [|c r IH]; intros b H; [reflexivity|].
  cbn [Unicode.spaced] in H. cbn [Unicode.lstrip].
  destruct (Unicode.is_lower_alnum c) eqn:Ha.
  - rewrite (unicode_alnum_is_no_space c Ha). cbn [Unicode.spaced].
    now rewrite Ha.
  - apply andb_true_iff in H as [H Hr]. apply andb_true_iff in H as [Hc _].
    apply N.eqb_eq in Hc. subst c.
    rewrite unicode_space_is_space. now apply (IH true).
Qed.

Lemma unicode_rstrip_cons (c : N) (r : Unicode.str) :
  Unicode.rstrip (c :: r)
  = match Unicode.rstrip r with
    | [] => if Unicode.is_space c then [] else [c]
    | c' :: r' => c :: c' :: r'
    end.
Proof. reflexivity. Qed.

Lemma unicode_rstrip_spaced (s : Unicode.str) :
  forall b : bool,
    Unicode.spaced b s = true ->
    Unicode.spaced b (Unicode.rstrip s) = true.
Proof.
  induction s as [|c r IH]; intros b H; [reflexivity|].
  cbn [Unicode.spaced] in H. rewrite unicode_rstrip_cons.
  destruct (Unicode.is_lower_alnum c) eqn:Ha.
  - specialize (IH false H).
    destruct (Unicode.rstrip r) as [|c' r'].
    + rewrite (unicode_alnum_is_no_space c Ha). cbn [Unicode.spaced].
      now rewrite Ha.
    + cbn [Unicode.spaced] in *. rewrite Ha. exact IH.
  - apply andb_true_iff in H as [H Hr]. apply andb_true_iff in H as [Hc Hb].
    specialize (IH true Hr).
    destruct (Unicode.rstrip r) as [|c' r'].
    + apply N.eqb_eq in Hc. subst c. now rewrite unicode_space_is_space.
    + cbn [Unicode.spaced] in *. rewrite Ha, Hc, Hb. exact IH.
Qed.

Lemma unicode_spaced_normal_chars (s : Unicode.str) :
  forall b : bool,
    Unicode.spaced b s = true -> forallb Unicode.is_normal_char s = true.
Proof.
  induction s as [|c r IH]; intros b H; [reflexivity|].
  cbn [Unicode.spaced] in H. cbn [forallb]. unfold Unicode.is_normal_char at 1.
  destruct (Unicode.is_lower_alnum c) eqn:Ha; cbn [orb andb];
    [now apply (IH false)|].
  apply andb_true_iff in H as [H Hr]. apply andb_true_iff in H as [Hc _].
  rewrite Hc. now apply (IH true).
Qed.

Lemma unicode_spaced_no_double_space (s : Unicode.str) :
  forall b : bool,
    Unicode.spaced b s = true -> Unicode.contains [32; 32]%N s = false.
Proof.
  induction s as [|c r IH]; intros b H; [reflexivity|].
  cbn [Unicode.spaced] in H. cbn [Unicode.contains].
  destruct (Unicode.is_lower_alnum c) eqn:Ha.
  - rewrite (IH false H), orb_false_r. cbn [Unicode.starts_with].
    destruct (N.eqb_spec 32 c) as [<-|]; [discriminate Ha|reflexivity].
  - apply andb_true_iff in H as [H Hr]. apply andb_true_iff in H as [Hc _].
    rewrite (IH true Hr), orb_false_r. cbn [Unicode.starts_with].
    destruct r as [|c' r']; [now rewrite andb_false_r|].
    cbn [Unicode.spaced] in Hr.
    destruct (N.eqb_spec 32 c') as [<-|]; [|now rewrite andb_false_r].
    change (Unicode.is_lower_alnum 32) with false in Hr. cbn in Hr.
    discriminate.
Qed.

Lemma unicode_sub_delimiters_normal (s : Unicode.str) :
  forallb Unicode.is_normal_char s = true -> Unicode.sub_delimiters s = s.
Proof.
  induction s as [|c r IH]; [reflexivity|].
  cbn [forallb Unicode.sub_delimiters].
  intros H. apply andb_true_iff in H as [Hc Hr]. rewrite (IH Hr). f_equal.
  unfold Unicode.is_normal_char in Hc. apply orb_true_iff in Hc as [Ha|Hsp].
  - now rewrite Ha.
  - apply N.eqb_eq in Hsp. now subst c.
Qed.

Lemma unicode_sub_space_runs_normal (s : Unicode.str) :
  forall b : bool,
    Unicode.spaced b s = true -> Unicode.sub_space_runs_from b s = s.
Proof.
  induction s as [|c r IH]; intros b H; [reflexivity|].
  cbn [Unicode.spaced] in H. cbn [Unicode.sub_space_runs_from].
  destruct (Unicode.is_lower_alnum c) eqn:Ha.
  - rewrite (unicode_alnum_is_no_space c Ha). now rewrite (IH false H).
  - apply andb_true_iff in H as [H Hr]. apply andb_true_iff in H as [Hc Hb].
    apply N.eqb_eq in Hc. subst c. apply negb_true_iff in Hb. subst b.
    rewrite unicode_space_is_space. now rewrite (IH true Hr).
Qed.

Lemma unicode_rstrip_twice (s : Unicode.str) :
  Unicode.rstrip (Unicode.rstrip s) = Unicode.rstrip s.
Proof.
  induction s as [|c r IH]; [reflexivity|]. rewrite unicode_rstrip_cons.
  destruct (Unicode.rstrip r) as [|c' r'] eqn:Hr.
  - destruct (Unicode.is_space c) eqn:Hs; [reflexivity|].
    cbn [Unicode.rstrip]. now rewrite Hs.
  - rewrite (unicode_rstrip_cons c (c' :: r')). now rewrite IH.
Qed.

Lemma unicode_rstrip_head (s : Unicode.str) :
  match Unicode.rstrip s with
  | [] => True
  | c :: _ => exists r, s = c :: r
  end.
Proof.
  destruct s as [|c r]; [exact I|]. rewrite unicode_rstrip_cons.
  destruct (Unicode.rstrip r); [destruct (Unicode.is_space c)|]; eauto.
Qed.

Lemma unicode_lstrip_head (s : Unicode.str) :
  match Unicode.lstrip s with
  | [] => True
  | c :: _ => Unicode.is_space c = false
  end.
Proof.
  induction s as [|c r IH]; [exact I|]. cbn [Unicode.lstrip].
  destruct (Unicode.is_space c) eqn:Hs; [exact IH|exact Hs].
Qed.

Lemma unicode_strip_twice (s : Unicode.str) :
  Unicode.strip (Unicode.strip s) = Unicode.strip s.
Proof.
  unfold Unicode.strip.
  assert (Unicode.lstrip (Unicode.rstrip (Unicode.lstrip s))
          = Unicode.rstrip (Unicode.lstrip s))
    as ->; [|apply unicode_rstrip_twice].
  pose proof (unicode_lstrip_head s) as Hl.
  pose proof (unicode_rstrip_head (Unicode.lstrip s)) as Hr.
  destruct (Unicode.rstrip (Unicode.lstrip s)) as [|c r]; [reflexivity|].
  destruct Hr as [r0 Hr0]. rewrite Hr0 in Hl. cbn [Unicode.lstrip].
  now rewrite Hl.
Qed.

Lemma unicode_slice_to_length (s : Unicode.str) :
  forall n : N,
    (N.of_nat (length (Unicode.slice_to n s)) <= n)%N
    /\ length (Unicode.slice_to n s) <= length s.
Proof.
  induction s as [|c r IH]; intros n; cbn [Unicode.slice_to].
  - cbn. split; lia.
  - destruct (N.eqb_spec n 0) as [->|Hn]; [cbn; split; lia|].
    destruct (IH (N.pred n)) as [H1 H2]. cbn [length]. split; lia.
Qed.

Lemma unicode_slice_to_all (s : Unicode.str) :
  forall n : N, (N.of_nat (length s) <= n)%N -> Unicode.slice_to n s = s.
Proof.
  induction s as [|c r IH]; intros n H; [reflexivity|].
  cbn [Unicode.slice_to length] in *.
  destruct (N.eqb_spec n 0) as [->|Hn]; [lia|].
  rewrite IH; [reflexivity|lia].
Qed.

Lemma unicode_sub_delimiters_length (s : Unicode.str) :
  length (Unicode.sub_delimiters s) = length s.
Proof. induction s as [|c r IH]; cbn; congruence. Qed.

Lemma unicode_sub_space_runs_length (s : Unicode.str) :
  forall b : bool, length (Unicode.sub_space_runs_from b s) <= length s.
Proof.
  induction s as [|c r IH]; intros b; cbn [Unicode.sub_space_runs_from];
    [lia|].
  destruct (Unicode.is_space c); [destruct b|]; cbn [length];
    [specialize (IH true)|specialize (IH true)|specialize (IH false)]; lia.
Qed.

Lemma unicode_lstrip_length (s : Unicode.str) :
  length (Unicode.lstrip s) <= length s.
Proof.
  induction s as [|c r IH]; cbn [Unicode.lstrip]; [lia|].
  destruct (Unicode.is_space c); cbn [length]; lia.
Qed.

Lemma unicode_rstrip_length (s : Unicode.str) :
  length (Unicode.rstrip s) <= length s.
Proof.
  induction s as [|c r IH]; [cbn; lia|]. rewrite unicode_rstrip_cons.
  destruct (Unicode.rstrip r); [destruct (Unicode.is_space c)|];
    cbn [length] in *; lia.
Qed.

(** The normaliser after the guard, the slice and [lower]. *)
Lemma unicode_normalized_spaced (s : Unicode.str) :
  Unicode.spaced true
    (Unicode.strip (Unicode.sub_space_runs (Unicode.sub_delimiters s)))
  = true.
Proof.
  unfold Unicode.strip, Unicode.sub_space_runs.
  apply unicode_rstrip_spaced, (unicode_lstrip_spaced _ false),
    unicode_sub_space_runs_spaced, unicode_sub_delimiters_kept.
Qed.

Lemma unicode_normalized_length (s : Unicode.str) :
  length (Unicode.strip (Unicode.sub_space_runs (Unicode.sub_delimiters s)))
  <= length s.
Proof.
  unfold Unicode.strip, Unicode.sub_space_runs.
  pose proof (unicode_rstrip_length
                (Unicode.lstrip
                   (Unicode.sub_space_runs_from false
                      (Unicode.sub_delimiters s)))).
  pose proof (unicode_lstrip_length
                (Unicode.sub_space_runs_from false
                   (Unicode.sub_delimiters s))).
  pose proof (unicode_sub_space_runs_length (Unicode.sub_delimiters s) false).
  rewrite unicode_sub_delimiters_length in *. lia.
Qed.

Section UnicodeNormalizer.

Variable lower : Unicode.str -> Unicode.str.

(** What the statements use of [str.lower()]: it leaves a text of a-z, 0-9
    and spaces as it is, and the empty text empty. *)
Hypothesis lower_normal :
  forall s, forallb Unicode.is_normal_char s = true -> lower s = s.
Hypothesis lower_empty : lower [] = [].

Lemma unicode_normalize_spaced (s : Unicode.str) :
  Unicode.spaced true (Unicode._normalize_text lower s) = true.
Proof.
  destruct s as [|c r]; [reflexivity|]. apply unicode_normalized_spaced.
Qed.

(** X2. Whatever the text, Latin-1 or not, the normalised text is made of
    a-z, 0-9 and spaces only, has no space at either end and no two spaces
    in a row, and is not longer than the lower-cased slice it is made from.
    When [lower] did not lengthen the slice, it is not longer than the
    text nor than TEXT_LIMIT; when it did (a text with U+0130), it can be
    longer than both. *)
Theorem normalize_text_shape (s : Unicode.str) :
  let out := Unicode._normalize_text lower s in
  let lowered := lower (Unicode.slice_to TEXT_LIMIT s) in
  forallb Unicode.is_normal_char out = true
  /\ Unicode.strip out = out
  /\ Unicode.contains [32; 32]%N out = false
  /\ length out <= length lowered
  /\ (length lowered <= length (Unicode.slice_to TEXT_LIMIT s) ->
      length out <= length s
      /\ (N.of_nat (length out) <= TEXT_LIMIT)%N).
Proof.
  cbv zeta. pose proof (unicode_normalize_spaced s) as Hsp.
  split; [now apply (unicode_spaced_normal_chars _ true)|].
  split; [destruct s; [reflexivity|apply unicode_strip_twice]|].
  split; [now apply (unicode_spaced_no_double_space _ true)|].
  assert (length (Unicode._normalize_text lower s)
          <= length (lower (Unicode.slice_to TEXT_LIMIT s))) as Hlen.
  { destruct s as [|c r]; [cbn; lia|]. apply unicode_normalized_length. }
  split; [exact Hlen|]. intros Hlow.
  destruct (unicode_slice_to_length s TEXT_LIMIT) as [Hn Hs]. split; lia.
Qed.

(** X1. Normalising a normalised text of at most TEXT_LIMIT characters
    changes nothing. (A normalised text is longer than TEXT_LIMIT only when
    [lower] lengthened the slice; the second normalisation then cuts it.) *)
Theorem normalize_text_idempotent (s : Unicode.str) :
  (N.of_nat (length (Unicode._normalize_text lower s)) <= TEXT_LIMIT)%N ->
  Unicode._normalize_text lower (Unicode._normalize_text lower s)
  = Unicode._normalize_text lower s.
Proof.
  intros Hlimit. pose proof (unicode_normalize_spaced s) as Hsp.
  pose proof (unicode_spaced_normal_chars _ true Hsp) as Hchars.
  assert (Unicode.strip (Unicode._normalize_text lower s)
          = Unicode._normalize_text lower s) as Hstrip
    by (destruct s; [reflexivity|apply unicode_strip_twice]).
  destruct (Unicode._normalize_text lower s) as [|c out] eqn:E;
    [reflexivity|].
  change (Unicode._normalize_text lower (c :: out))
    with (Unicode.strip
            (Unicode.sub_space_runs
               (Unicode.sub_delimiters
                  (lower (Unicode.slice_to TEXT_LIMIT (c :: out)))))).
  rewrite (unicode_slice_to_all _ _ Hlimit), (lower_normal _ Hchars).
  rewrite (unicode_sub_delimiters_normal _ Hchars).
  unfold Unicode.sub_space_runs.
  rewrite unicode_sub_space_runs_normal; [exact Hstrip|].
  now apply unicode_spaced_weaken.
Qed.


End UnicodeNormalizer.

(* ---- The two models of the normaliser agree on Latin-1 ------------------- *)

Lemma latin1_is_space (c : ascii) :
  Unicode.is_space (N_of_ascii c) = Str.is_space c.
Proof. destruct c as [[] [] [] [] [] [] [] []]; reflexivity. Qed.

Lemma latin1_is_lower_alnum (c : ascii) :
  Unicode.is_lower_alnum (N_of_ascii c) = Str.is_lower_alnum c.
Proof. reflexivity. Qed.

Lemma latin1_code_point (c : ascii) : (N_of_ascii c <? 256)%N = true.
Proof. destruct c as [[] [] [] [] [] [] [] []]; reflexivity. Qed.

Lemma latin1_slice_to (s : string) :
  forall n : N,
    Unicode.slice_to n (Unicode.of_string s)
    = Unicode.of_string (Str.slice_to n s).
Proof.
  induction s as [|c r IH]; intros n; [reflexivity|].
  cbn [Unicode.of_string Unicode.slice_to Str.slice_to].
  destruct (n =? 0)%N; [reflexivity|]. cbn [Unicode.of_string]. now rewrite IH.
Qed.

Lemma latin1_lower_of_string (s : string) :
  Unicode.latin1_lower (Unicode.of_string s) = Unicode.of_string (Str.lower s).
Proof.
  induction s as [|c r IH]; [reflexivity|].
  cbn [Unicode.of_string Str.lower]. unfold Unicode.latin1_lower in *.
  cbn [map]. now rewrite IH, latin1_code_point, ascii_N_embedding.
Qed.

Lemma latin1_sub_delimiters (s : string) :
  Unicode.sub_delimiters (Unicode.of_string s)
  = Unicode.of_string (Str.sub_delimiters s).
Proof.
  induction s as [|c r IH]; [reflexivity|].
  cbn [Unicode.of_string Unicode.sub_delimiters Str.sub_delimiters].
  rewrite IH, latin1_is_space, latin1_is_lower_alnum.
  now destruct (Str.is_lower_alnum c || Str.is_space c)%bool.
Qed.

Lemma latin1_sub_space_runs (s : string) :
  forall in_run : bool,
    Unicode.sub_space_runs_from in_run (Unicode.of_string s)
    = Unicode.of_string (Str.sub_space_runs_from in_run s).
Proof.
  induction s as [|c r IH]; intros in_run; [reflexivity|].
  cbn [Unicode.of_string Unicode.sub_space_runs_from Str.sub_space_runs_from].
  rewrite latin1_is_space, !IH.
  destruct (Str.is_space c); [destruct in_run|]; reflexivity.
Qed.

Lemma latin1_lstrip (s : string) :
  Unicode.lstrip (Unicode.of_string s) = Unicode.of_string (Str.lstrip s).
Proof.
  induction s as [|c r IH]; [reflexivity|].
  cbn [Unicode.of_string Unicode.lstrip Str.lstrip].
  rewrite latin1_is_space, IH. now destruct (Str.is_space c).
Qed.

Lemma latin1_rstrip (s : string) :
  Unicode.rstrip (Unicode.of_string s) = Unicode.of_string (Str.rstrip s).
Proof.
  induction s as [|c r IH]; [reflexivity|].
  cbn [Unicode.of_string]. rewrite unicode_rstrip_cons, rstrip_cons, IH.
  rewrite latin1_is_space.
  destruct (Str.rstrip r); [destruct (Str.is_space c)|]; reflexivity.
Qed.

(** On a text of Latin-1 the normaliser on code points is the normaliser
    on strings. *)
Lemma normalize_text_on_latin1 (s : string) :
  Unicode._normalize_text Unicode.latin1_lower (Unicode.of_string s)
  = Unicode.of_string (_normalize_text s).
Proof.
  destruct s as [|c r]; [reflexivity|].
  change (Unicode.of_string (String c r))
    with (N_of_ascii c :: Unicode.of_string r).
  unfold Unicode._normalize_text, _normalize_text. cbn [Str.truthy negb].
  cbv zeta.
  change (N_of_ascii c :: Unicode.of_string r)
    with (Unicode.of_string (String c r)).
  rewrite latin1_slice_to, latin1_lower_of_string, latin1_sub_delimiters.
  unfold Unicode.sub_space_runs, Unicode.strip, Str.sub_space_runs, Str.strip.
  now rewrite latin1_sub_space_runs, latin1_lstrip, latin1_rstrip.
Qed.

Lemma latin1_lower_normal (s : Unicode.str) :
  forallb Unicode.is_normal_char s = true -> Unicode.latin1_lower s = s.
Proof.
  induction s as [|c r IH]; [reflexivity|]. cbn [forallb].
  intros H. apply andb_true_iff in H as [Hc Hr].
  unfold Unicode.latin1_lower in *. cbn [map]. rewrite (IH Hr). f_equal.
  assert (c < 256)%N as Hlt.
  { unfold Unicode.is_normal_char, Unicode.is_lower_alnum, Unicode.between
      in Hc.
    rewrite !orb_true_iff, !andb_true_iff, !N.leb_le, N.eqb_eq in Hc. lia. }
  rewrite (proj2 (N.ltb_lt c 256) Hlt).
  pose proof (N_ascii_embedding c Hlt) as Ha. clear Hlt IH Hr.
  revert Ha. generalize (ascii_of_N c) as a. intros a <-.
  revert Hc. destruct a as [[] [] [] [] [] [] [] []]; vm_compute; congruence.
Qed.

(* ===================================================================== *)
(* Properties of the configuration                                       *)
(* ===================================================================== *)

(* ---- _validate_url: the range 172.16 to 172.31 --------------------------- *)

Lemma decimal_digits (n : nat) :
  all_chars (Str.between 48 57) (decimal n) = true.
Proof.
  unfold decimal. generalize (Nat.to_uint n) as d.
  induction d as [|d IH|d IH|d IH|d IH|d IH|d IH|d IH|d IH|d IH|d IH];
    cbn [NilEmpty.string_of_uint all_chars]; [reflexivity|..];
    rewrite IH; reflexivity.
Qed.

Lemma decimal_inj (n m : nat) : decimal n = decimal m -> n = m.
Proof.
  unfold decimal. intros H.
  apply (f_equal NilEmpty.uint_of_string) in H.
  rewrite !NilEmpty.usu in H. injection H as H.
  apply (f_equal Nat.of_uint) in H.
  now rewrite !DecimalNat.Unsigned.of_to in H.
Qed.

Lemma digits_stop (a : string) :
  forall b x y,
    all_chars (Str.between 48 57) a = true ->
    all_chars (Str.between 48 57) b = true ->
    a +:+ String "."%char x = b +:+ String "."%char y ->
    a = b.
Proof.
  induction a as [|c a IH]; intros [|d b] x y Ha Hb H;
    rewrite ?str_app_cons, ?str_app_nil_l in H.
  - reflexivity.
  - injection H as <- _. cbn in Hb. discriminate.
  - injection H as -> _. cbn in Ha. discriminate.
  - injection H as -> H. cbn [all_chars] in Ha, Hb.
    apply andb_prop in Ha as [_ Ha]. apply andb_prop in Hb as [_ Hb].
    f_equal. exact (IH b x y Ha Hb H).
Qed.

Lemma starts_with_172 (i n : nat) (rest : string) :
  Str.starts_with ("172." +:+ decimal i +:+ ".")
                  ("172." +:+ decimal n +:+ "." +:+ rest) = true
  <-> i = n.
Proof.
  split.
  - intros H. apply starts_with_split in H as [r H].
    rewrite !str_app_assoc, !str_app_cons, !str_app_nil_l in H.
    injection H as H.
    apply digits_stop in H; auto using decimal_digits.
    symmetry. now apply decimal_inj.
  - intros ->.
    replace ("172." +:+ decimal n +:+ "." +:+ rest)
      with (("172." +:+ decimal n +:+ ".") +:+ rest)
      by now rewrite !str_app_assoc.
    apply starts_with_app.
Qed.

Lemma private_172_range (n : nat) (rest : string) :
  private_172 ("172." +:+ decimal n +:+ "." +:+ rest)
  = ((16 <=? n)%nat && (n <=? 31)%nat)%bool.
Proof.
  unfold private_172.
  replace (Str.starts_with "172." ("172." +:+ decimal n +:+ "." +:+ rest))
    with true by (symmetry; apply starts_with_app).
  cbn [andb]. apply eq_true_iff_eq.
  rewrite existsb_exists, andb_true_iff, !Nat.leb_le. split.
  - intros (i & Hi & H). apply in_seq in Hi.
    apply starts_with_172 in H. lia.
  - intros H. exists n. split; [apply in_seq; lia|]. now apply starts_with_172.
Qed.

Lemma blocked_host_172 (n : nat) (rest : string) :
  blocked_host ("172." +:+ decimal n +:+ "." +:+ rest)
  = ((16 <=? n)%nat && (n <=? 31)%nat)%bool.
Proof.
  unfold blocked_host. rewrite private_172_range.
  rewrite !str_app_cons, str_app_nil_l. reflexivity.
Qed.

(* ---- split(','), strip(): the entries of a comma-separated value -------- *)

Lemma str_split_pieces (sep : ascii) (s : string) :
  str_split sep s <> []
  /\ Forall (fun piece =>
               all_chars (fun c => negb (Ascii.eqb c sep)) piece = true)
            (str_split sep s).
Proof.
  induction s as [|c s [Hne IH]]; cbn [str_split].
  - split; [discriminate|]. now constructor.
  - destruct (Ascii.eqb c sep) eqn:Hc.
    + split; [discriminate|]. now constructor.
    + destruct (str_split sep s) as [|piece pieces]; [congruence|].
      split; [discriminate|]. inversion IH as [|? ? Hp Hps]; subst.
      constructor; [|assumption]. cbn [all_chars]. now rewrite Hc, Hp.
Qed.

(** [','.join] undoes [split(',')]. *)
Lemma join_str_split (sep : ascii) (s : string) :
  Str.join (String sep "") (str_split sep s) = s.
Proof.
  induction s as [|c s IH]; [reflexivity|]. cbn [str_split].
  pose proof (proj1 (str_split_pieces sep s)) as Hne.
  destruct (Ascii.eqb c sep) eqn:Hc.
  - apply Ascii.eqb_eq in Hc as ->.
    destruct (str_split sep s) as [|piece pieces]; [congruence|].
    change (Str.join (String sep "") ("" :: piece :: pieces))
      with ("" +:+ String sep "" +:+ Str.join (String sep "") (piece :: pieces)).
    now rewrite IH.
  - destruct (str_split sep s) as [|piece pieces]; [congruence|].
    destruct pieces as [|piece' pieces].
    + cbn [Str.join] in *. now rewrite IH.
    + change (Str.join (String sep "") (String c piece :: piece' :: pieces))
        with (String c piece +:+ String sep ""
              +:+ Str.join (String sep "") (piece' :: pieces)).
      change (Str.join (String sep "") (piece :: piece' :: pieces))
        with (piece +:+ String sep ""
              +:+ Str.join (String sep "") (piece' :: pieces)) in IH.
      now rewrite str_app_cons, IH.
Qed.

Lemma lstrip_all_chars (p : ascii -> bool) (s : string) :
  all_chars p s = true -> all_chars p (Str.lstrip s) = true.
Proof.
  induction s as [|c s IH]; [easy|]. intros H. cbn [Str.lstrip].
  destruct (Str.is_space c); [|exact H].
  cbn [all_chars] in H. apply andb_prop in H as [_ H]. auto.
Qed.

Lemma rstrip_all_chars (p : ascii -> bool) (s : string) :
  all_chars p s = true -> all_chars p (Str.rstrip s) = true.
Proof.
  induction s as [|c s IH]; [easy|]. intros H. rewrite rstrip_cons.
  cbn [all_chars] in H. apply andb_prop in H as [Hc H]. specialize (IH H).
  destruct (Str.rstrip s).
  - destruct (Str.is_space c); [reflexivity|]. cbn [all_chars]. now rewrite Hc.
  - cbn [all_chars] in *. now rewrite Hc, IH.
Qed.

Lemma all_chars_not_contains (c : ascii) (s : string) :
  all_chars (fun d => negb (Ascii.eqb d c)) s = true ->
  Str.contains (String c "") s = false.
Proof.
  induction s as [|d s IH]; [reflexivity|]. cbn [all_chars]. intros H.
  apply andb_prop in H as [Hd H]. rewrite contains_cons, (IH H).
  cbn [Str.starts_with]. rewrite Ascii.eqb_sym.
  apply negb_true_iff in Hd. now rewrite Hd.
Qed.

Lemma entries_shape (value e : string) :
  In e (entries value) ->
  e <> "" /\ Str.strip e = e /\ Str.contains "," e = false.
Proof.
  unfold entries. rewrite filter_In, in_map_iff.
  intros [(piece & <- & Hin) Ht]. split; [|split].
  - intros He. now rewrite He in Ht.
  - apply strip_twice.
  - apply all_chars_not_contains. unfold Str.strip.
    apply rstrip_all_chars, lstrip_all_chars.
    pose proof (proj2 (str_split_pieces ","%char value)) as Hall.
    rewrite List.Forall_forall in Hall. now apply Hall.
Qed.

Lemma firstn_In {A} (n : nat) (l : list A) (x : A) :
  In x (firstn n l) -> In x l.
Proof.
  revert l. induction n as [|n IH]; intros [|y l]; cbn; try tauto.
  intros [->|H]; auto.
Qed.

(* ---- _validate_config ---------------------------------------------------- *)

Lemma validate_config_passes (token user : option string)
    (us ts : list string) (interval : Z) :
  _validate_config token user us ts interval = None
  <-> Str.truthy_opt token = true /\ Str.truthy_opt user = true
      /\ us <> [] /\ ts <> [] /\ (10 <= interval)%Z.
Proof.
  unfold _validate_config, config_errors.
  destruct (Str.truthy_opt token), (Str.truthy_opt user), us, ts,
    (Z.ltb_spec interval 10); cbn; split;
    try discriminate; try (intros (? & ? & ? & ? & ?); congruence || lia);
    intros _; repeat split; try discriminate; lia.
Qed.

Lemma validate_config_error (token user : option string)
    (us ts : list string) (interval : Z) (error : InitError) :
  _validate_config token user us ts interval = Some error ->
  us <> [] ->
  exists message,
    error = ValueError message
    /\ Str.starts_with "Configuration validation failed: " message = true
    /\ Str.contains "MONITOR_URL environment variable cannot be empty"
         message = false.
Proof.
  unfold _validate_config, config_errors. intros H Hus.
  destruct us as [|u us]; [congruence|].
  destruct (Str.truthy_opt token), (Str.truthy_opt user), ts,
    (interval <? 10)%Z; cbn in H; try discriminate;
    injection H as <-; eexists; (split; [reflexivity|]);
    split; vm_compute; reflexivity.
Qed.

Lemma init_keys (us ts : list string) (interval : Z) (auto : bool) :
  keys_are us ts (__init__ us ts interval auto).
Proof.
  pose proof (started_keys text_page join_path (fun _ => PushStatus 200)
                us ts interval auto) as H.
  destruct (started_shape (fun _ => PushStatus 200) us ts interval auto)
    as [ok E].
  rewrite E in H. exact H.
Qed.

Section ConfigurationProperties.

Variable urlparse : string -> option ParsedUrl.
Variable int_of_str : string -> option Z.
Variable json_loads : string -> option Json.

(** X14. Of the hosts 172.N.rest, where N is a number in decimal, exactly
    those with 16 <= N <= 31 are refused: the url of such a host, with
    scheme http or https, is valid when N is outside that range and invalid
    inside it. So 172.160.0.1 or 172.3.0.1 pass, 172.16.0.1 does not. *)
Theorem validate_url_private_172 (url : string) (parsed : ParsedUrl)
    (n : nat) (rest : string) :
  urlparse url = Some parsed ->
  scheme parsed = "http" \/ scheme parsed = "https" ->
  netloc parsed <> "" ->
  hostname parsed = Some ("172." +:+ decimal n +:+ "." +:+ rest) ->
  _validate_url urlparse url = negb ((16 <=? n)%nat && (n <=? 31)%nat)%bool.
Proof.
  intros Hp Hs Hn Hh. unfold _validate_url. rewrite Hp, Hh.
  assert (Str.truthy (netloc parsed) = true) as ->
    by (destruct (netloc parsed); [congruence|reflexivity]).
  assert (Str.truthy_opt (Some ("172." +:+ decimal n +:+ "." +:+ rest))
          = true) as ->
    by (rewrite !str_app_cons; reflexivity).
  rewrite blocked_host_172.
  destruct Hs as [-> | ->]; cbn; now destruct (_ && _)%bool.
Qed.

Lemma load_search_texts_shape (environ : Environ) (t : string) :
  In t (load_search_texts environ) ->
  t <> "" /\ Str.strip t = t /\ Str.contains "," t = false.
Proof.
  unfold load_search_texts.
  assert (In t [default_search_text] ->
          t <> "" /\ Str.strip t = t /\ Str.contains "," t = false) as Hd.
  { intros [<-|[]]. split; [discriminate|split; reflexivity]. }
  destruct (environ "SEARCH_TEXT") as [v|]; [|exact Hd].
  destruct (Str.truthy v); [|exact Hd].
  intros H. apply firstn_In in H. exact (entries_shape v t H).
Qed.

Lemma load_search_texts_length (environ : Environ) :
  length (load_search_texts environ) <= MAX_SEARCH_TERMS.
Proof.
  unfold load_search_texts, MAX_SEARCH_TERMS.
  destruct (environ "SEARCH_TEXT") as [v|]; [|cbn; lia].
  destruct (Str.truthy v); [apply firstn_le_length|cbn; lia].
Qed.

Lemma load_search_texts_nonempty (environ : Environ) :
  load_search_texts environ <> []
  <-> (forall v, environ "SEARCH_TEXT" = Some v -> v <> "" ->
                 entries v <> []).
Proof.
  unfold load_search_texts.
  destruct (environ "SEARCH_TEXT") as [v|];
    [|split; [intros _ v; discriminate|discriminate]].
  destruct v as [|c v]; cbn [Str.truthy].
  - split; [intros _ v [= <-]; congruence|discriminate].
  - unfold MAX_SEARCH_TERMS. split.
    + intros H v' [= <-] _ E. now rewrite E in H.
    + intros H E. specialize (H _ eq_refl ltac:(discriminate)).
      destruct (entries (String c v)); [congruence|discriminate].
Qed.

(** X15. A monitor that [SiteMonitor()] constructed has between 1 and
    MAX_URLS urls and between 1 and MAX_SEARCH_TERMS search texts, a check
    interval of 10 seconds at least and a Pushover token and user that are
    not empty. Each url passed [_validate_url]; urls and search texts are
    not empty, have no white space at either end and hold no comma. Both
    tables have exactly the pairs of urls x search_texts, nothing is found
    yet and nothing has been posted. *)
Theorem new_monitor_is_well_formed (environ : Environ) (self : SiteMonitor)
    (settings : Settings) :
  new_monitor urlparse int_of_str environ = inr (self, settings) ->
  1 <= length (urls self) <= MAX_URLS
  /\ 1 <= length (search_texts self) <= MAX_SEARCH_TERMS
  /\ (10 <= check_interval self)%Z
  /\ Str.truthy_opt (pushover_token settings) = true
  /\ Str.truthy_opt (pushover_user settings) = true
  /\ (forall u, In u (urls self) ->
        _validate_url urlparse u = true
        /\ u <> "" /\ Str.strip u = u /\ Str.contains "," u = false)
  /\ (forall t, In t (search_texts self) ->
        t <> "" /\ Str.strip t = t /\ Str.contains "," t = false)
  /\ keys_are (urls self) (search_texts self) self
  /\ (forall u t, phase self u t = NotFound)
  /\ journal self = [].
Proof.
  unfold new_monitor. intros H.
  destruct (environ "MONITOR_URL") as [v|]; [|discriminate].
  remember (List.filter (_validate_url urlparse) (firstn MAX_URLS (entries v)))
    as us eqn:Eus.
  destruct us as [|u0 us0]; [discriminate|]. rewrite Eus in H.
  destruct (int_of_str (getenv_or environ "CHECK_INTERVAL" "300"))
    as [interval|]; [|discriminate].
  destruct (int_of_str (getenv_or environ "NOTIFICATION_PRIORITY" "1"))
    as [priority|]; [|discriminate].
  destruct (_validate_config _ _ _ _ _) eqn:Hv; [discriminate|].
  injection H as <- <-.
  apply validate_config_passes in Hv as (Htok & Huser & _ & Hts & Hint).
  cbn [urls search_texts check_interval journal __init__ pushover_token
       pushover_user].
  rewrite <- Eus.
  split; [|split; [|split; [|split; [|split; [|split; [|split;
    [|split; [|split]]]]]]]]; try assumption; try reflexivity.
  - split; [cbn; lia|]. rewrite Eus.
    etransitivity; [apply filter_length_le|apply firstn_le_length].
  - split; [|apply load_search_texts_length].
    destruct (load_search_texts environ); [congruence|cbn; lia].
  - intros u Hu. rewrite Eus in Hu. apply filter_In in Hu as [Hu Hvalid].
    split; [exact Hvalid|]. apply firstn_In in Hu.
    exact (entries_shape v u Hu).
  - apply load_search_texts_shape.
  - apply init_keys.
  - intros u t. unfold phase.
    now rewrite (init_found_stamp text_page join_path).
Qed.

(** X16. The constructor fails with AttributeError exactly when MONITOR_URL
    is not set, and with "No valid URLs provided" exactly when it is set
    and none of its first MAX_URLS entries passes [_validate_url]: entries
    after the tenth are not looked at, valid or not. The message
    "MONITOR_URL environment variable cannot be empty" of
    [_validate_config] is never part of an error the constructor raises. *)
Theorem new_monitor_url_errors (environ : Environ) :
  (new_monitor urlparse int_of_str environ = inl AttributeError
   <-> environ "MONITOR_URL" = None)
  /\ (new_monitor urlparse int_of_str environ
      = inl (ValueError "No valid URLs provided")
      <-> exists urls_env,
            environ "MONITOR_URL" = Some urls_env
            /\ forall u, In u (firstn MAX_URLS (entries urls_env)) ->
                         _validate_url urlparse u = false)
  /\ (forall message,
        new_monitor urlparse int_of_str environ = inl (ValueError message) ->
        Str.contains "MONITOR_URL environment variable cannot be empty"
                     message = false).
Proof.
  unfold new_monitor.
  destruct (environ "MONITOR_URL") as [v|].
  2:{ split; [tauto|]. split; [|discriminate].
      split; [discriminate|]. intros (? & ? & _). discriminate. }
  remember (List.filter (_validate_url urlparse) (firstn MAX_URLS (entries v)))
    as us eqn:Eus.
  destruct us as [|u0 us0].
  - split; [split; discriminate|]. split.
    + split; [|reflexivity]. intros _. exists v. split; [reflexivity|].
      intros u Hu. destruct (_validate_url urlparse u) eqn:E; [|reflexivity].
      assert (In u []) as []. rewrite Eus. apply filter_In. auto.
    + intros message [= <-]. vm_compute. reflexivity.
  - assert (exists u, In u (firstn MAX_URLS (entries v))
                      /\ _validate_url urlparse u = true) as (u & Hu & Hvalid).
    { exists u0. apply filter_In. rewrite <- Eus. now left. }
    destruct (int_of_str (getenv_or environ "CHECK_INTERVAL" "300"))
      as [interval|].
    2:{ split; [split; discriminate|]. split; [|discriminate].
        split; [discriminate|]. intros (? & [= <-] & Hall).
        rewrite (Hall u Hu) in Hvalid. discriminate. }
    destruct (int_of_str (getenv_or environ "NOTIFICATION_PRIORITY" "1"))
      as [priority|].
    2:{ split; [split; discriminate|]. split; [|discriminate].
        split; [discriminate|]. intros (? & [= <-] & Hall).
        rewrite (Hall u Hu) in Hvalid. discriminate. }
    destruct (_validate_config _ _ _ _ _) as [error|] eqn:Hv.
    2:{ split; [split; discriminate|]. split; [|discriminate].
        split; [discriminate|]. intros (? & [= <-] & Hall).
        rewrite (Hall u Hu) in Hvalid. discriminate. }
    apply validate_config_error in Hv as (message & -> & Hstart & Hno);
      [|discriminate].
    split; [split; discriminate|]. split.
    + split.
      * intros [= ->]. vm_compute in Hstart. discriminate.
      * intros (? & [= <-] & Hall). rewrite (Hall u Hu) in Hvalid.
        discriminate.
    + now intros ? [= <-].
Qed.

(** X17. The constructor returns a monitor exactly when one of the first
    MAX_URLS entries of MONITOR_URL is a valid url, CHECK_INTERVAL (300 when
    unset) reads as an integer of 10 at least, NOTIFICATION_PRIORITY (1 when
    unset) reads as an integer, PUSHOVER_TOKEN and PUSHOVER_USER are set and
    not empty, and SEARCH_TEXT, when set and not empty, has an entry that is
    not blank. *)
Theorem new_monitor_succeeds_iff (environ : Environ) :
  (exists self settings,
     new_monitor urlparse int_of_str environ = inr (self, settings))
  <-> (exists urls_env u,
         environ "MONITOR_URL" = Some urls_env
         /\ In u (firstn MAX_URLS (entries urls_env))
         /\ _validate_url urlparse u = true)
      /\ (exists interval,
            int_of_str (getenv_or environ "CHECK_INTERVAL" "300")
            = Some interval
            /\ (10 <= interval)%Z)
      /\ is_Some (int_of_str (getenv_or environ "NOTIFICATION_PRIORITY" "1"))
      /\ Str.truthy_opt (environ "PUSHOVER_TOKEN") = true
      /\ Str.truthy_opt (environ "PUSHOVER_USER") = true
      /\ (forall search_text_env,
            environ "SEARCH_TEXT" = Some search_text_env ->
            search_text_env <> "" ->
            entries search_text_env <> []).
Proof.
  unfold new_monitor.
  destruct (environ "MONITOR_URL") as [v|].
  2:{ split; [intros (? & ? & ?); discriminate|].
      intros ((? & ? & ? & _) & _). discriminate. }
  remember (List.filter (_validate_url urlparse) (firstn MAX_URLS (entries v)))
    as us eqn:Eus.
  destruct us as [|u0 us0].
  { split; [intros (? & ? & ?); discriminate|].
    intros ((? & u & [= <-] & Hu & Hvalid) & _).
    assert (In u []) as []. rewrite Eus. apply filter_In. auto. }
  assert (exists u, In u (firstn MAX_URLS (entries v))
                    /\ _validate_url urlparse u = true) as (u & Hu & Hvalid).
  { exists u0. apply filter_In. rewrite <- Eus. now left. }
  destruct (int_of_str (getenv_or environ "CHECK_INTERVAL" "300"))
    as [interval|].
  2:{ split; [intros (? & ? & ?); discriminate|].
      intros (_ & (? & ? & _) & _). discriminate. }
  destruct (int_of_str (getenv_or environ "NOTIFICATION_PRIORITY" "1"))
    as [priority|].
  2:{ split; [intros (? & ? & ?); discriminate|].
      intros (_ & _ & [? ?] & _). discriminate. }
  destruct (_validate_config _ _ _ _ _) as [error|] eqn:Hv.
  - split; [intros (? & ? & ?); discriminate|].
    intros (_ & (? & [= <-] & Hint) & _ & Htok & Huser & Hts).
    apply load_search_texts_nonempty in Hts.
    assert (_validate_config (environ "PUSHOVER_TOKEN")
              (environ "PUSHOVER_USER") (u0 :: us0)
              (load_search_texts environ) interval = None) as E
      by (apply validate_config_passes; repeat split; auto; discriminate).
    congruence.
  - apply validate_config_passes in Hv as (Htok & Huser & _ & Hts & Hint).
    split; [intros _|eauto].
    split; [eauto|]. split; [eauto|]. split; [eauto|].
    split; [assumption|]. split; [assumption|].
    now apply load_search_texts_nonempty.
Qed.

(* ---- fetch_page: the request headers ------------------------------------- *)

Lemma header_name_ok_spec (name : string) :
  header_name_ok name = true ->
  name <> ""
  /\ forall c, In c forbidden_in_name ->
               Str.contains (String c "") name = false.
Proof.
  unfold header_name_ok, forbidden_in_name. cbn [existsb].
  intros H. apply andb_prop in H as [Ht H].
  apply negb_true_iff in H. rewrite !orb_false_iff in H.
  destruct H as (H1 & H2 & H3 & _). split.
  - intros ->. discriminate.
  - intros c [<-|[<-|[<-|[]]]]; assumption.
Qed.

Lemma add_safe_header_lookup (safe : gmap string string)
    (item : string * JsonValue) (name value : string) :
  add_safe_header safe item !! name = Some value ->
  safe !! name = Some value \/ custom_header [item] name value.
Proof.
  unfold add_safe_header. destruct item as [key [text|]]; cbn [fst snd]; auto.
  destruct (header_name_ok _) eqn:Hok; auto.
  destruct (decide (Str.slice_to 100 (Str.strip key) = name)) as [<-|Hne].
  - rewrite lookup_insert_eq. intros [= <-]. right.
    exists key, text. split; [now left|auto].
  - rewrite lookup_insert_ne by assumption. auto.
Qed.

Lemma custom_header_cons (item : string * JsonValue)
    (items : list (string * JsonValue)) (name value : string) :
  custom_header (item :: items) name value
  <-> custom_header [item] name value \/ custom_header items name value.
Proof.
  unfold custom_header. split.
  - intros (key & text & [->|Hin] & H); [left|right]; exists key, text;
      (split; [|exact H]); [now left|assumption].
  - intros [(key & text & [->|[]] & H)|(key & text & Hin & H)];
      exists key, text; (split; [|exact H]); [now left|now right].
Qed.

Lemma safe_headers_lookup (items : list (string * JsonValue)) :
  forall (safe : gmap string string) (name value : string),
    fold_left add_safe_header items safe !! name = Some value ->
    safe !! name = Some value \/ custom_header items name value.
Proof.
  induction items as [|item items IH]; intros safe name value H;
    cbn [fold_left] in H; [now left|].
  apply IH in H as [H|H].
  - apply add_safe_header_lookup in H as [H|H]; [now left|right].
    apply custom_header_cons. now left.
  - right. apply custom_header_cons. now right.
Qed.

Lemma safe_headers_keeps (items : list (string * JsonValue)) :
  forall (safe : gmap string string) (name : string),
    is_Some (safe !! name) ->
    is_Some (fold_left add_safe_header items safe !! name).
Proof.
  induction items as [|item items IH]; intros safe name H;
    cbn [fold_left]; [assumption|].
  apply IH. unfold add_safe_header.
  destruct item as [key [text|]]; cbn [fst snd]; auto.
  destruct (header_name_ok _); auto.
  destruct (decide (Str.slice_to 100 (Str.strip key) = name)) as [<-|Hne].
  - rewrite lookup_insert_eq. eauto.
  - now rewrite lookup_insert_ne.
Qed.

Lemma safe_headers_sets (items : list (string * JsonValue)) :
  forall (safe : gmap string string) (name value : string),
    custom_header items name value ->
    exists value',
      custom_header items name value'
      /\ fold_left add_safe_header items safe !! name = Some value'.
Proof.
  induction items as [|item items IH]; intros safe name value H.
  - destruct H as (? & ? & [] & _).
  - cbn [fold_left]. apply custom_header_cons in H as [H|H].
    + assert (add_safe_header safe item !! name = Some value) as Hset.
      { destruct H as (key & text & [->|[]] & -> & -> & Hok).
        unfold add_safe_header. cbn [fst snd]. rewrite Hok.
        now rewrite lookup_insert_eq. }
      destruct (safe_headers_keeps items _ name (ex_intro _ _ Hset))
        as [value' Hfold].
      exists value'. split; [|exact Hfold]. apply custom_header_cons.
      apply safe_headers_lookup in Hfold as [Hfold|Hfold]; [left|now right].
      rewrite Hset in Hfold. now injection Hfold as <-.
    + destruct (IH (add_safe_header safe item) name value H)
        as (value' & Hc & Hl).
      exists value'. split; [|exact Hl]. apply custom_header_cons. now right.
Qed.

(** X18. The headers of a request always hold the six default headers.
    Every other header, and every default that CUSTOM_HEADERS replaced, has
    a name that is not empty, has at most 100 characters and no LF, CR or
    NUL, and a value of at most 500 characters. Every item of the JSON
    object that the loop accepts is sent, with the value of an accepted
    item of that name: a custom header overrides the default of its
    name. *)
Theorem request_headers_are_sanitised (environ : Environ) (agent : string) :
  let headers := request_headers json_loads environ agent in
  (forall name,
     is_Some (default_headers environ agent !! name) ->
     is_Some (headers !! name))
  /\ (forall name value,
        headers !! name = Some value ->
        default_headers environ agent !! name = Some value
        \/ (name <> "" /\ String.length name <= 100
            /\ (forall c, In c forbidden_in_name ->
                          Str.contains (String c "") name = false)
            /\ String.length value <= 500))
  /\ (forall custom_headers items name value,
        environ "CUSTOM_HEADERS" = Some custom_headers ->
        custom_headers <> "" ->
        json_loads custom_headers = Some (JDict items) ->
        custom_header items name value ->
        exists value',
          custom_header items name value' /\ headers !! name = Some value').
Proof.
  unfold request_headers. cbv zeta.
  destruct (environ "CUSTOM_HEADERS") as [custom|];
    [|split; [auto|split; [auto|discriminate]]].
  destruct custom as [|c custom]; cbn [Str.truthy];
    [split; [auto|split; [auto|intros ? ? ? ? [= <-]; congruence]]|].
  destruct (json_loads (String c custom)) as [[items|]|] eqn:Ej;
    [|split; [auto|split; [auto|intros ? ? ? ? [= <-] _; congruence]]..].
  split; [|split].
  - intros name [value H]. unfold safe_headers.
    destruct (fold_left add_safe_header items ∅ !! name) as [value'|] eqn:E.
    + exists value'. apply lookup_union_Some_raw. now left.
    + exists value. apply lookup_union_Some_raw. now right.
  - intros name value H. apply lookup_union_Some_raw in H as [H|[_ H]];
      [right|now left].
    apply safe_headers_lookup in H as [H|H];
      [rewrite lookup_empty in H; discriminate|].
    destruct H as (key & text & _ & -> & -> & Hok).
    apply header_name_ok_spec in Hok as [Hne Hno].
    pose proof (proj1 (slice_to_length (Str.strip key) 100)).
    pose proof (proj1 (slice_to_length (Str.strip text) 500)).
    repeat split; auto; lia.
  - intros ? items' name value [= <-] _ Ej' H.
    rewrite Ej in Ej'. injection Ej' as <-.
    destruct (safe_headers_sets items ∅ name value H) as (value' & Hc & Hl).
    exists value'. split; [exact Hc|].
    apply lookup_union_Some_raw. now left.
Qed.

End ConfigurationProperties.

(* ===================================================================== *)
(* Examples and instances                                                *)
(* ===================================================================== *)



(** A link whose href makes [urljoin] raise: the text is found and its
    timestamp written, then the exception leaves [check_for_patterns]. In
    the cycle nothing is dispatched and [run_check] returns False; the pair
    is Found, so that later cycles skip it. *)
Example urljoin_error_after_the_write :
  let bad_link := fun html : string =>
    {| soup_text := html; soup_title := None; soup_metas := [];
       soup_imgs := [];
       soup_anchors :=
         [ {| a_text := html; a_title := None; a_href := Some "//[" |} ];
       soup_product_names := []; soup_data_titles := []; soup_inputs := [];
       soup_headings := []; soup_containers := [] |} in
  let s0 := started (fun _ => PushStatus 200) ["http://a"]
                    ["DJI Mini 5 Pro"] 300 true in
  let check := check_for_patterns bad_link join_path (fun _ => 7%Z)
                 (Some "Buy the DJI Mini 5 Pro now!") "http://a" None s0 in
  let run := run_check bad_link join_path (fun _ => PushStatus 200)
               [task_of "http://a" "Buy the DJI Mini 5 Pro now!" 7] s0 in
  snd check = None
  /\ found_stamp (fst check) "http://a" "DJI Mini 5 Pro" = Some 7%Z
  /\ snd run = false
  /\ dispatches_of "http://a" "DJI Mini 5 Pro" (journal (fst run)) = []
  /\ phase (fst run) "http://a" "DJI Mini 5 Pro" = Found.
Proof. cbv zeta. repeat split; vm_compute; reflexivity. Qed.

(** C7, the code at the failing input. One url, one search text, the page a
    link whose label has the text, auto-stop off. In the first cycle the text
    is found and its dispatch fails: the pair is Found, its flag is down,
    its timestamp is kept. Pushover would accept the next post, but in
    whatever cycles follow no dispatch is attempted for the pair: its only
    dispatch is the failed one and it stays Found, never Notified. *)
Lemma failed_dispatch_is_not_retried :
  let page := "Buy the DJI Mini 5 Pro now!" in
  let s0 := started flaky_pushover ["http://a"] ["DJI Mini 5 Pro"] 300 false in
  let s1 := fst (run_check link_page join_path flaky_pushover
                   [task_of "http://a" page 7] s0) in
  dispatches_of "http://a" "DJI Mini 5 Pro" (journal s1) = [false]
  /\ found_stamp s1 "http://a" "DJI Mini 5 Pro" = Some 7%Z
  /\ get_sent "http://a" "DJI Mini 5 Pro" s1 = Some false
  /\ next_post_succeeds flaky_pushover s1 = true
  /\ forall cycles,
       let s2 := after_cycles link_page join_path flaky_pushover cycles s1 in
       dispatches_of "http://a" "DJI Mini 5 Pro" (journal s2) = [false]
       /\ phase s2 "http://a" "DJI Mini 5 Pro" = Found.
Proof.
  cbv zeta.
  set (s1 := fst (run_check link_page join_path flaky_pushover _ _)).
  assert (dispatches_of "http://a" "DJI Mini 5 Pro" (journal s1) = [false])
    as Hd by (vm_compute; reflexivity).
  assert (found_stamp s1 "http://a" "DJI Mini 5 Pro" = Some 7%Z)
    as Hf by (vm_compute; reflexivity).
  assert (phase s1 "http://a" "DJI Mini 5 Pro" = Found)
    as Hp by (vm_compute; reflexivity).
  split; [exact Hd|]. split; [exact Hf|].
  split; [vm_compute; reflexivity|]. split; [vm_compute; reflexivity|].
  intros cycles.
  destruct (found_pair_is_left_alone link_page join_path flaky_pushover cycles
              "http://a" "DJI Mini 5 Pro" 7%Z s1 Hf) as [[Hsame _] Hphase].
  split; congruence.
Qed.

(** The claim of C5 as worded fails: with auto-stop on, one url and one
    search text whose dispatch Pushover refuses, the process exits with code
    0 after the first cycle although the pair is Found and not Notified: its
    only dispatch failed and its flag is down. *)
Lemma exit_with_pair_not_notified :
  let run := start_monitoring link_page join_path flaky_pushover
               [[task_of "http://a" "Buy the DJI Mini 5 Pro now!" 7]]
               (__init__ ["http://a"] ["DJI Mini 5 Pro"] 300 true) in
  snd run = Some 0%Z
  /\ phase (fst run) "http://a" "DJI Mini 5 Pro" = Found
  /\ get_sent "http://a" "DJI Mini 5 Pro" (fst run) = Some false
  /\ dispatches_of "http://a" "DJI Mini 5 Pro" (journal (fst run)) = [false].
Proof. cbv zeta. repeat split; vm_compute; reflexivity. Qed.

Lemma failed_fetch_is_isolated_witness :
  (forall self, _check_single_url link_page join_path
                  (timed_out_task "http://a") self = (self, Some []))
  /\ (forall self any_new_found,
        run_task link_page join_path (fun _ => PushStatus 200)
                 (timed_out_task "http://a") any_new_found self
        = (self, any_new_found))
  /\ (forall before after self,
        run_check link_page join_path (fun _ => PushStatus 200)
                  (before ++ timed_out_task "http://a" :: after) self
        = run_check link_page join_path (fun _ => PushStatus 200)
                    (before ++ after) self).
Proof.
  apply (failed_fetch_is_isolated link_page join_path
           (fun _ => PushStatus 200) (timed_out_task "http://a")).
  reflexivity.
Defined.

(* ---- Worked runs ------------------------------------------------------ *)

Example normalize_text_dji :
  _normalize_text "DJI Mini-5 Pro!" = "dji mini 5 pro"
  /\ _normalize_text ("  A" +:+ String (ascii_of_N 9) "b__C ") = "a b c".
Proof. split; vm_compute; reflexivity. Qed.

(** Scenario A: the text in a link is found, notified once, and the monitor
    exits with code 0 after the summary. *)
Example scenario_link_found_and_notified :
  let run := start_monitoring link_page join_path (fun _ => PushStatus 200)
               [[task_of "http://a" "Buy the DJI Mini 5 Pro now!" 7]]
               (__init__ ["http://a"] ["DJI Mini 5 Pro"] 300 true) in
  snd run = Some 0%Z
  /\ phase (fst run) "http://a" "DJI Mini 5 Pro" = Notified
  /\ dispatches_of "http://a" "DJI Mini 5 Pro" (journal (fst run)) = [true].
Proof. cbv zeta. repeat split; vm_compute; reflexivity. Qed.

(** A page with a link and a heading gives two records for the text: when
    the dispatch of the first fails, the second is dispatched in the same
    cycle. *)
Example second_record_retries_in_the_cycle :
  let s := fst (run_check link_heading_page join_path flaky_pushover
                  [task_of "http://a" "Buy the DJI Mini 5 Pro now!" 7]
                  (started flaky_pushover ["http://a"] ["DJI Mini 5 Pro"]
                           300 false)) in
  dispatches_of "http://a" "DJI Mini 5 Pro" (journal s) = [false; true]
  /\ phase s "http://a" "DJI Mini 5 Pro" = Notified.
Proof. cbv zeta. split; vm_compute; reflexivity. Qed.

(** A text found in a paragraph only has no record: its entry is set, the
    count goes up, nothing is dispatched and [run_check] returns False. *)
Example text_without_details_is_not_dispatched :
  let run := run_check text_page join_path (fun _ => PushStatus 200)
               [task_of "http://a" "The DJI Mini 5 Pro is in stock" 7]
               (started (fun _ => PushStatus 200) ["http://a"; "http://b"]
                        ["DJI Mini 5 Pro"] 300 true) in
  snd run = false
  /\ found_stamp (fst run) "http://a" "DJI Mini 5 Pro" = Some 7%Z
  /\ dispatches_of "http://a" "DJI Mini 5 Pro" (journal (fst run)) = []
  /\ get_completion_status (fst run) = Some (1, 2).
Proof. cbv zeta. repeat split; vm_compute; reflexivity. Qed.

(* ---- Instances of the further properties ------------------------------- *)

Lemma normalize_text_idempotent_witness :
  Unicode._normalize_text Unicode.latin1_lower
    (Unicode._normalize_text Unicode.latin1_lower
       (Unicode.of_string "  DJI Mini-5 Pro! "))
  = Unicode._normalize_text Unicode.latin1_lower
      (Unicode.of_string "  DJI Mini-5 Pro! ").
Proof.
  apply (normalize_text_idempotent Unicode.latin1_lower latin1_lower_normal
           (Unicode.of_string "  DJI Mini-5 Pro! ")).
  vm_compute. discriminate.
Defined.


Lemma collected_part_is_searched_witness :
  Str.contains (_normalize_text "DJI Mini 5 Pro")
    (normalized_content_of (link_page "New: DJI Mini-5 Pro, in stock"))
  = true.
Proof.
  apply (collected_part_is_searched
           (link_page "New: DJI Mini-5 Pro, in stock")
           "New: DJI Mini-5 Pro, in stock" "DJI Mini 5 Pro").
  - vm_compute. left. reflexivity.
  - vm_compute. discriminate.
  - vm_compute. reflexivity.
Defined.

Lemma fetch_page_content_bound_witness :
  exists k content_length body,
    k < MAX_RETRIES
    /\ (fun attempt => match attempt with
                       | 0 => Timeout
                       | _ => Response 5 "hello"
                       end) k
       = Response content_length body
    /\ Str.starts_with "hello" body = true
    /\ ((MAX_CONTENT_SIZE < content_length)%N ->
        (N.of_nat (String.length "hello") <= 10485760)%N)
    /\ ((content_length <= MAX_CONTENT_SIZE)%N -> "hello" = body).
Proof.
  apply (fetch_page_content_bound
           (fun attempt => match attempt with
                           | 0 => Timeout
                           | _ => Response 5 "hello"
                           end) "hello").
  reflexivity.
Defined.

Lemma product_container_text_is_bounded_witness :
  String.length
    (info_text
       (container_info "Mavic" "http://a"
          {| c_text := "  Mavic 4 Pro  $2199  ";
             c_price_elem := Some "$2199"; c_link_href := Some "/mavic" |}))
  <= 203.
Proof.
  apply (product_container_text_is_bounded join_path
           {| soup_text := "Mavic 4 Pro $2199"; soup_title := None;
              soup_metas := []; soup_imgs := []; soup_anchors := [];
              soup_product_names := []; soup_data_titles := [];
              soup_inputs := []; soup_headings := [];
              soup_containers :=
                [{| c_text := "  Mavic 4 Pro  $2199  ";
                    c_price_elem := Some "$2199";
                    c_link_href := Some "/mavic" |}] |}
           ["Mavic"] "http://a"
           [container_info "Mavic" "http://a"
              {| c_text := "  Mavic 4 Pro  $2199  ";
                 c_price_elem := Some "$2199";
                 c_link_href := Some "/mavic" |}]).
  - vm_compute. reflexivity.
  - left. reflexivity.
  - reflexivity.
Defined.

Lemma found_without_details_is_never_notified_witness :
  let s2 :=
    after_cycles text_page join_path (fun _ => PushStatus 200)
      [[task_of "http://a" "The DJI Mini 5 Pro is here" 9]]
      (fst (run_task text_page join_path (fun _ => PushStatus 200)
              (task_of "http://a" "The DJI Mini 5 Pro is here" 7) false
              (after_cycles text_page join_path (fun _ => PushStatus 200) []
                 (started (fun _ => PushStatus 200) ["http://a"]
                    ["DJI Mini 5 Pro"] 300 true)))) in
  found_stamp s2 "http://a" "DJI Mini 5 Pro" = Some 7%Z
  /\ dispatches_of "http://a" "DJI Mini 5 Pro" (journal s2) = []
  /\ phase s2 "http://a" "DJI Mini 5 Pro" = Found.
Proof.
  apply (found_without_details_is_never_notified text_page join_path
           (fun _ => PushStatus 200) ["http://a"] ["DJI Mini 5 Pro"] 300 true
           [] [[task_of "http://a" "The DJI Mini 5 Pro is here" 9]]
           (task_of "http://a" "The DJI Mini 5 Pro is here" 7) false
           "The DJI Mini 5 Pro is here" "DJI Mini 5 Pro").
  - reflexivity.
  - reflexivity.
  - vm_compute. left. reflexivity.
  - vm_compute. left. reflexivity.
  - vm_compute. reflexivity.
  - vm_compute. reflexivity.
  - left. vm_compute. reflexivity.
Defined.

Lemma reported_find_is_progress_witness :
  exists found_count found_count',
    get_completion_status
      (after_cycles link_page join_path (fun _ => PushStatus 200) []
         (started (fun _ => PushStatus 200) ["http://a"]
            ["DJI Mini 5 Pro"; "Mavic"] 300 true))
    = Some (found_count, 1 * 2)
    /\ get_completion_status
         (fst (run_check link_page join_path (fun _ => PushStatus 200)
                 [task_of "http://a" "Buy the DJI Mini 5 Pro now!" 7]
                 (after_cycles link_page join_path (fun _ => PushStatus 200) []
                    (started (fun _ => PushStatus 200) ["http://a"]
                       ["DJI Mini 5 Pro"; "Mavic"] 300 true))))
       = Some (found_count', 1 * 2)
    /\ found_count < found_count'.
Proof.
  apply (reported_find_is_progress link_page join_path
           (fun _ => PushStatus 200) ["http://a"] ["DJI Mini 5 Pro"; "Mavic"]
           300 true [] [task_of "http://a" "Buy the DJI Mini 5 Pro now!" 7]).
  vm_compute. reflexivity.
Defined.

Lemma validate_url_private_172_witness :
  _validate_url plain_urlparse "http://172.20.0.1:8080/status"
  = negb ((16 <=? 20)%nat && (20 <=? 31)%nat)%bool.
Proof.
  apply (validate_url_private_172 plain_urlparse
           "http://172.20.0.1:8080/status"
           {| scheme := "http"; netloc := "172.20.0.1:8080";
              hostname := Some "172.20.0.1" |} 20 "0.1").
  - reflexivity.
  - left. reflexivity.
  - discriminate.
  - reflexivity.
Defined.

Lemma new_monitor_is_well_formed_witness :
  let self := __init__ ["https://shop.example/drones"]
                ["DJI Mini 5 Pro"; "Mavic"] 300 true in
  1 <= length (urls self) <= MAX_URLS
  /\ 1 <= length (search_texts self) <= MAX_SEARCH_TERMS
  /\ (10 <= check_interval self)%Z
  /\ Str.truthy_opt (Some "token") = true
  /\ Str.truthy_opt (Some "user") = true
  /\ (forall u, In u (urls self) ->
        _validate_url plain_urlparse u = true
        /\ u <> "" /\ Str.strip u = u /\ Str.contains "," u = false)
  /\ (forall t, In t (search_texts self) ->
        t <> "" /\ Str.strip t = t /\ Str.contains "," t = false)
  /\ keys_are (urls self) (search_texts self) self
  /\ (forall u t, phase self u t = NotFound)
  /\ journal self = [].
Proof.
  apply (new_monitor_is_well_formed plain_urlparse decimal_int shop_environ
           (__init__ ["https://shop.example/drones"]
              ["DJI Mini 5 Pro"; "Mavic"] 300 true)
           {| pushover_token := Some "token"; pushover_user := Some "user";
              user_agent := default_user_agent;
              notification_title := "Content Found!";
              notification_priority := 1;
              notification_sound := "magic" |}).
  vm_compute. reflexivity.
Defined.
